(** * The DICOM pixel pipeline of [src/dicom/dicom.py]

    A shallow embedding of the class [DICOM] (construction from a path,
    [process_static], [process_dynamic], [_export]), of [main] and of the
    NumPy operations the two normalisers are written with, followed by the
    properties of the normalisers, of the batch loop, of the exports and of
    [main].

    Modelling choices, all taken from the source:
    - a pixel array is a 2-D integer array with its NumPy dtype (what
      [pydicom] gives for native Pixel Data); rows are lists;
    - [float] arithmetic is IEEE 754 binary64, through the Standard
      Library's executable specification [SpecFloat] (precision 53,
      [emax] 1024), rounding to nearest even as NumPy does;
    - NumPy's division by zero warns and yields NaN or an infinity, it
      does not raise (NumPy's default error state, which the program
      never changes);
    - [np.uint8(a)] converts each sample as C does: truncation toward
      zero when the truncated value fits 0..255.  For NaN, the infinities
      and values that do not fit, C leaves the conversion undefined and
      NumPy stores what the hardware conversion yields (for NaN: 0 on
      x86-64 and AArch64, 255 on RISC-V); that value is the parameter
      [invalid] of the model;
    - the file system is an association list from paths to nodes, in
      enumeration order; a file written by [_export] records the array it
      was saved from; [mkdir] and the saving of an image raise where a
      regular file stands in place of a directory, or a directory at the
      path of the image, as the calls of the source do (the model has no
      permissions and no full disk);
    - [pydicom.dcmread] is a parameter of the model: reading and decoding
      a file gives a dataset, with or without pixel data, or raises;
    - [main] of [src/main.py] is the construction followed by
      [process_dynamic] with the arguments of the source. *)

From Stdlib Require Import ZArith List Bool String Ascii Lia Zpower.
From Stdlib Require Import Floats.SpecFloat.
Import ListNotations.
Local Open Scope Z_scope.

#[local] Arguments Z.mul : simpl never.
#[local] Arguments Z.add : simpl never.
#[local] Arguments Z.sub : simpl never.
#[local] Arguments Z.compare : simpl never.
#[local] Arguments Z.pow : simpl never.

(** ** Exceptions and results *)

Inductive exception : Type :=
| FileNotFoundError (msg : string)
| ValueError (msg : string)
| ReadError (msg : string)
| NotADirectoryError (msg : string)
| FileExistsError (msg : string)
| IsADirectoryError (msg : string).

Inductive result (A : Type) : Type :=
| Ok (a : A)
| Raise (e : exception).

Arguments Ok {A} a.
Arguments Raise {A} e.

Definition rbind {A B : Type} (r : result A) (f : A -> result B) : result B :=
  match r with
  | Ok a => f a
  | Raise e => Raise e
  end.

Notation "x <- r ;; k" := (rbind r (fun x => k))
  (at level 61, r at next level, right associativity).

(** ** binary64 *)

Module Float64.

Definition prec : Z := 53.
Definition emax : Z := 1024.

Definition float : Type := spec_float.

(** [float(z)] for an integer [z]: rounded to nearest even. *)
Definition of_Z (z : Z) : float := binary_normalize prec emax z 0 false.

Definition div : float -> float -> float := SFdiv prec emax.
Definition mul : float -> float -> float := SFmul prec emax.

Definition nan : float := S754_nan.

Definition is_nan (f : float) : bool :=
  match f with
  | S754_nan => true
  | _ => false
  end.

(** [a >= b], false when either is NaN. *)
Definition ge (a b : float) : bool :=
  match SFcompare a b with
  | Some Gt | Some Eq => true
  | _ => false
  end.

(** The integer part of a finite value (truncation toward zero). *)
Definition trunc (f : float) : option Z :=
  match f with
  | S754_zero _ => Some 0
  | S754_finite s m e => Some (cond_Zopp s (Z.shiftl (Zpos m) e))
  | _ => None
  end.

End Float64.

(** ** NumPy *)

Module np.

Definition ndarray (A : Type) : Type := list (list A).

Definition elementwise {A B : Type} (f : A -> B) (a : ndarray A) : ndarray B :=
  map (map f) a.

Definition ravel {A : Type} (a : ndarray A) : list A := List.concat a.

(** A reduction with no identity: [ValueError] on a zero-size array. *)
Definition reduce {A : Type} (f : A -> A -> A) (a : ndarray A) : result A :=
  match ravel a with
  | [] => Raise (ValueError "zero-size array to reduction operation which has no identity")
  | x :: xs => Ok (fold_left f xs x)
  end.

(** Integer dtypes and their wrap-around. *)
Record dtype : Type := { signed : bool; bits : Z }.

Definition int16 : dtype := {| signed := true; bits := 16 |}.
Definition uint16 : dtype := {| signed := false; bits := 16 |}.

Definition wrap (t : dtype) (z : Z) : Z :=
  if signed t
  then (z + 2 ^ (bits t - 1)) mod 2 ^ bits t - 2 ^ (bits t - 1)
  else z mod 2 ^ bits t.

(** An integer array with its dtype. *)
Record int_array : Type := { dt : dtype; data : ndarray Z }.

(** [a.astype(float)] *)
Definition astype_float (a : int_array) : ndarray Float64.float :=
  elementwise Float64.of_Z (data a).

(** The ufunc [maximum] on two samples: the first when it is NaN or not below
    the second. *)
Definition maximum1 (in1 in2 : Float64.float) : Float64.float :=
  if Float64.ge in1 in2 || Float64.is_nan in1 then in1 else in2.

(** [np.maximum(a, s)] with a scalar [s] *)
Definition maximum (a : ndarray Float64.float) (s : Float64.float) : ndarray Float64.float :=
  elementwise (fun x => maximum1 x s) a.

(** [a.max()] on a float array *)
Definition max_float (a : ndarray Float64.float) : result Float64.float :=
  reduce maximum1 a.

(** [np.min(a)] and [np.max(a)] on an integer array: scalars of its dtype *)
Definition min (a : int_array) : result Z := reduce Z.min (data a).
Definition max (a : int_array) : result Z := reduce Z.max (data a).

(** [a / s] on floats *)
Definition true_divide (a : ndarray Float64.float) (s : Float64.float) : ndarray Float64.float :=
  elementwise (fun x => Float64.div x s) a.

(** [a *= s] on floats *)
Definition multiply (a : ndarray Float64.float) (s : Float64.float) : ndarray Float64.float :=
  elementwise (fun x => Float64.mul x s) a.

(** [a - s] on an integer array and a scalar of its dtype *)
Definition subtract (a : int_array) (s : Z) : int_array :=
  {| dt := dt a; data := elementwise (fun x => wrap (dt a) (x - s)) (data a) |}.

(** [a / s] on an integer array and an integer scalar: true division in
    binary64 *)
Definition int_true_divide (a : int_array) (s : Z) : ndarray Float64.float :=
  elementwise (fun x => Float64.div (Float64.of_Z x) (Float64.of_Z s)) (data a).

(** [a[a < s] = s] and [a[a > s] = s] *)
Definition clip_below (a : int_array) (s : Z) : int_array :=
  {| dt := dt a; data := elementwise (fun x => if x <? s then s else x) (data a) |}.
Definition clip_above (a : int_array) (s : Z) : int_array :=
  {| dt := dt a; data := elementwise (fun x => if x >? s then s else x) (data a) |}.

(** The conversion of one sample to [uint8]; [invalid] is what the platform
    stores where C leaves the conversion undefined. *)
Definition to_uint8 (invalid : Float64.float -> Z) (f : Float64.float) : Z :=
  match Float64.trunc f with
  | Some t => if (0 <=? t) && (t <=? 255) then t else invalid f
  | None => invalid f
  end.

(** [np.uint8(a)] *)
Definition uint8 (invalid : Float64.float -> Z) (a : ndarray Float64.float) : ndarray Z :=
  elementwise (to_uint8 invalid) a.

End np.

(** ** pathlib and the file system *)

Module pathlib.

(** A path is the list of its components. *)
Definition Path : Type := list string.

Inductive node : Type :=
| Dir
| File (pixels : option (np.ndarray Z)).

Definition filesystem : Type := list (Path * node).

Fixpoint path_eqb (p q : Path) : bool :=
  match p, q with
  | [], [] => true
  | a :: p', b :: q' => String.eqb a b && path_eqb p' q'
  | _, _ => false
  end.

Fixpoint lookup (fs : filesystem) (p : Path) : option node :=
  match fs with
  | [] => None
  | (q, n) :: fs' => if path_eqb q p then Some n else lookup fs' p
  end.

Definition exists_ (fs : filesystem) (p : Path) : bool :=
  match lookup fs p with
  | Some _ => true
  | None => false
  end.

Definition is_file (fs : filesystem) (p : Path) : bool :=
  match lookup fs p with
  | Some (File _) => true
  | _ => false
  end.

(** The name of [q] when [q] is an entry directly under [p]. *)
Fixpoint child_name (p q : Path) : option string :=
  match p, q with
  | [], [name] => Some name
  | a :: p', b :: q' => if String.eqb a b then child_name p' q' else None
  | _, _ => None
  end.

(** Shell-style matching of one name: [*] matches any run of characters. *)
Fixpoint fnmatch (pat : string) : string -> bool :=
  match pat with
  | EmptyString => fun name => match name with EmptyString => true | _ => false end
  | String c pat' =>
      if Ascii.eqb c "*"%char
      then (fix star (name : string) : bool :=
              fnmatch pat' name
              || match name with
                 | EmptyString => false
                 | String _ name' => star name'
                 end)
      else fun name =>
             match name with
             | String d name' => Ascii.eqb c d && fnmatch pat' name'
             | EmptyString => false
             end
  end.

(** [p.glob(pattern)] for a one-component pattern: the matching entries of
    [p], in enumeration order. *)
Fixpoint glob (fs : filesystem) (p : Path) (pattern : string) : list Path :=
  match fs with
  | [] => []
  | (q, _) :: fs' =>
      match child_name p q with
      | Some name => if fnmatch pattern name then q :: glob fs' p pattern
                     else glob fs' p pattern
      | None => glob fs' p pattern
      end
  end.

(** The proper prefixes of a path and the path itself, shortest first. *)
Fixpoint prefixes (p : Path) : list Path :=
  match p with
  | [] => []
  | a :: p' => [a] :: map (cons a) (prefixes p')
  end.

(** [os.mkdir] along a list of paths, each the parent of the next: a
    directory that is there is kept, a missing one is made, and a regular
    file in the way raises, [FileExistsError] at the last path and
    [NotADirectoryError] above it. *)
Fixpoint mkdir_each (fs : filesystem) (ps : list Path) : result filesystem :=
  match ps with
  | [] => Ok fs
  | q :: ps' =>
      match lookup fs q with
      | Some Dir => mkdir_each fs ps'
      | Some (File _) =>
          match ps' with
          | [] => Raise (FileExistsError "File exists")
          | _ :: _ => Raise (NotADirectoryError "Not a directory")
          end
      | None => mkdir_each (fs ++ [(q, Dir)]) ps'
      end
  end.

(** [p.mkdir(parents=True, exist_ok=True)] *)
Definition mkdir (fs : filesystem) (p : Path) : result filesystem :=
  mkdir_each fs (prefixes p).

(** [p.parent] *)
Definition parent (p : Path) : Path := removelast p.

(** Opening [p] for writing, as saving an image or a figure does: the parent
    must be a directory (the current directory, for a path of one component,
    is one), and no directory may stand at [p]; the file then replaces an
    entry of that path. *)
Definition write (fs : filesystem) (p : Path) (pixels : np.ndarray Z) : result filesystem :=
  let saved := filter (fun e => negb (path_eqb (fst e) p)) fs ++ [(p, File (Some pixels))] in
  let at_p := match lookup fs p with
              | Some Dir => Raise (IsADirectoryError "Is a directory")
              | _ => Ok saved
              end in
  match parent p with
  | [] => at_p
  | _ :: _ =>
      match lookup fs (parent p) with
      | Some Dir => at_p
      | Some (File _) => Raise (NotADirectoryError "Not a directory")
      | None => Raise (FileNotFoundError "No such file or directory")
      end
  end.

(** Index of the last ["."] of a name, from the left. *)
Fixpoint rfind_dot (name : string) (i : nat) (last : option nat) : option nat :=
  match name with
  | EmptyString => last
  | String c name' =>
      rfind_dot name' (S i) (if Ascii.eqb c "."%char then Some i else last)
  end.

(** [p.stem]: the final component without its suffix. *)
Definition stem (p : Path) : string :=
  let name := List.last p EmptyString in
  match rfind_dot name 0 None with
  | Some i => if (0 <? i)%nat && (i <? String.length name - 1)%nat
              then String.substring 0 i name else name
  | None => name
  end.

End pathlib.

(** ** pydicom *)

Module pydicom.

(** A decoded file: [pixel_array] is absent when the file holds no pixel
    data ([hasattr(dcm_file, "pixel_array")] is then false). *)
Record Dataset : Type := { pixel_array : option np.int_array }.

End pydicom.

(** ** The state of a run: the file system and what was printed *)

Record world : Type := { fs : pathlib.filesystem; stdout : list string }.

Definition M (A : Type) : Type := world -> result A * world.

Definition ret {A : Type} (a : A) : M A := fun w => (Ok a, w).

Definition bind {A B : Type} (m : M A) (f : A -> M B) : M B :=
  fun w =>
    match m w with
    | (Ok a, w') => f a w'
    | (Raise e, w') => (Raise e, w')
    end.

Definition lift {A : Type} (r : result A) : M A := fun w => (r, w).

Definition print (line : string) : M unit :=
  fun w => (Ok tt, {| fs := fs w; stdout := stdout w ++ [line] |}).

Definition path_exists (p : pathlib.Path) : M bool :=
  fun w => (Ok (pathlib.exists_ (fs w) p), w).

(** A file-system operation that fails raises and leaves the state as it
    was. *)
Definition path_mkdir (p : pathlib.Path) : M unit :=
  fun w =>
    match pathlib.mkdir (fs w) p with
    | Ok fs' => (Ok tt, {| fs := fs'; stdout := stdout w |})
    | Raise e => (Raise e, w)
    end.

Definition save (p : pathlib.Path) (pixels : np.ndarray Z) : M unit :=
  fun w =>
    match pathlib.write (fs w) p pixels with
    | Ok fs' => (Ok tt, {| fs := fs'; stdout := stdout w |})
    | Raise e => (Raise e, w)
    end.

Notation "x <~ m ;; k" := (bind m (fun x => k))
  (at level 61, m at next level, right associativity).
Notation "m ;;; k" := (bind m (fun _ => k))
  (at level 61, right associativity).

(** ** class DICOM *)

Inductive image_format : Type := png | jpg.

(** [if x:] on an [int | None]: [None] and [0] are false. *)
Definition truthy (x : option Z) : bool :=
  match x with
  | Some v => negb (v =? 0)
  | None => false
  end.

Module DICOM.

Record self : Type := { path : pathlib.Path; dcm_files : list pathlib.Path }.

(** [DICOM(path)], source lines 30-41. *)
Definition __init__ (files : pathlib.filesystem) (path : pathlib.Path) : result self :=
  if negb (pathlib.exists_ files path)
  then Raise (FileNotFoundError "File/Folder does not exist")
  else if pathlib.is_file files path
       then Ok {| path := path; dcm_files := [] ++ [path] |}
       else Ok {| path := path; dcm_files := [] ++ pathlib.glob files path "*.dcm" |}.

(** [_export], source lines 171-198: the image (or the plot of it) is saved
    under [img/] (or [plt/]) of the output directory, named after the stem of
    the source file. *)
Definition _export (pixel_data_u8 : np.ndarray Z) (file output_dir : pathlib.Path)
    (format : image_format) (plot : bool) : M unit :=
  let ext := match format with jpg => "jpg"%string | png => "png"%string end in
  if plot
  then path_mkdir (output_dir ++ ["plt"%string]) ;;;
       save (output_dir ++ ["plt"%string; (pathlib.stem file ++ "." ++ ext)%string]) pixel_data_u8
  else path_mkdir (output_dir ++ ["img"%string]) ;;;
       save (output_dir ++ ["img"%string; (pathlib.stem file ++ "." ++ ext)%string]) pixel_data_u8.

Section Normalisers.

(** What the platform's conversion to [uint8] stores for a value outside the
    conversion C defines. *)
Variable invalid : Float64.float -> Z.

(** The value of [pixel_array_pos_norm_u8] in [process_static], source lines
    81-93, from the pixel array of the record. *)
Definition pixel_array_pos_norm_u8 (pixel_array : np.int_array) : result (np.ndarray Z) :=
  let pixel_array_f64 := np.astype_float pixel_array in
  let pixel_array_pos_f64 := np.maximum pixel_array_f64 (Float64.of_Z 0) in
  m <- np.max_float pixel_array_pos_f64 ;;
  let pixel_array_pos_norm_f64 := np.true_divide pixel_array_pos_f64 m in
  let pixel_array_pos_norm_f64 := np.multiply pixel_array_pos_norm_f64 (Float64.of_Z 255) in
  Ok (np.uint8 invalid pixel_array_pos_norm_f64).

(** The value of [hounsfield_min] after source lines 144-145: line 144 binds
    the caller's bound when it is true, line 145 binds the array's minimum
    whatever line 144 did. *)
Definition hounsfield_min (pixel_array : np.int_array) (min_p : option Z) : result Z :=
  let hounsfield_min := if truthy min_p then min_p else None in
  hounsfield_min <- np.min pixel_array ;;
  Ok hounsfield_min.

(** The value of [hounsfield_max] after source lines 147-148. *)
Definition hounsfield_max (pixel_array : np.int_array) (max_p : option Z) : result Z :=
  let hounsfield_max := if truthy max_p then max_p else None in
  hounsfield_max <- np.max pixel_array ;;
  Ok hounsfield_max.

(** The value of [pixel_array_norm_u8] in [process_dynamic], source lines
    143-162. *)
Definition pixel_array_norm_u8 (pixel_array : np.int_array) (min_p max_p : option Z)
    : result (np.ndarray Z) :=
  hounsfield_min <- hounsfield_min pixel_array min_p ;;
  hounsfield_max <- hounsfield_max pixel_array max_p ;;
  let hounsfield_range := np.wrap (np.dt pixel_array) (hounsfield_max - hounsfield_min) in
  let pixel_array := np.clip_below pixel_array hounsfield_min in
  let pixel_array := np.clip_above pixel_array hounsfield_max in
  let pixel_array_norm :=
    np.int_true_divide (np.subtract pixel_array hounsfield_min) hounsfield_range in
  let pixel_array_norm := np.multiply pixel_array_norm (Float64.of_Z 255) in
  Ok (np.uint8 invalid pixel_array_norm).

(** [pydicom.dcmread] *)
Variable dcmread : pathlib.Path -> result pydicom.Dataset.

(** The loop of [process_static], source lines 67-98, with
    [processed_files] as accumulator. *)
Fixpoint static_loop (files : list pathlib.Path) (output_path : pathlib.Path)
    (output_format : image_format) (plot : bool)
    (processed_files : list (np.ndarray Z)) : M (list (np.ndarray Z)) :=
  match files with
  | [] => ret processed_files
  | file :: rest =>
      dcm_file <~ lift (dcmread file) ;;
      match pydicom.pixel_array dcm_file with
      | None =>
          print "File has no pixel data...skipping" ;;;
          static_loop rest output_path output_format plot processed_files
      | Some pixel_array =>
          u8 <~ lift (pixel_array_pos_norm_u8 pixel_array) ;;
          let processed_files := processed_files ++ [u8] in
          _export u8 file output_path output_format plot ;;;
          static_loop rest output_path output_format plot processed_files
      end
  end.

(** [process_static], source lines 43-100. *)
Definition process_static (this : self) (output_dir : pathlib.Path)
    (output_format : image_format) (plot : bool) : M (list (np.ndarray Z)) :=
  let processed_files := [] in
  let output_path := output_dir in
  present <~ path_exists output_path ;;
  (if negb present
   then print "Provided path does not exist...creating path" ;;; path_mkdir output_path
   else ret tt) ;;;
  static_loop (dcm_files this) output_path output_format plot processed_files.

(** The loop of [process_dynamic], source lines 133-166. *)
Fixpoint dynamic_loop (files : list pathlib.Path) (output_path : pathlib.Path)
    (min_p max_p : option Z) (output_format : image_format) (plot : bool)
    (processed_files : list (np.ndarray Z)) : M (list (np.ndarray Z)) :=
  match files with
  | [] => ret processed_files
  | file :: rest =>
      dcm_file <~ lift (dcmread file) ;;
      match pydicom.pixel_array dcm_file with
      | None =>
          print "File has no pixel data...skipping" ;;;
          dynamic_loop rest output_path min_p max_p output_format plot processed_files
      | Some pixel_array =>
          u8 <~ lift (pixel_array_norm_u8 pixel_array min_p max_p) ;;
          let processed_files := processed_files ++ [u8] in
          _export u8 file output_path output_format plot ;;;
          dynamic_loop rest output_path min_p max_p output_format plot processed_files
      end
  end.

(** [process_dynamic], source lines 103-168. *)
Definition process_dynamic (this : self) (output_dir : pathlib.Path)
    (min_p max_p : option Z) (output_format : image_format) (plot : bool)
    : M (list (np.ndarray Z)) :=
  let processed_files := [] in
  let output_path := output_dir in
  present <~ path_exists output_path ;;
  (if negb present
   then print "Provided path does not exist...creating path" ;;; path_mkdir output_path
   else ret tt) ;;;
  dynamic_loop (dcm_files this) output_path min_p max_p output_format plot processed_files.

End Normalisers.

End DICOM.

(** ** main.py *)

(** [DICOM(path)] in a run: construction reads the file system. *)
Definition construct (path : pathlib.Path) : M DICOM.self :=
  fun w => (DICOM.__init__ (fs w) path, w).

(** [main()], source lines 4-7 of [src/main.py]: the records of
    [DICOM/digest_article] are normalised by [process_dynamic] with no bounds
    and plotted under [data]; what [process_dynamic] returns is dropped. *)
Definition main (invalid : Float64.float -> Z)
    (dcmread : pathlib.Path -> result pydicom.Dataset) : M unit :=
  let file := ["DICOM"%string; "digest_article"%string] in
  dicom <~ construct file ;;
  data <~ DICOM.process_dynamic invalid dcmread dicom ["data"%string] None None png true ;;
  ret tt.

(** * Definitions used by the proofs *)

Local Abbreviation prec := Float64.prec.
Local Abbreviation emax := Float64.emax.

(** The position of the rational [N / D] between [N / D] and its successor,
    as [SpecFloat] records it. *)
Definition loc_of (N D : Z) : location :=
  if N mod D =? 0 then loc_Exact else loc_Inexact (2 * (N mod D) ?= D).

(** The shift record holding the integer part and the position of [N / D]. *)
Definition rec_of (N D : Z) : shr_record := shr_record_of_loc (N / D) (loc_of N D).

(** [N / D] rounded to the nearest integer, ties to even. *)
Definition rne (N D : Z) : Z := round_nearest_even (N / D) (loc_of N D).

(** The float [m2 * 2 ^ e] for a rounded mantissa [2 ^ 52 <= m2 <= 2 ^ 53]. *)
Definition rounded (s : bool) (m2 e : Z) : spec_float :=
  if m2 <? 2 ^ prec
  then (if e <=? emax - prec then S754_finite s (Z.to_pos m2) e else S754_infinity s)
  else (if e + 1 <=? emax - prec
        then S754_finite s (Z.to_pos (2 ^ (prec - 1))) (e + 1)
        else S754_infinity s).

(** What [Float64.of_Z] gives for a non-zero integer of sign [s] and
    magnitude [p]. *)
Definition of_pos_spec (s : bool) (p : positive) : spec_float :=
  let d := Zdigits2 (Zpos p) in
  if d <=? prec
  then S754_finite s (Z.to_pos (Zpos p * 2 ^ (prec - d))) (d - prec)
  else rounded s (rne (Zpos p) (2 ^ (d - prec))) (d - prec).

(** One sample [x] of the static normaliser against the maximum [M], before
    the range check of the conversion. *)
Definition scale (x M : Z) : option Z :=
  Float64.trunc (Float64.mul (Float64.div (Float64.of_Z x) (Float64.of_Z M)) (Float64.of_Z 255)).

(** [scale k 255 = k] for every [k] of 1..255, as a computation. *)
Definition scale_table_ok : bool :=
  forallb (fun n => match scale (Z.of_nat n) 255 with
                    | Some r => r =? Z.of_nat n
                    | None => false
                    end) (seq 1 255).

(** The loop the two methods share, with the normaliser as a parameter: the
    loops of [process_static] and [process_dynamic] are its two instances. *)
Fixpoint batch_loop (dcmread : pathlib.Path -> result pydicom.Dataset)
    (normalise : np.int_array -> result (np.ndarray Z))
    (files : list pathlib.Path) (output_path : pathlib.Path)
    (output_format : image_format) (plot : bool)
    (processed_files : list (np.ndarray Z)) : M (list (np.ndarray Z)) :=
  match files with
  | [] => ret processed_files
  | file :: rest =>
      dcm_file <~ lift (dcmread file) ;;
      match pydicom.pixel_array dcm_file with
      | None =>
          print "File has no pixel data...skipping" ;;;
          batch_loop dcmread normalise rest output_path output_format plot processed_files
      | Some pixel_array =>
          u8 <~ lift (normalise pixel_array) ;;
          let processed_files := processed_files ++ [u8] in
          DICOM._export u8 file output_path output_format plot ;;;
          batch_loop dcmread normalise rest output_path output_format plot processed_files
      end
  end.

(** What both methods do before their loop (source lines 63-65 and
    129-131): the output directory is made when nothing is at its path. *)
Definition make_output_dir (output_dir : pathlib.Path) : M unit :=
  present <~ path_exists output_dir ;;
  if negb present
  then print "Provided path does not exist...creating path" ;;; path_mkdir output_dir
  else ret tt.

(** A method, with the normaliser as a parameter: the output directory, then
    the loop. *)
Definition batch (dcmread : pathlib.Path -> result pydicom.Dataset)
    (normalise : np.int_array -> result (np.ndarray Z))
    (files : list pathlib.Path) (output_dir : pathlib.Path)
    (output_format : image_format) (plot : bool) : M (list (np.ndarray Z)) :=
  make_output_dir output_dir ;;;
  batch_loop dcmread normalise files output_dir output_format plot [].

(** ** Descriptions the statements are written with *)

(** The example array of the specification. *)
Definition example_array : np.int_array :=
  {| np.dt := np.uint16; np.data := [[0; 50]; [100; 200]] |}.

(** An array of bytes, as [np.uint8] returns it. *)
Definition uint8_array (data : np.ndarray Z) : np.int_array :=
  {| np.dt := {| np.signed := false; np.bits := 8 |}; np.data := data |}.

(** A signed array with negative samples. *)
Definition second_array : np.int_array :=
  {| np.dt := np.int16; np.data := [[-5; 10]; [30; 40]] |}.

(** A platform whose conversion stores 0 for every value C leaves undefined
    (x86-64 and AArch64 do so for NaN). *)
Definition invalid_as_zero : Float64.float -> Z := fun _ => 0.

(** The effective window as the specification words it: a bound the caller
    supplies is used, otherwise the array's own extremum. *)
Definition spec_effective_window (pixel_array : np.int_array) (low high : option Z)
    : result (Z * Z) :=
  lo <- match low with Some l => Ok l | None => np.min pixel_array end ;;
  hi <- match high with Some h => Ok h | None => np.max pixel_array end ;;
  Ok (lo, hi).

(** The pixel arrays of the records that have pixel data, in record order. *)
Definition pixel_arrays (dcmread : pathlib.Path -> result pydicom.Dataset)
    (files : list pathlib.Path) : list np.int_array :=
  flat_map (fun file =>
              match dcmread file with
              | Ok dcm_file =>
                  match pydicom.pixel_array dcm_file with
                  | Some pixel_array => [pixel_array]
                  | None => []
                  end
              | Raise _ => []
              end) files.

(** A record that can be read, and whose pixel array, when it has one, is not
    of size zero. *)
Definition readable (dcmread : pathlib.Path -> result pydicom.Dataset)
    (file : pathlib.Path) : Prop :=
  exists dcm_file,
    dcmread file = Ok dcm_file
    /\ match pydicom.pixel_array dcm_file with
       | Some pixel_array => np.ravel (np.data pixel_array) <> []
       | None => True
       end.

(** The records of a set that can be read and have pixel data, in record
    order. *)
Definition with_pixel_data (dcmread : pathlib.Path -> result pydicom.Dataset)
    (files : list pathlib.Path) : list pathlib.Path :=
  filter (fun file =>
            match dcmread file with
            | Ok dcm_file =>
                match pydicom.pixel_array dcm_file with
                | Some _ => true
                | None => false
                end
            | Raise _ => false
            end) files.

(** A name, or a suffix, that holds no dot. *)
Fixpoint dotless (name : string) : bool :=
  match name with
  | EmptyString => true
  | String c name' => negb (Ascii.eqb c "."%char) && dotless name'
  end.

(** The extension [_export] writes for a format (source lines 194 and 198). *)
Definition extension (format : image_format) : string :=
  match format with jpg => "jpg"%string | png => "png"%string end.

(** The subdirectory [_export] saves under, and the path it saves to (source
    lines 193-194 and 197-198). *)
Definition export_subdir (plot : bool) : string :=
  if plot then "plt"%string else "img"%string.

Definition export_path (file output_dir : pathlib.Path) (format : image_format)
    (plot : bool) : pathlib.Path :=
  output_dir ++ [export_subdir plot; (pathlib.stem file ++ "." ++ extension format)%string].

(** The output location can be written to: no regular file stands at the
    output directory, above it, or at the subdirectory the images go to, and
    no directory stands at the path a record of the list is exported to. *)
Definition exportable (fs : pathlib.filesystem) (files : list pathlib.Path)
    (output_dir : pathlib.Path) (format : image_format) (plot : bool) : Prop :=
  (forall q pixels,
      In q (pathlib.prefixes (output_dir ++ [export_subdir plot])) ->
      pathlib.lookup fs q <> Some (pathlib.File pixels))
  /\ (forall file,
         In file files ->
         pathlib.lookup fs (export_path file output_dir format plot) <> Some pathlib.Dir).


(** A directory with three records, and a reader under which the second
    record has no pixel data. *)
Definition example_batch : pathlib.filesystem :=
  [ (["batch"%string], pathlib.Dir);
    (["batch"%string; "r1.dcm"%string], pathlib.File None);
    (["batch"%string; "r2.dcm"%string], pathlib.File None);
    (["batch"%string; "r3.dcm"%string], pathlib.File None) ].

Definition example_records : DICOM.self :=
  {| DICOM.path := ["batch"%string];
     DICOM.dcm_files := [ ["batch"%string; "r1.dcm"%string];
                          ["batch"%string; "r2.dcm"%string];
                          ["batch"%string; "r3.dcm"%string] ] |}.

Definition example_dcmread (file : pathlib.Path) : result pydicom.Dataset :=
  if pathlib.path_eqb file ["batch"%string; "r1.dcm"%string]
  then Ok {| pydicom.pixel_array := Some example_array |}
  else if pathlib.path_eqb file ["batch"%string; "r2.dcm"%string]
       then Ok {| pydicom.pixel_array := None |}
       else Ok {| pydicom.pixel_array :=
                    Some {| np.dt := np.int16; np.data := [[-5; 10]; [30; 40]] |} |}.

(** The state of the three-record example before a run, and a reader under
    which its second record cannot be read. *)
Definition example_world : world := {| fs := example_batch; stdout := [] |}.

Definition broken_dcmread (file : pathlib.Path) : result pydicom.Dataset :=
  if pathlib.path_eqb file ["batch"%string; "r2.dcm"%string]
  then Raise (ReadError "File is missing DICOM File Meta Information header")
  else example_dcmread file.



Definition example_article : pathlib.filesystem :=
  [ (["DICOM"%string], pathlib.Dir);
    (["DICOM"%string; "digest_article"%string], pathlib.Dir);
    (["DICOM"%string; "digest_article"%string; "s1.dcm"%string], pathlib.File None);
    (["DICOM"%string; "digest_article"%string; "s2.dcm"%string], pathlib.File None) ].

Definition uniform_dcmread (file : pathlib.Path) : result pydicom.Dataset :=
  Ok {| pydicom.pixel_array := Some example_array |}.

(** * binary64: rounding, conversion, division, multiplication

    [SpecFloat] computes on mantissas and exponents.  The lemmas below read
    its results as roundings of rationals [N / D], enough to follow
    [x / M * 255.0] for two converted integers. *)

(** [2 ^ a <= 2 ^ b], from [a <= b], added to the context. *)
Ltac pow2_le a b := assert (2 ^ a <= 2 ^ b) by (apply Z.pow_le_mono_r; lia).

(** ** Binary digits *)

Lemma digits2_pos_size p : digits2_pos p = Pos.size p.
Proof. induction p; simpl; congruence. Qed.

Lemma Zdigits2_bounds m : 0 < m -> 2 ^ (Zdigits2 m - 1) <= m < 2 ^ Zdigits2 m.
Proof.
  destruct m as [|p|p]; try lia. intros _. simpl Zdigits2.
  rewrite digits2_pos_size.
  pose proof (Pos.size_gt p) as Hgt. pose proof (Pos.size_le p) as Hle.
  assert (Hgt' : Zpos p < 2 ^ Zpos (Pos.size p)).
  { rewrite <- Pos2Z.inj_pow. lia. }
  assert (Hle' : 2 ^ Zpos (Pos.size p) <= 2 * Zpos p).
  { rewrite <- Pos2Z.inj_pow. lia. }
  split; [|exact Hgt'].
  replace (Zpos (Pos.size p)) with (Z.succ (Zpos (Pos.size p) - 1)) in Hle' by lia.
  rewrite Z.pow_succ_r in Hle' by lia. lia.
Qed.

Lemma Zdigits2_unique m d : 0 < d -> 2 ^ (d - 1) <= m < 2 ^ d -> Zdigits2 m = d.
Proof.
  intros Hd [Hlo Hhi].
  assert (Hm : 0 < m) by (pose proof (Z.pow_pos_nonneg 2 (d - 1)); lia).
  pose proof (Zdigits2_bounds m Hm) as [Hlo' Hhi'].
  assert (Hdm : 0 < Zdigits2 m) by (destruct m; simpl; lia).
  destruct (Z.lt_trichotomy (Zdigits2 m) d) as [Hlt|[Heq|Hgt]]; [exfalso| exact Heq |exfalso].
  - pow2_le (Zdigits2 m) (d - 1). lia.
  - pow2_le d (Zdigits2 m - 1). lia.
Qed.

(** ** Shifting right

    [SpecFloat] rounds by shifting a mantissa right, bit by bit, while a round
    bit and a sticky bit record where the exact value lies between two
    consecutive integers.  Started from the integer part and the position of
    [N / D], [n] shifts end at the integer part and the position of
    [N / (D * 2 ^ n)]. *)

Lemma rem_double N D : 0 < D -> N mod (2 * D) = N mod D + D * ((N / D) mod 2).
Proof. intros HD. rewrite (Z.mul_comm 2 D). apply Z.rem_mul_r; lia. Qed.

Lemma div_double N D : 0 <= N -> 0 < D -> N / (2 * D) = N / D / 2.
Proof. intros HN HD. rewrite (Z.mul_comm 2 D). symmetry. apply Z.div_div; lia. Qed.

(** One shift. *)
Lemma shr_1_rec N D : 0 <= N -> 0 < D -> shr_1 (rec_of N D) = rec_of N (2 * D).
Proof.
  intros HN HD. unfold rec_of, loc_of.
  rewrite (rem_double N D HD), (div_double N D HN HD).
  pose proof (Z.mod_pos_bound N D HD) as Hr.
  pose proof (Z.div_pos N D HN HD) as Hq.
  set (r := N mod D) in *. set (a := N / D) in *.
  destruct a as [|[p|p|]|p]; try lia.
  - (* a = 0 *)
    change (0 mod 2) with 0. change (0 / 2) with 0. rewrite Z.mul_0_r, Z.add_0_r.
    destruct (Z.eqb_spec r 0) as [E|E]; simpl.
    + reflexivity.
    + replace (2 * r ?= 2 * D) with Lt by (symmetry; apply Z.compare_lt_iff; lia).
      destruct (2 * r ?= D); reflexivity.
  - (* a = p~1 *)
    replace (Z.pos p~1 mod 2) with 1
      by (rewrite Pos2Z.inj_xI, Z.add_comm, Z.mul_comm, Z.mod_add; [reflexivity|lia]).
    replace (Z.pos p~1 / 2) with (Z.pos p)
      by (rewrite Pos2Z.inj_xI, Z.add_comm, Z.mul_comm, Z.div_add; [reflexivity|lia]).
    rewrite Z.mul_1_r.
    destruct (Z.eqb_spec r 0) as [E|E]; destruct (Z.eqb_spec (r + D) 0) as [E'|E']; try lia; simpl.
    + rewrite E. replace (2 * (0 + D) ?= 2 * D) with Eq by (symmetry; apply Z.compare_eq_iff; lia).
      reflexivity.
    + replace (2 * (r + D) ?= 2 * D) with Gt by (symmetry; apply Z.compare_gt_iff; lia).
      destruct (2 * r ?= D); reflexivity.
  - (* a = p~0 *)
    replace (Z.pos p~0 mod 2) with 0
      by (rewrite Pos2Z.inj_xO, Z.mul_comm, Z.mod_mul; [reflexivity|lia]).
    replace (Z.pos p~0 / 2) with (Z.pos p)
      by (rewrite Pos2Z.inj_xO, Z.mul_comm, Z.div_mul; [reflexivity|lia]).
    rewrite Z.mul_0_r, Z.add_0_r.
    destruct (Z.eqb_spec r 0) as [E|E]; simpl.
    + reflexivity.
    + replace (2 * r ?= 2 * D) with Lt by (symmetry; apply Z.compare_lt_iff; lia).
      destruct (2 * r ?= D); reflexivity.
  - (* a = 1 *)
    change (1 mod 2) with 1. change (1 / 2) with 0. rewrite Z.mul_1_r.
    destruct (Z.eqb_spec r 0) as [E|E]; destruct (Z.eqb_spec (r + D) 0) as [E'|E']; try lia; simpl.
    + rewrite E. replace (2 * (0 + D) ?= 2 * D) with Eq by (symmetry; apply Z.compare_eq_iff; lia).
      reflexivity.
    + replace (2 * (r + D) ?= 2 * D) with Gt by (symmetry; apply Z.compare_gt_iff; lia).
      destruct (2 * r ?= D); reflexivity.
Qed.

(** [p] shifts. *)
Lemma iter_pos_shr_1_rec p : forall N D, 0 <= N -> 0 < D ->
  iter_pos shr_1 p (rec_of N D) = rec_of N (D * 2 ^ Zpos p).
Proof.
  induction p as [p IH|p IH|]; intros N D HN HD; simpl iter_pos.
  - rewrite shr_1_rec, IH, IH by (try apply Z.mul_pos_pos; try apply Z.pow_pos_nonneg; lia).
    f_equal.
    replace (Z.pos p~1) with (Z.pos p + Z.pos p + 1) by lia.
    rewrite !Z.pow_add_r, Z.pow_1_r by lia. ring.
  - rewrite IH, IH by (try apply Z.mul_pos_pos; try apply Z.pow_pos_nonneg; lia).
    f_equal. 
    replace (Z.pos p~0) with (Z.pos p + Z.pos p) by lia.
    rewrite Z.pow_add_r by lia. ring.
  - rewrite shr_1_rec by lia. f_equal. rewrite Z.pow_1_r. ring.
Qed.

Lemma shr_m_rec N D : shr_m (rec_of N D) = N / D.
Proof. unfold rec_of. destruct (loc_of N D) as [|[]]; reflexivity. Qed.

Lemma loc_rec N D : loc_of_shr_record (rec_of N D) = loc_of N D.
Proof. unfold rec_of. destruct (loc_of N D) as [|[]]; reflexivity. Qed.

Lemma loc_of_1 N : loc_of N 1 = loc_Exact.
Proof. unfold loc_of. rewrite Z.mod_1_r. reflexivity. Qed.

Lemma pow2_pos n : 0 <= n -> 0 < 2 ^ n.
Proof. intros. apply Z.pow_pos_nonneg; lia. Qed.

Lemma shr_fexp_rec N D ex :
  0 <= N -> 0 < D ->
  0 <= Zdigits2 (N / D) - prec ->
  3 - emax - prec <= ex + (Zdigits2 (N / D) - prec) ->
  shr_fexp prec emax (N / D) ex (loc_of N D)
  = (rec_of N (D * 2 ^ (Zdigits2 (N / D) - prec)), ex + (Zdigits2 (N / D) - prec)).
Proof.
  intros HN HD Hn He. unfold shr_fexp, fexp, SpecFloat.emin.
  fold (rec_of N D).
  replace (Z.max (Zdigits2 (N / D) + ex - prec) (3 - emax - prec) - ex)
    with (Zdigits2 (N / D) - prec) by lia.
  destruct (Zdigits2 (N / D) - prec) as [|p|p] eqn:En; try lia.
  - simpl shr. rewrite Z.pow_0_r, Z.mul_1_r, Z.add_0_r. reflexivity.
  - unfold shr. rewrite iter_pos_shr_1_rec by assumption. reflexivity.
Qed.

Lemma div_pow2_digits m n :
  0 <= n -> n < Zdigits2 m -> 0 < m -> Zdigits2 (m / 2 ^ n) = Zdigits2 m - n.
Proof.
  intros Hn Hd Hm. pose proof (Zdigits2_bounds m Hm) as [Hlo Hhi].
  pose proof (pow2_pos n Hn) as Hp.
  apply Zdigits2_unique; [lia|]. split.
  - apply Z.div_le_lower_bound; [lia|].
    rewrite <- Z.pow_add_r by lia. replace (n + (Zdigits2 m - n - 1)) with (Zdigits2 m - 1) by lia.
    exact Hlo.
  - apply Z.div_lt_upper_bound; [lia|].
    rewrite <- Z.pow_add_r by lia. replace (n + (Zdigits2 m - n)) with (Zdigits2 m) by lia.
    exact Hhi.
Qed.

(** ** Rounding in the normal range

    Applied to the integer part and the position of [N / D], an integer part
    of at least 53 digits, [binary_round_aux] returns [N / (D * 2 ^ n)]
    rounded to the nearest integer, ties to even, where [n] is the number of
    digits beyond 53. *)

Lemma rne_bounds N D : N / D <= rne N D <= N / D + 1.
Proof.
  unfold rne, round_nearest_even. destruct (loc_of N D) as [|[]]; try lia.
  destruct (Z.even (N / D)); lia.
Qed.

Lemma binary_round_aux_normal s N D ex :
  0 <= N -> 0 < D ->
  prec <= Zdigits2 (N / D) ->
  3 - emax - prec <= ex + (Zdigits2 (N / D) - prec) ->
  binary_round_aux prec emax s (N / D) ex (loc_of N D)
  = rounded s (rne N (D * 2 ^ (Zdigits2 (N / D) - prec))) (ex + (Zdigits2 (N / D) - prec)).
Proof.
  intros HN HD Hd He.
  set (n := Zdigits2 (N / D) - prec) in *.
  assert (Hn : 0 <= n) by lia.
  assert (Hmx : 0 < N / D).
  { destruct (N / D) eqn:E; [simpl in Hd; unfold prec in Hd; lia| lia |].
    pose proof (Z.div_pos N D HN HD). lia. }
  unfold binary_round_aux.
  rewrite shr_fexp_rec by (fold n; lia). fold n.
  rewrite shr_m_rec, loc_rec. fold (rne N (D * 2 ^ n)).
  pose proof (pow2_pos n Hn) as Hp.
  assert (Hm1 : Zdigits2 (N / (D * 2 ^ n)) = prec).
  { rewrite <- Z.div_div by lia. rewrite div_pow2_digits; [unfold n; lia | exact Hn | | exact Hmx].
    unfold n, prec. lia. }
  assert (Hm1pos : 0 < N / (D * 2 ^ n)).
  { assert (0 <= N / (D * 2 ^ n)) by (apply Z.div_pos; lia).
    destruct (N / (D * 2 ^ n)); simpl in Hm1; unfold prec in Hm1; lia. }
  pose proof (Zdigits2_bounds _ Hm1pos) as Hb. rewrite Hm1 in Hb.
  pose proof (rne_bounds N (D * 2 ^ n)) as Hr.
  set (m2 := rne N (D * 2 ^ n)) in *.
  set (e1 := ex + n) in *.
  replace m2 with (m2 / 1) at 1 by apply Z.div_1_r.
  rewrite <- (loc_of_1 m2).
  unfold rounded.
  destruct (Z.ltb_spec m2 (2 ^ prec)) as [Hlt|Hge].
  - assert (Hd2 : Zdigits2 (m2 / 1) = prec).
    { rewrite Z.div_1_r. apply Zdigits2_unique; unfold prec in *; lia. }
    rewrite shr_fexp_rec by (rewrite ?Hd2; unfold prec, emax in *; lia).
    rewrite Hd2, Z.sub_diag, Z.pow_0_r, Z.mul_1_r, Z.add_0_r, shr_m_rec, Z.div_1_r.
    destruct m2; try lia. reflexivity.
  - assert (Hm2 : m2 = 2 ^ prec) by lia.
    assert (Hd2 : Zdigits2 (m2 / 1) = prec + 1).
    { rewrite Z.div_1_r, Hm2. reflexivity. }
    rewrite shr_fexp_rec by (rewrite ?Hd2; unfold prec, emax in *; lia).
    rewrite Hd2. replace (prec + 1 - prec) with 1 by lia.
    rewrite shr_m_rec, Hm2. reflexivity.
Qed.

(** ** Conversion of integers *)

Lemma rne_1 N : rne N 1 = N.
Proof. unfold rne. rewrite loc_of_1, Z.div_1_r. reflexivity. Qed.

Lemma iter_xO p k : Zpos (Pos.iter xO p k) = Zpos p * 2 ^ Zpos k.
Proof.
  change (Pos.iter xO p k) with (shift_pos k p).
  rewrite shift_pos_correct. change (Z.pow_pos 2 k) with (2 ^ Z.pos k). apply Z.mul_comm.
Qed.

Lemma Zdigits2_mul_pow2 m k : 0 < m -> 0 <= k -> Zdigits2 (m * 2 ^ k) = Zdigits2 m + k.
Proof.
  intros Hm Hk. pose proof (Zdigits2_bounds m Hm) as [Hlo Hhi].
  assert (Hd : 0 < Zdigits2 m) by (destruct m; simpl; lia).
  pose proof (pow2_pos k Hk).
  apply Zdigits2_unique; [lia|].
  replace (Zdigits2 m + k - 1) with (Zdigits2 m - 1 + k) by lia.
  rewrite !Z.pow_add_r by lia. split; nia.
Qed.

(** A mantissa of fewer than 53 digits is shifted left, one of more is rounded. *)
Lemma binary_round_pos s p : binary_round prec emax s p 0 = of_pos_spec s p.
Proof.
  unfold binary_round, of_pos_spec, shl_align, fexp, SpecFloat.emin.
  set (d := Zdigits2 (Zpos p)). change (Z.pos (digits2_pos p)) with d.
  assert (Hd : 0 < d) by (unfold d; simpl; lia).
  replace (Z.max (d + 0 - prec) (3 - emax - prec) - 0) with (d - prec) by (unfold prec, emax; lia).
  destruct (Z.leb_spec d prec) as [Hle|Hgt].
  - destruct (d - prec) as [|k|k] eqn:Ek; try lia.
    + (* already 53 digits *)
      replace (Z.pos p) with (Z.pos p / 1) at 1 by apply Z.div_1_r.
      rewrite <- (loc_of_1 (Z.pos p)).
      rewrite binary_round_aux_normal; rewrite ?Z.div_1_r; fold d;
        try (unfold prec, emax in *; lia).
      replace (d - prec) with 0 by lia.
      rewrite Z.pow_0_r, Z.mul_1_r, rne_1, Z.add_0_r. unfold rounded.
      pose proof (Zdigits2_bounds (Z.pos p) eq_refl) as Hb. fold d in Hb.
      replace d with prec in Hb by lia.
      replace (prec - d) with 0 by lia. rewrite Z.pow_0_r, Z.mul_1_r.
      destruct (Z.ltb_spec (Z.pos p) (2 ^ prec)); [|lia].
      replace (Z.max (d + 0 - prec) (3 - emax - prec)) with 0 by (unfold prec, emax in *; lia).
      reflexivity.
    + (* shift left by k = prec - d *)
      assert (Hk : Zpos k = prec - d) by lia.
      assert (Hdig : Zdigits2 (Z.pos (Pos.iter xO p k)) = prec).
      { rewrite iter_xO, Zdigits2_mul_pow2 by lia. fold d. lia. }
      replace (Z.pos (Pos.iter xO p k)) with (Z.pos (Pos.iter xO p k) / 1) at 1 by apply Z.div_1_r.
      rewrite <- (loc_of_1 (Z.pos (Pos.iter xO p k))).
      rewrite binary_round_aux_normal; rewrite ?Z.div_1_r, ?Hdig; try (unfold prec, emax in *; lia).
      rewrite Z.sub_diag, Z.pow_0_r, Z.mul_1_r, rne_1, Z.add_0_r. unfold rounded.
      pose proof (Zdigits2_bounds (Z.pos (Pos.iter xO p k)) eq_refl) as Hb. rewrite Hdig in Hb.
      destruct (Z.ltb_spec (Z.pos (Pos.iter xO p k)) (2 ^ prec)); [|lia].
      replace (Z.max (d + 0 - prec) (3 - emax - prec)) with (d - prec)
        by (unfold prec, emax in *; lia).
      rewrite Ek. 
      destruct (Z.leb_spec (Z.neg k) (emax - prec)); [|unfold prec, emax in *; lia].
      rewrite iter_xO, Hk. reflexivity.
  - destruct (d - prec) as [|k|k] eqn:Ek; try lia.
    replace (Z.pos p) with (Z.pos p / 1) at 1 by apply Z.div_1_r.
    rewrite <- (loc_of_1 (Z.pos p)).
    rewrite binary_round_aux_normal; rewrite ?Z.div_1_r; fold d; try (unfold prec, emax in *; lia).
    rewrite Z.mul_1_l, Z.add_0_l, Ek. reflexivity.
Qed.

Lemma of_Z_pos p : Float64.of_Z (Zpos p) = of_pos_spec false p.
Proof. apply binary_round_pos. Qed.
Lemma of_Z_neg p : Float64.of_Z (Zneg p) = of_pos_spec true p.
Proof. apply binary_round_pos. Qed.

Lemma of_Z_small x :
  0 < x < 2 ^ prec ->
  Float64.of_Z x = S754_finite false (Z.to_pos (x * 2 ^ (prec - Zdigits2 x))) (Zdigits2 x - prec).
Proof.
  intros [Hx Hlt]. destruct x as [|p|p]; try lia.
  rewrite of_Z_pos. unfold of_pos_spec.
  destruct (Z.leb_spec (Zdigits2 (Z.pos p)) prec) as [Hle|Hgt]; [reflexivity|].
  pose proof (Zdigits2_bounds (Z.pos p) eq_refl) as [Hlo _].
  pow2_le prec (Zdigits2 (Z.pos p) - 1). lia.
Qed.

(** ** Rounding to nearest: scaling, error, exact cases *)

Lemma new_location_loc N D : 0 < D -> new_location D (N mod D) = loc_of N D.
Proof.
  intros HD. pose proof (Z.mod_pos_bound N D HD) as Hr.
  unfold new_location, new_location_even, new_location_odd, loc_of.
  set (r := N mod D) in *.
  destruct (Z.even D) eqn:Ev; [reflexivity|].
  destruct (Z.eqb_spec r 0) as [E|E]; [reflexivity|]. f_equal.
  assert (Hodd : Z.odd D = true) by (rewrite <- Z.negb_even, Ev; reflexivity).
  apply Z.odd_spec in Hodd. destruct Hodd as [j Hj].
  destruct (Z.compare_spec (2 * r + 1) D), (Z.compare_spec (2 * r) D); try reflexivity; lia.
Qed.

Lemma loc_of_scale c N D : 0 < c -> 0 < D -> loc_of (c * N) (c * D) = loc_of N D.
Proof.
  intros Hc HD. unfold loc_of.
  rewrite Z.mul_mod_distr_l by lia.
  pose proof (Z.mod_pos_bound N D HD) as Hr. set (r := N mod D) in *.
  destruct (Z.eqb_spec (c * r) 0) as [E|E], (Z.eqb_spec r 0) as [E'|E']; try nia; try reflexivity.
  f_equal.
  destruct (Z.compare_spec (2 * (c * r)) (c * D)), (Z.compare_spec (2 * r) D); try reflexivity; nia.
Qed.

Lemma rne_scale c N D : 0 < c -> 0 < D -> rne (c * N) (c * D) = rne N D.
Proof.
  intros Hc HD. unfold rne. rewrite loc_of_scale by assumption.
  rewrite Z.div_mul_cancel_l by lia. reflexivity.
Qed.

(** Rounding depends only on the ratio. *)
Lemma rne_ratio N D N' D' : 0 < D -> 0 < D' -> N * D' = N' * D -> rne N D = rne N' D'.
Proof.
  intros HD HD' H.
  rewrite <- (rne_scale D' N D) by assumption.
  rewrite <- (rne_scale D N' D') by assumption.
  f_equal; lia.
Qed.

Lemma div_ratio N D N' D' : 0 < D -> 0 < D' -> N * D' = N' * D -> N / D = N' / D'.
Proof.
  intros HD HD' H.
  rewrite <- (Z.div_mul_cancel_l N D D') by lia.
  rewrite <- (Z.div_mul_cancel_l N' D' D) by lia.
  f_equal; lia.
Qed.

Lemma rne_error N D : 0 < D -> 2 * Z.abs (rne N D * D - N) <= D.
Proof.
  intros HD. unfold rne, loc_of, round_nearest_even.
  pose proof (Z.div_mod N D ltac:(lia)) as Hdm.
  pose proof (Z.mod_pos_bound N D HD) as Hr.
  set (r := N mod D) in *. set (q := N / D) in *.
  destruct (Z.eqb_spec r 0) as [E|E]; [lia|].
  destruct (Z.compare_spec (2 * r) D).
  - destruct (Z.even q); lia.
  - lia.
  - lia.
Qed.

Lemma rne_exact k D : 0 < D -> rne (k * D) D = k.
Proof.
  intros HD. unfold rne, loc_of. rewrite Z.mod_mul, Z.div_mul by lia. reflexivity.
Qed.

(** ** Division of two converted integers

    The quotient of [x] by [M] is [x * 2 ^ E / M] rounded to the nearest
    integer, at the exponent [- E], for the one [E] that puts
    [x * 2 ^ E / M] in [2 ^ 52, 2 ^ 53). *)

Lemma SFdiv_core_normal mx ex my ey :
  Zdigits2 (Zpos mx) = prec -> Zdigits2 (Zpos my) = prec ->
  3 - emax - prec <= ex - ey - prec ->
  SFdiv_core_binary prec emax (Zpos mx) ex (Zpos my) ey
  = (Zpos mx * 2 ^ prec / Zpos my, ex - ey - prec, loc_of (Zpos mx * 2 ^ prec) (Zpos my)).
Proof.
  intros Hx Hy He. unfold SFdiv_core_binary. rewrite Hx, Hy.
  unfold fexp, SpecFloat.emin.
  replace (Z.min (Z.max (prec + ex - (prec + ey) - prec) (3 - emax - prec)) (ex - ey))
    with (ex - ey - prec) by (unfold prec, emax in *; lia).
  replace (ex - ey - (ex - ey - prec)) with prec by lia.
  change (match prec with Z.pos _ => Z.shiftl (Z.pos mx) prec | 0 => Z.pos mx | Z.neg _ => 0 end)
    with (Z.shiftl (Z.pos mx) prec).
  rewrite Z.shiftl_mul_pow2 by (unfold prec; lia).
  unfold Z.div, Z.modulo.
  destruct (Z.div_eucl (Z.pos mx * 2 ^ prec) (Z.pos my)) as [q r] eqn:E.
  replace r with ((Z.pos mx * 2 ^ prec) mod Z.pos my) by (unfold Z.modulo; rewrite E; reflexivity).
  rewrite new_location_loc by lia. reflexivity.
Qed.

(** Only one exponent puts [x * 2 ^ E / M] in [2 ^ 52, 2 ^ 53). *)
Lemma binade_unique x M E E' :
  0 < x -> 0 < M -> 0 <= E -> 0 <= E' ->
  2 ^ (prec - 1) <= x * 2 ^ E / M < 2 ^ prec ->
  2 ^ (prec - 1) <= x * 2 ^ E' / M < 2 ^ prec ->
  E = E'.
Proof.
  assert (Haux : forall E E', 0 <= E -> E < E' -> 0 < x -> 0 < M ->
            2 ^ (prec - 1) <= x * 2 ^ E / M -> x * 2 ^ E' / M < 2 ^ prec -> False).
  { clear E E'. intros E E' HE Hlt Hx HM Hlo Hhi.
    replace E' with (E + 1 + (E' - E - 1)) in Hhi by lia.
    rewrite !Z.pow_add_r, Z.pow_1_r in Hhi by lia.
    pose proof (pow2_pos E HE) as HpE. pose proof (pow2_pos (E' - E - 1) ltac:(lia)) as Hp'.
    assert (H1 : 2 ^ (prec - 1) * M <= x * 2 ^ E).
    { pose proof (Z.mul_div_le (x * 2 ^ E) M HM).
      apply (Z.mul_le_mono_nonneg_l _ _ M) in Hlo; lia. }
    assert (H2 : 2 ^ prec * M <= x * (2 ^ E * 2 * 2 ^ (E' - E - 1))).
    { change (2 ^ prec) with (2 * 2 ^ (prec - 1)). nia. }
    assert (2 ^ prec <= x * (2 ^ E * 2 * 2 ^ (E' - E - 1)) / M).
    { apply Z.div_le_lower_bound; lia. }
    lia. }
  intros Hx HM HE HE' [Hlo Hhi] [Hlo' Hhi'].
  destruct (Z.lt_trichotomy E E') as [Hlt|[Heq|Hgt]]; [exfalso|exact Heq|exfalso]; eauto.
Qed.

Lemma to_pos_digits m : 0 < m -> Z.pos (Z.to_pos m) = m.
Proof. intros. apply Z2Pos.id. assumption. Qed.

(** Quotient of two converted integers. *)
Lemma fdiv_of_Z_binade x M :
  0 < x < 2 ^ prec -> 0 < M < 2 ^ prec ->
  exists E, 0 <= E /\ 2 ^ (prec - 1) <= x * 2 ^ E / M < 2 ^ prec
    /\ Float64.div (Float64.of_Z x) (Float64.of_Z M) = rounded false (rne (x * 2 ^ E) M) (- E).
Proof.
  intros Hx HM.
  rewrite (of_Z_small x Hx), (of_Z_small M HM).
  pose proof (Zdigits2_bounds x ltac:(lia)) as Hbx.
  pose proof (Zdigits2_bounds M ltac:(lia)) as HbM.
  set (dx := Zdigits2 x) in *. set (dM := Zdigits2 M) in *.
  assert (Hdx : 0 < dx <= prec).
  { split; [unfold dx; destruct x; simpl; lia|].
    destruct (Z.le_gt_cases dx prec); [assumption|].
    pow2_le prec (dx - 1). lia. }
  assert (HdM : 0 < dM <= prec).
  { split; [unfold dM; destruct M; simpl; lia|].
    destruct (Z.le_gt_cases dM prec); [assumption|].
    pow2_le prec (dM - 1). lia. }
  pose proof (pow2_pos (prec - dx) ltac:(lia)) as Hpx.
  pose proof (pow2_pos (prec - dM) ltac:(lia)) as HpM.
  set (mx := x * 2 ^ (prec - dx)) in *. set (my := M * 2 ^ (prec - dM)) in *.
  assert (Hmx : 0 < mx) by (unfold mx; nia).
  assert (Hmy : 0 < my) by (unfold my; nia).
  assert (Hdmx : Zdigits2 mx = prec).
  { unfold mx. rewrite Zdigits2_mul_pow2 by lia. fold dx. lia. }
  assert (Hdmy : Zdigits2 my = prec).
  { unfold my. rewrite Zdigits2_mul_pow2 by lia. fold dM. lia. }
  pose proof (Zdigits2_bounds mx Hmx) as Hbmx. rewrite Hdmx in Hbmx.
  pose proof (Zdigits2_bounds my Hmy) as Hbmy. rewrite Hdmy in Hbmy.
  unfold Float64.div, SFdiv.
  rewrite SFdiv_core_normal; rewrite ?to_pos_digits by assumption; try assumption.
  2: { unfold prec, emax in *; lia. }
  simpl xorb.
  assert (Hq : 2 ^ (prec - 1) <= mx * 2 ^ prec / my < 2 ^ (prec + 1)).
  { split.
    - apply Z.div_le_lower_bound; [lia|]. nia.
    - apply Z.div_lt_upper_bound; [lia|]. 
      change (2 ^ (prec + 1)) with (2 ^ prec * 2). change (2 ^ (prec - 1)) with (2 ^ 52) in *.
      change (2 ^ prec) with (2 ^ 52 * 2) in *. nia. }
  assert (Hdq : prec <= Zdigits2 (mx * 2 ^ prec / my) <= prec + 1).
  { assert (0 < mx * 2 ^ prec / my) by (change (2 ^ (prec - 1)) with (2 ^ 52) in Hq; lia).
    pose proof (Zdigits2_bounds _ H) as Hb.
    set (dq := Zdigits2 (mx * 2 ^ prec / my)) in *.
    split.
    - destruct (Z.le_gt_cases prec dq); [assumption|].
      pow2_le dq (prec - 1). lia.
    - destruct (Z.le_gt_cases dq (prec + 1)); [assumption|].
      pow2_le (prec + 1) (dq - 1). lia. }
  rewrite binary_round_aux_normal
    by first [ lia | apply Z.mul_nonneg_nonneg; [lia| apply Z.pow_nonneg; lia]
             | unfold prec, emax in *; lia ].
  set (n := Zdigits2 (mx * 2 ^ prec / my) - prec) in *.
  assert (Hn : 0 <= n <= 1) by lia.
  pose proof (pow2_pos n ltac:(lia)) as Hpn.
  (* the exponent chosen by the division *)
  set (Ea := dM - dx + prec - n).
  assert (HEa : 0 <= Ea) by (unfold Ea; lia).
  assert (Hscale : mx * 2 ^ prec * M = x * 2 ^ Ea * (my * 2 ^ n)).
  { unfold mx, my, Ea.
    replace (x * 2 ^ (prec - dx) * 2 ^ prec * M)
      with (x * M * (2 ^ (prec - dx) * 2 ^ prec)) by ring.
    replace (x * 2 ^ (dM - dx + prec - n) * (M * 2 ^ (prec - dM) * 2 ^ n))
      with (x * M * (2 ^ (dM - dx + prec - n) * 2 ^ (prec - dM) * 2 ^ n)) by ring.
    f_equal. rewrite <- !Z.pow_add_r by lia. f_equal. lia. }
  assert (Hfloor : mx * 2 ^ prec / (my * 2 ^ n) = x * 2 ^ Ea / M).
  { apply div_ratio; [nia | lia | exact Hscale]. }
  assert (Hd53 : Zdigits2 (mx * 2 ^ prec / (my * 2 ^ n)) = prec).
  { rewrite <- Z.div_div by lia. rewrite div_pow2_digits; unfold n; lia. }
  exists Ea. split; [exact HEa|]. split.
  - rewrite <- Hfloor.
    assert (0 < mx * 2 ^ prec / (my * 2 ^ n)).
    { destruct (mx * 2 ^ prec / (my * 2 ^ n)) eqn:Eq; simpl in Hd53; unfold prec in Hd53; try lia.
      pose proof (Z.div_pos (mx * 2 ^ prec) (my * 2 ^ n) ltac:(nia) ltac:(nia)). lia. }
    pose proof (Zdigits2_bounds _ H) as Hb. rewrite Hd53 in Hb. exact Hb.
  - f_equal.
    + apply rne_ratio; try nia.
    + unfold Ea. lia.
Qed.

(** The same, for any exponent [E] known to fit. *)
Lemma fdiv_of_Z x M E :
  0 < x < 2 ^ prec -> 0 < M < 2 ^ prec -> 0 <= E ->
  2 ^ (prec - 1) <= x * 2 ^ E / M < 2 ^ prec ->
  Float64.div (Float64.of_Z x) (Float64.of_Z M) = rounded false (rne (x * 2 ^ E) M) (- E).
Proof.
  intros Hx HM HE HEb.
  destruct (fdiv_of_Z_binade x M Hx HM) as (E' & HE' & Hb' & Heq).
  rewrite (binade_unique x M E E'); try assumption; lia.
Qed.

(** The quotient depends only on the ratio of the operands. *)
Lemma fdiv_ratio x M x' M' :
  0 < x < 2 ^ prec -> 0 < M < 2 ^ prec -> 0 < x' < 2 ^ prec -> 0 < M' < 2 ^ prec ->
  x * M' = x' * M ->
  Float64.div (Float64.of_Z x) (Float64.of_Z M) = Float64.div (Float64.of_Z x') (Float64.of_Z M').
Proof.
  intros Hx HM Hx' HM' Hr.
  destruct (fdiv_of_Z_binade x M Hx HM) as (E & HE & Hb & Heq).
  pose proof (pow2_pos E HE) as Hp.
  assert (Hr' : x * 2 ^ E * M' = x' * 2 ^ E * M) by nia.
  rewrite Heq, (fdiv_of_Z x' M' E); try assumption.
  - f_equal. apply rne_ratio; lia.
  - rewrite <- (div_ratio (x * 2 ^ E) M (x' * 2 ^ E) M') by lia. exact Hb.
Qed.

(** ** Multiplication by 255.0 *)

Lemma of_Z_255 : Float64.of_Z 255 = S754_finite false (Z.to_pos (255 * 2 ^ 45)) (-45).
Proof. reflexivity. Qed.

(** A 53-digit mantissa times 255 has 60 or 61 digits. *)
Lemma digits_255_mantissa m :
  2 ^ (prec - 1) <= m < 2 ^ prec -> 60 <= Zdigits2 (255 * m) <= 61.
Proof.
  intros Hm.
  change (2 ^ (prec - 1)) with 4503599627370496 in Hm.
  change (2 ^ prec) with 9007199254740992 in Hm.
  pose proof (Zdigits2_bounds (255 * m) ltac:(lia)) as Hb.
  set (d := Zdigits2 (255 * m)) in *.
  split.
  - destruct (Z.le_gt_cases 60 d); [assumption|].
    pow2_le d 59. change (2 ^ 59) with 576460752303423488 in *. lia.
  - destruct (Z.le_gt_cases d 61); [assumption|].
    pow2_le 61 (d - 1). change (2 ^ 61) with 2305843009213693952 in *. lia.
Qed.

(** The product is [255 * mq] rounded to 53 digits. *)
Lemma fmul_255 mq eq :
  2 ^ (prec - 1) <= Zpos mq < 2 ^ prec -> -1000 <= eq <= 900 ->
  Float64.mul (S754_finite false mq eq) (Float64.of_Z 255)
  = rounded false (rne (255 * Zpos mq) (2 ^ (Zdigits2 (255 * Zpos mq) - prec)))
                  (eq + (Zdigits2 (255 * Zpos mq) - prec)).
Proof.
  intros Hm He. rewrite of_Z_255. unfold Float64.mul, SFmul. simpl xorb.
  rewrite Pos2Z.inj_mul, to_pos_digits by reflexivity.
  set (m := Z.pos mq) in *.
  pose proof (digits_255_mantissa m Hm) as Hd.
  replace (m * (255 * 2 ^ 45)) with (255 * m * 2 ^ 45 / 1) by (rewrite Z.div_1_r; ring).
  rewrite <- (loc_of_1 (255 * m * 2 ^ 45)).
  assert (Hdig : Zdigits2 (255 * m * 2 ^ 45 / 1) = Zdigits2 (255 * m) + 45).
  { rewrite Z.div_1_r. apply Zdigits2_mul_pow2; unfold m; lia. }
  rewrite binary_round_aux_normal; rewrite ?Hdig;
    try first [ lia | unfold prec, emax in *; lia | unfold m; lia ].
  set (j := Zdigits2 (255 * m) - prec).
  assert (Hj : 0 <= j) by (unfold j, prec; lia).
  pose proof (pow2_pos j Hj).
  f_equal.
  - replace (Zdigits2 (255 * m) + 45 - prec) with (j + 45) by (unfold j; lia).
    rewrite Z.pow_add_r by lia. 
    replace (255 * m * 2 ^ 45) with (2 ^ 45 * (255 * m)) by ring.
    replace (1 * (2 ^ j * 2 ^ 45)) with (2 ^ 45 * 2 ^ j) by ring.
    apply rne_scale; [reflexivity | assumption].
  - unfold j. lia.
Qed.

(** Normalised mantissa and exponent of a rounded value. *)
Lemma rounded_finite s m e :
  2 ^ (prec - 1) <= m <= 2 ^ prec -> e + 1 <= emax - prec ->
  exists mq eq, rounded s m e = S754_finite s mq eq
    /\ 2 ^ (prec - 1) <= Zpos mq < 2 ^ prec
    /\ e <= eq <= e + 1 /\ Zpos mq * 2 ^ (eq - e) = m.
Proof.
  intros Hm He. unfold rounded.
  change (2 ^ (prec - 1)) with 4503599627370496 in *.
  change (2 ^ prec) with 9007199254740992 in *.
  destruct (Z.ltb_spec m 9007199254740992) as [Hlt|Hge].
  - destruct (Z.leb_spec e (emax - prec)); [|lia].
    exists (Z.to_pos m), e. rewrite to_pos_digits by lia.
    rewrite Z.sub_diag, Z.pow_0_r. repeat split; lia.
  - destruct (Z.leb_spec (e + 1) (emax - prec)); [|lia].
    exists (Z.to_pos 4503599627370496), (e + 1).
    replace (e + 1 - e) with 1 by lia. rewrite Z.pow_1_r.
    repeat split; try lia; try reflexivity.
Qed.

(** ** One sample: [x / M * 255.0], truncated

    Write [k] for the integer part of [255 * x / M].  When [255 * x / M] is
    not an integer it lies at least [1 / M] away from [k] and from [k + 1],
    more than the two roundings can add up to as long as [M < 2 ^ 43]
    ([floor_window]).  When it is the integer [k], the quotient [x / M] is
    the quotient [k / 255] ([fdiv_ratio]), and the 255 products
    [k / 255 * 255.0] are computed ([scale_table]): each is [k]. *)

Lemma floor_window x M k m2 m3 T G W :
  0 < M -> 384 * M <= T -> 0 < G <= 512 -> 0 < W -> W * G = T ->
  k * M < 255 * x < (k + 1) * M ->
  2 * Z.abs (m2 * M - x * T) <= M ->
  2 * Z.abs (m3 * G - 255 * m2) <= G ->
  k * W <= m3 < (k + 1) * W.
Proof.
  intros HM HT HG HW HWG Hk H2 H3.
  assert (Hlo2 : x * T * 2 - M <= m2 * M * 2 <= x * T * 2 + M) by lia.
  assert (Hlo3 : 255 * m2 * 2 - G <= m3 * G * 2 <= 255 * m2 * 2 + G) by lia.
  (* scale the second estimate by M *)
  assert (H3M : 255 * (m2 * M * 2) - G * M <= m3 * G * M * 2 <= 255 * (m2 * M * 2) + G * M) by nia.
  assert (HkT : (k * M + 1) * T <= 255 * x * T <= ((k + 1) * M - 1) * T) by nia.
  assert (HGM : 0 < G * M <= 512 * M) by nia.
  split.
  - destruct (Z.le_gt_cases (k * W) m3) as [|Hc]; [assumption|exfalso].
    assert (m3 * (G * M) <= (k * W - 1) * (G * M)) by (apply Z.mul_le_mono_nonneg_r; lia).
    assert (k * W * (G * M) = k * M * T) by (rewrite <- HWG; ring).
    nia.
  - destruct (Z.lt_ge_cases m3 ((k + 1) * W)) as [|Hc]; [assumption|exfalso].
    assert ((k + 1) * W * (G * M) <= m3 * (G * M)) by (apply Z.mul_le_mono_nonneg_r; lia).
    assert ((k + 1) * W * (G * M) = (k + 1) * M * T) by (rewrite <- HWG; ring).
    nia.
Qed.

(** The 255 exact cases. *)
Lemma scale_table k : 1 <= k <= 255 -> scale k 255 = Some k.
Proof.
  intros Hk.
  assert (Htab : scale_table_ok = true) by (vm_compute; reflexivity).
  unfold scale_table_ok in Htab. rewrite forallb_forall in Htab.
  specialize (Htab (Z.to_nat k)).
  rewrite Z2Nat.id in Htab by lia.
  assert (Hin : In (Z.to_nat k) (seq 1 255)) by (apply in_seq; lia).
  specialize (Htab Hin).
  destruct (scale k 255) as [r|]; [|discriminate].
  apply Z.eqb_eq in Htab. congruence.
Qed.

Lemma pow2_le_inv a b : 0 <= a -> 0 <= b -> 2 ^ a <= 2 ^ b -> a <= b.
Proof.
  intros Ha Hb H. destruct (Z.le_gt_cases a b); [assumption|].
  assert (2 ^ b < 2 ^ a) by (apply Z.pow_lt_mono_r; lia). lia.
Qed.

Lemma pow2_lt_inv a b : 0 <= a -> 0 <= b -> 2 ^ a < 2 ^ b -> a < b.
Proof.
  intros Ha Hb H. destruct (Z.lt_ge_cases a b); [assumption|].
  pow2_le b a. lia.
Qed.

(** The sample is the integer part of [255 * x / M]. *)
Theorem scale_floor x M :
  0 < x <= M -> M < 2 ^ 43 -> scale x M = Some (255 * x / M).
Proof.
  intros Hx HM.
  assert (H43 : 2 ^ 43 < 2 ^ prec) by reflexivity.
  pose proof (Z.div_mod (255 * x) M ltac:(lia)) as Hdm.
  pose proof (Z.mod_pos_bound (255 * x) M ltac:(lia)) as Hr.
  set (k := 255 * x / M) in *.
  assert (Hk : 0 <= k <= 255).
  { split; [apply Z.div_pos; lia|]. apply Z.div_le_upper_bound; lia. }
  destruct (Z.eq_dec ((255 * x) mod M) 0) as [Hz|Hnz].
  - (* 255*x/M is an integer: reduce to the table *)
    assert (Hk1 : 1 <= k) by nia.
    unfold scale. rewrite (fdiv_ratio x M k 255) by (unfold prec; lia).
    apply scale_table. lia.
  - (* otherwise the two rounding errors are too small to cross an integer *)
    destruct (fdiv_of_Z_binade x M ltac:(lia) ltac:(lia)) as (E & HE & HEb & Hq).
    pose proof (pow2_pos E HE) as HT. set (T := 2 ^ E) in *.
    assert (HTlo : 2 ^ (prec - 1) <= T).
    { destruct HEb as [Hlo _].
      pose proof (Z.mul_div_le (x * T) M ltac:(lia)).
      assert (2 ^ (prec - 1) * M <= x * T) by nia.
      change (2 ^ (prec - 1)) with 4503599627370496 in *. nia. }
    assert (HThi : T < 2 ^ 96).
    { destruct HEb as [_ Hhi].
      assert (x * T < 2 ^ prec * M).
      { destruct (Z.lt_ge_cases (x * T) (2 ^ prec * M)); [assumption|].
        assert (2 ^ prec <= x * T / M)
          by (apply Z.div_le_lower_bound; [lia|rewrite Z.mul_comm; assumption]).
        lia. }
      change (2 ^ prec) with (2 ^ 53) in *. change (2 ^ 96) with (2 ^ 53 * 2 ^ 43). nia. }
    assert (HElo : prec - 1 <= E) by (apply pow2_le_inv; [unfold prec; lia | lia | exact HTlo]).
    assert (HEhi : E < 96) by (apply pow2_lt_inv; [lia | lia | exact HThi]).
    pose proof (rne_bounds (x * T) M) as Hm2.
    pose proof (rne_error (x * T) M ltac:(lia)) as Herr2.
    set (m2 := rne (x * T) M) in *.
    destruct (rounded_finite false m2 (- E)) as (mq & eq & Hqf & Hmq & Heq & Hval);
      [lia | unfold prec, emax in *; lia |].
    unfold scale. rewrite Hq, Hqf.
    rewrite fmul_255 by (unfold prec in *; lia).
    set (j := Zdigits2 (255 * Z.pos mq) - prec).
    assert (Hj : 7 <= j <= 8).
    { pose proof (digits_255_mantissa (Z.pos mq) Hmq). unfold j, prec. lia. }
    pose proof (pow2_pos j ltac:(lia)) as Hpj.
    pose proof (rne_bounds (255 * Z.pos mq) (2 ^ j)) as Hm3.
    pose proof (rne_error (255 * Z.pos mq) (2 ^ j) Hpj) as Herr3.
    assert (Hfl3 : 2 ^ (prec - 1) <= 255 * Z.pos mq / 2 ^ j < 2 ^ prec).
    { assert (Hd : Zdigits2 (255 * Z.pos mq / 2 ^ j) = prec).
      { rewrite div_pow2_digits; unfold j, prec in *; lia. }
      assert (0 < 255 * Z.pos mq / 2 ^ j).
      { pose proof (Z.div_pos (255 * Z.pos mq) (2 ^ j) ltac:(lia) Hpj).
        destruct (255 * Z.pos mq / 2 ^ j); simpl in Hd; unfold prec in Hd; lia. }
      pose proof (Zdigits2_bounds _ H) as Hb. rewrite Hd in Hb. exact Hb. }
    set (m3 := rne (255 * Z.pos mq) (2 ^ j)) in *.
    destruct (rounded_finite false m3 (eq + j)) as (mp & ep & Hpf & Hmp & Hep & Hvalp);
      [lia | unfold prec, emax in *; lia |].
    rewrite Hpf. unfold Float64.trunc, cond_Zopp. f_equal.
    (* the window of the truncation *)
    set (F := - (eq + j)).
    assert (HF : 0 < F) by (unfold F, prec in *; lia).
    pose proof (pow2_pos F ltac:(lia)) as HW.
    pose proof (pow2_pos (eq + E) ltac:(lia)) as Hc.
    assert (HWG : 2 ^ F * (2 ^ j * 2 ^ (eq + E)) = T).
    { unfold T. rewrite <- !Z.pow_add_r by lia. f_equal. unfold F. lia. }
    assert (HG : 0 < 2 ^ j * 2 ^ (eq + E) <= 512).
    { pow2_le j 8.
      pow2_le (eq + E) 1.
      change (2 ^ 8) with 256 in *. change (2 ^ 1) with 2 in *.
      clear - H H0 Hpj Hc. nia. }
    assert (H384 : 384 * M <= T).
    { change (2 ^ (prec - 1)) with 4503599627370496 in HTlo.
      change (2 ^ 43) with 8796093022208 in HM. clear - HTlo HM. lia. }
    assert (Hkk : k * M < 255 * x < (k + 1) * M) by (clear - Hdm Hr Hnz; lia).
    assert (Herr : 2 * Z.abs (m3 * (2 ^ j * 2 ^ (eq + E)) - 255 * m2) <= 2 ^ j * 2 ^ (eq + E)).
    { replace (eq - - E) with (eq + E) in Hval by lia. rewrite <- Hval.
      replace (m3 * (2 ^ j * 2 ^ (eq + E)) - 255 * (Z.pos mq * 2 ^ (eq + E)))
        with (2 ^ (eq + E) * (m3 * 2 ^ j - 255 * Z.pos mq)) by ring.
      rewrite Z.abs_mul, (Z.abs_eq (2 ^ (eq + E))) by lia.
      clear - Herr3 Hc. nia. }
    assert (Hwin : k * 2 ^ F <= m3 < (k + 1) * 2 ^ F).
    { apply (floor_window x M k m2 m3 T (2 ^ j * 2 ^ (eq + E))); try assumption.
      clear - Hx. lia. }
    (* the stored mantissa, shifted right, is the same quotient *)
    rewrite <- Z.shiftr_opp_r, Z.shiftr_div_pow2 by (unfold F in HF; lia).
    assert (Hsame : Z.pos mp / 2 ^ (- ep) = m3 / 2 ^ F).
    { pose proof (pow2_pos (- ep) ltac:(unfold F in *; lia)).
      pose proof (pow2_pos (ep - (eq + j)) ltac:(lia)).
      apply div_ratio; try lia. rewrite <- Hvalp.
      rewrite <- Z.mul_assoc. f_equal. rewrite <- Z.pow_add_r by (unfold F in *; lia).
      f_equal. unfold F. lia. }
    rewrite Hsame. symmetry. apply Z.div_unique with (r := m3 - k * 2 ^ F); lia.
Qed.

(** * Samples of the static normaliser *)

Lemma of_Z_0 : Float64.of_Z 0 = S754_zero false.
Proof. reflexivity. Qed.

(** A positive integer converts to a positive float or to [+inf]. *)
Lemma of_pos_spec_shape s p :
  (exists m e, of_pos_spec s p = S754_finite s m e) \/ of_pos_spec s p = S754_infinity s.
Proof.
  unfold of_pos_spec, rounded.
  destruct (_ <=? prec); [left; eauto|].
  destruct (_ <? _); destruct (_ <=? _); eauto.
Qed.

Lemma maximum1_of_Z_0 x : np.maximum1 (Float64.of_Z x) (Float64.of_Z 0) = Float64.of_Z (Z.max x 0).
Proof.
  rewrite of_Z_0. destruct x as [|p|p].
  - reflexivity.
  - replace (Z.max (Z.pos p) 0) with (Z.pos p) by lia.
    rewrite of_Z_pos.
    destruct (of_pos_spec_shape false p) as [(m & e & H)|H]; rewrite H; reflexivity.
  - replace (Z.max (Z.neg p) 0) with 0 by lia.
    rewrite of_Z_neg, of_Z_0.
    destruct (of_pos_spec_shape true p) as [(m & e & H)|H]; rewrite H; reflexivity.
Qed.

Lemma Zdigits2_mono a b : 0 < a <= b -> Zdigits2 a <= Zdigits2 b.
Proof.
  intros H. pose proof (Zdigits2_bounds a ltac:(lia)) as [Ha _].
  pose proof (Zdigits2_bounds b ltac:(lia)) as [_ Hb].
  destruct (Z.le_gt_cases (Zdigits2 a) (Zdigits2 b)); [assumption|].
  pow2_le (Zdigits2 b) (Zdigits2 a - 1). lia.
Qed.

Lemma Zdigits2_le_prec x : 0 < x < 2 ^ prec -> 0 < Zdigits2 x <= prec.
Proof.
  intros H. pose proof (Zdigits2_bounds x ltac:(lia)) as [Hlo _].
  split; [destruct x; simpl; lia|].
  destruct (Z.le_gt_cases (Zdigits2 x) prec); [assumption|].
  pow2_le prec (Zdigits2 x - 1). lia.
Qed.

(** Comparison of two converted integers is comparison of the integers. *)
Lemma ge_of_Z a b :
  0 <= a < 2 ^ prec -> 0 <= b < 2 ^ prec ->
  Float64.ge (Float64.of_Z a) (Float64.of_Z b) = (b <=? a).
Proof.
  intros Ha Hb.
  destruct (Z.eq_dec a 0) as [->|Ha0]; destruct (Z.eq_dec b 0) as [->|Hb0].
  - reflexivity.
  - rewrite of_Z_0, (of_Z_small b) by lia. unfold Float64.ge. simpl.
    symmetry. apply Z.leb_gt. lia.
  - rewrite of_Z_0, (of_Z_small a) by lia. unfold Float64.ge. simpl.
    symmetry. apply Z.leb_le. lia.
  - rewrite (of_Z_small a), (of_Z_small b) by lia.
    pose proof (Zdigits2_le_prec a ltac:(lia)) as Hda.
    pose proof (Zdigits2_le_prec b ltac:(lia)) as Hdb.
    pose proof (pow2_pos (prec - Zdigits2 a) ltac:(lia)) as Hpa.
    pose proof (pow2_pos (prec - Zdigits2 b) ltac:(lia)) as Hpb.
    unfold Float64.ge, SFcompare.
    destruct (Z.leb_spec b a) as [Hle|Hlt].
    + pose proof (Zdigits2_mono b a ltac:(lia)) as Hd.
      destruct (Z.compare_spec (Zdigits2 a - prec) (Zdigits2 b - prec)) as [E|E|E];
        [|lia|reflexivity].
      rewrite Pos.compare_cont_spec. simpl Pos.switch_Eq.
      rewrite <- Z2Pos.inj_compare by nia.
      replace (Zdigits2 b) with (Zdigits2 a) by lia.
      destruct (Z.compare_spec (a * 2 ^ (prec - Zdigits2 a)) (b * 2 ^ (prec - Zdigits2 a)));
        try reflexivity. nia.
    + pose proof (Zdigits2_mono a b ltac:(lia)) as Hd.
      destruct (Z.compare_spec (Zdigits2 a - prec) (Zdigits2 b - prec)) as [E|E|E];
        [|reflexivity|lia].
      rewrite Pos.compare_cont_spec. simpl Pos.switch_Eq.
      rewrite <- Z2Pos.inj_compare by nia.
      replace (Zdigits2 b) with (Zdigits2 a) by lia.
      destruct (Z.compare_spec (a * 2 ^ (prec - Zdigits2 a)) (b * 2 ^ (prec - Zdigits2 a)));
        try reflexivity; nia.
Qed.

Lemma of_Z_not_nan a : Float64.is_nan (Float64.of_Z a) = false.
Proof.
  destruct a as [|p|p]; [reflexivity| |].
  - rewrite of_Z_pos.
    destruct (of_pos_spec_shape false p) as [(m & e & H)|H]; rewrite H; reflexivity.
  - rewrite of_Z_neg.
    destruct (of_pos_spec_shape true p) as [(m & e & H)|H]; rewrite H; reflexivity.
Qed.

Lemma maximum1_of_Z a b :
  0 <= a < 2 ^ prec -> 0 <= b < 2 ^ prec ->
  np.maximum1 (Float64.of_Z a) (Float64.of_Z b) = Float64.of_Z (Z.max a b).
Proof.
  intros Ha Hb. unfold np.maximum1. rewrite ge_of_Z, of_Z_not_nan, orb_false_r by assumption.
  destruct (Z.leb_spec b a); f_equal; lia.
Qed.

Lemma fold_maximum1_of_Z ys : forall y0,
  0 <= y0 < 2 ^ prec -> Forall (fun y => 0 <= y < 2 ^ prec) ys ->
  fold_left np.maximum1 (map Float64.of_Z ys) (Float64.of_Z y0)
  = Float64.of_Z (fold_left Z.max ys y0).
Proof.
  induction ys as [|y ys IH]; intros y0 H0 Hys; [reflexivity|].
  inversion Hys as [|? ? Hy Hys']; subst. simpl.
  rewrite maximum1_of_Z by assumption. apply IH; [lia|assumption].
Qed.

(** * Arrays *)

Lemma elementwise_compose {A B C : Type} (f : A -> B) (g : B -> C) (a : np.ndarray A) :
  np.elementwise g (np.elementwise f a) = np.elementwise (fun x => g (f x)) a.
Proof.
  unfold np.elementwise. rewrite map_map. apply map_ext. intros row. apply map_map.
Qed.

Lemma ravel_elementwise {A B : Type} (f : A -> B) (a : np.ndarray A) :
  np.ravel (np.elementwise f a) = map f (np.ravel a).
Proof. unfold np.ravel, np.elementwise. symmetry. apply concat_map. Qed.

Lemma elementwise_ext_in {A B : Type} (f g : A -> B) (a : np.ndarray A) :
  (forall x, In x (np.ravel a) -> f x = g x) -> np.elementwise f a = np.elementwise g a.
Proof.
  intros H. unfold np.elementwise. apply map_ext_in. intros row Hrow.
  apply map_ext_in. intros x Hx. apply H. unfold np.ravel.
  apply in_concat. exists row. split; assumption.
Qed.

Lemma fold_max_ge ys : forall y0 y, In y (y0 :: ys) -> y <= fold_left Z.max ys y0.
Proof.
  induction ys as [|z ys IH]; intros y0 y Hin; simpl in *.
  - destruct Hin as [->|[]]. lia.
  - destruct Hin as [->|[->|Hin]].
    + specialize (IH (Z.max y z) (Z.max y z) (or_introl eq_refl)). lia.
    + specialize (IH (Z.max y0 y) (Z.max y0 y) (or_introl eq_refl)). lia.
    + apply IH. right. assumption.
Qed.

Lemma fold_max_in ys : forall y0, In (fold_left Z.max ys y0) (y0 :: ys).
Proof.
  induction ys as [|z ys IH]; intros y0; simpl.
  - left. reflexivity.
  - destruct (IH (Z.max y0 z)) as [H|H].
    + rewrite <- H. destruct (Z.max_spec y0 z) as [[_ ->]|[_ ->]]; auto.
    + right. right. assumption.
Qed.

Lemma fold_min_le ys : forall y0 y, In y (y0 :: ys) -> fold_left Z.min ys y0 <= y.
Proof.
  induction ys as [|z ys IH]; intros y0 y Hin; simpl in *.
  - destruct Hin as [->|[]]. lia.
  - destruct Hin as [->|[->|Hin]].
    + specialize (IH (Z.min y z) (Z.min y z) (or_introl eq_refl)). lia.
    + specialize (IH (Z.min y0 y) (Z.min y0 y) (or_introl eq_refl)). lia.
    + apply IH. right. assumption.
Qed.

(** The clamp of line 84 on one integer sample. *)
Lemma maximum_astype pa :
  np.maximum (np.astype_float pa) (Float64.of_Z 0)
  = np.elementwise (fun x => Float64.of_Z (Z.max x 0)) (np.data pa).
Proof.
  unfold np.maximum, np.astype_float. rewrite elementwise_compose.
  apply elementwise_ext_in. intros x _. apply maximum1_of_Z_0.
Qed.

(** One sample of the static normaliser, range check included. *)
Lemma to_uint8_scale invalid x M :
  0 <= x <= M -> 0 < M < 2 ^ 43 ->
  np.to_uint8 invalid
    (Float64.mul (Float64.div (Float64.of_Z x) (Float64.of_Z M)) (Float64.of_Z 255))
  = 255 * x / M.
Proof.
  intros Hx HM.
  assert (Hk : 0 <= 255 * x / M <= 255).
  { split; [apply Z.div_pos; lia|]. apply Z.div_le_upper_bound; lia. }
  destruct (Z.eq_dec x 0) as [->|Hx0].
  - rewrite of_Z_0, (of_Z_small M) by (change (2 ^ prec) with (2 ^ 43 * 1024); lia).
    rewrite Z.mul_0_r, Z.div_0_l by lia. reflexivity.
  - pose proof (scale_floor x M ltac:(lia) ltac:(lia)) as Hs. unfold scale in Hs.
    unfold np.to_uint8. rewrite Hs.
    destruct (Z.leb_spec 0 (255 * x / M)); [|lia].
    destruct (Z.leb_spec (255 * x / M) 255); [|lia]. reflexivity.
Qed.

(** The maximum of the clamped array, as the code computes it in binary64. *)
Lemma max_float_clamped pa M :
  Forall (fun x => x < 2 ^ 43) (np.ravel (np.data pa)) ->
  np.reduce Z.max (np.elementwise (fun x => Z.max x 0) (np.data pa)) = Ok M ->
  np.max_float (np.elementwise (fun x => Float64.of_Z (Z.max x 0)) (np.data pa))
  = Ok (Float64.of_Z M).
Proof.
  intros Hb HM. unfold np.max_float, np.reduce in *.
  rewrite ravel_elementwise in HM. rewrite ravel_elementwise.
  destruct (np.ravel (np.data pa)) as [|x xs]; [simpl in HM; discriminate|].
  simpl in *. injection HM as HM. f_equal.
  rewrite <- HM, <- (map_map (fun x => Z.max x 0) Float64.of_Z).
  inversion Hb as [|? ? Hx Hxs]; subst.
  assert (H43 : 2 ^ 43 < 2 ^ prec) by reflexivity.
  apply fold_maximum1_of_Z; [lia|].
  apply Forall_forall. intros y Hy. apply in_map_iff in Hy. destruct Hy as (z & <- & Hz).
  rewrite Forall_forall in Hxs. specialize (Hxs z Hz). lia.
Qed.

Lemma Forall2_map_r {A B : Type} (P : A -> B -> Prop) (f : A -> B) (l : list A) :
  (forall x, In x l -> P x (f x)) -> Forall2 P l (map f l).
Proof.
  induction l as [|x l IH]; intros H; simpl; constructor.
  - apply H. left. reflexivity.
  - apply IH. intros z Hz. apply H. right. assumption.
Qed.

(** Every clamped sample is at most the maximum the reduction finds, and the
    maximum is the clamp of one of the samples. *)
Lemma clamped_le_max (a : np.ndarray Z) M x :
  np.reduce Z.max (np.elementwise (fun x => Z.max x 0) a) = Ok M ->
  In x (np.ravel a) -> Z.max x 0 <= M.
Proof.
  intros HM Hx. unfold np.reduce in HM. rewrite ravel_elementwise in HM.
  destruct (np.ravel a) as [|x0 xs]; [contradiction|].
  simpl in HM. injection HM as <-. apply fold_max_ge.
  apply (in_map (fun x => Z.max x 0) (x0 :: xs)). assumption.
Qed.

Lemma max_attained (a : np.ndarray Z) M :
  np.reduce Z.max (np.elementwise (fun x => Z.max x 0) a) = Ok M ->
  exists z, In z (np.ravel a) /\ Z.max z 0 = M.
Proof.
  intros HM. unfold np.reduce in HM. rewrite ravel_elementwise in HM.
  destruct (np.ravel a) as [|x0 xs]; [simpl in HM; discriminate|].
  simpl in HM. injection HM as <-.
  pose proof (fold_max_in (map (fun x => Z.max x 0) xs) (Z.max x0 0)) as Hin.
  apply (in_map_iff (fun x => Z.max x 0) (x0 :: xs)) in Hin.
  destruct Hin as (z & Hz & Hzin). exists z. split; assumption.
Qed.

(** The static normaliser, sample by sample, before anything is said about
    the value of a sample. *)
Lemma static_samples invalid pa M :
  Forall (fun x => x < 2 ^ 43) (np.ravel (np.data pa)) ->
  np.reduce Z.max (np.elementwise (fun x => Z.max x 0) (np.data pa)) = Ok M ->
  DICOM.pixel_array_pos_norm_u8 invalid pa
  = Ok (np.elementwise
          (fun x => np.to_uint8 invalid
                      (Float64.mul (Float64.div (Float64.of_Z (Z.max x 0)) (Float64.of_Z M))
                                   (Float64.of_Z 255)))
          (np.data pa)).
Proof.
  intros Hb HM. unfold DICOM.pixel_array_pos_norm_u8.
  rewrite maximum_astype, (max_float_clamped pa M Hb HM). simpl rbind.
  unfold np.uint8, np.multiply, np.true_divide. rewrite !elementwise_compose.
  reflexivity.
Qed.


(** * The dynamic normaliser *)

Lemma wrap_0 t : np.wrap t 0 = 0.
Proof.
  unfold np.wrap. destruct (np.signed t).
  - rewrite Z.add_0_l. destruct (Z.le_gt_cases 1 (np.bits t)) as [Hb|Hb].
    + pose proof (pow2_pos (np.bits t - 1) ltac:(lia)) as Hp.
      assert (2 ^ (np.bits t - 1) < 2 ^ np.bits t) by (apply Z.pow_lt_mono_r; lia).
      rewrite Z.mod_small; lia.
    + rewrite (Z.pow_neg_r 2 (np.bits t - 1)) by lia. rewrite Zmod_0_l. reflexivity.
  - apply Zmod_0_l.
Qed.

Lemma hounsfield_min_eq pa min_p : DICOM.hounsfield_min pa min_p = np.min pa.
Proof. unfold DICOM.hounsfield_min. destruct (np.min pa); reflexivity. Qed.

Lemma hounsfield_max_eq pa max_p : DICOM.hounsfield_max pa max_p = np.max pa.
Proof. unfold DICOM.hounsfield_max. destruct (np.max pa); reflexivity. Qed.

Lemma reduce_nonempty {A : Type} (f : A -> A -> A) (a : np.ndarray A) :
  np.ravel a <> [] -> exists v, np.reduce f a = Ok v.
Proof.
  intros H. unfold np.reduce. destruct (np.ravel a); [contradiction|]. eauto.
Qed.

Lemma dynamic_loop_bounds invalid dcmread files : forall output_path min_p max_p min_p' max_p'
    output_format plot processed_files w,
  DICOM.dynamic_loop invalid dcmread files output_path min_p max_p output_format plot
    processed_files w
  = DICOM.dynamic_loop invalid dcmread files output_path min_p' max_p' output_format plot
      processed_files w.
Proof.
  induction files as [|file rest IH]; intros; [reflexivity|].
  simpl. unfold bind, lift.
  destruct (dcmread file) as [ds|e]; [|reflexivity].
  destruct (pydicom.pixel_array ds) as [pa|].
  - change (DICOM.pixel_array_norm_u8 invalid pa min_p' max_p')
      with (DICOM.pixel_array_norm_u8 invalid pa min_p max_p).
    destruct (DICOM.pixel_array_norm_u8 invalid pa min_p max_p) as [u8|e]; [|reflexivity].
    destruct (DICOM._export u8 file output_path output_format plot w) as [[[]|e] w'];
      [|reflexivity].
    apply IH.
  - destruct (print _ w) as [[[]|e] w']; [|reflexivity]. apply IH.
Qed.

(** * Construction *)

Lemma path_eqb_eq p : forall q, pathlib.path_eqb p q = true <-> p = q.
Proof.
  induction p as [|a p IH]; intros [|b q]; simpl; split; intros H; try congruence; try discriminate.
  - apply andb_true_iff in H. destruct H as [Hab Hpq].
    apply String.eqb_eq in Hab. apply IH in Hpq. congruence.
  - injection H as -> ->. rewrite String.eqb_refl. simpl. apply IH. reflexivity.
Qed.

Lemma child_name_spec p : forall q name,
  pathlib.child_name p q = Some name <-> q = p ++ [name].
Proof.
  induction p as [|a p IH]; intros q name; simpl.
  - destruct q as [|b [|c q]]; split; intros H; try discriminate; congruence.
  - destruct q as [|b q]; [split; intros H; discriminate|].
    destruct (String.eqb_spec a b) as [->|Hne].
    + rewrite IH. split; intros H; congruence.
    + split; intros H; [discriminate|]. congruence.
Qed.

Lemma glob_In files p pattern q :
  In q (pathlib.glob files p pattern)
  <-> exists name n, q = p ++ [name] /\ In (q, n) files /\ pathlib.fnmatch pattern name = true.
Proof.
  induction files as [|[q' n'] files IH]; simpl.
  - split; [intros []|intros (name & n & _ & [] & _)].
  - destruct (pathlib.child_name p q') as [name'|] eqn:Ec.
    + apply child_name_spec in Ec.
      destruct (pathlib.fnmatch pattern name') eqn:Em; simpl; rewrite IH; split.
      * intros [<-|(name & n & H1 & H2 & H3)]; [exists name', n'; auto|exists name, n; auto].
      * intros (name & n & H1 & [H2|H2] & H3); [left; congruence|right; exists name, n; auto].
      * intros (name & n & H1 & H2 & H3). exists name, n; auto.
      * intros (name & n & H1 & [H2|H2] & H3); [|exists name, n; auto].
        injection H2 as -> ->. rewrite Ec in H1. apply app_inj_tail in H1.
        destruct H1 as [_ ->]. congruence.
    + rewrite IH. split.
      * intros (name & n & H1 & H2 & H3). exists name, n; auto.
      * intros (name & n & H1 & [H2|H2] & H3); [|exists name, n; auto].
        injection H2 as -> ->. apply child_name_spec in H1. congruence.
Qed.

Lemma fnmatch_literal_cons c pat name :
  Ascii.eqb c "*" = false ->
  pathlib.fnmatch (String c pat) name
  = match name with
    | String d name' => Ascii.eqb c d && pathlib.fnmatch pat name'
    | EmptyString => false
    end.
Proof. intros H. cbn [pathlib.fnmatch]. rewrite H. reflexivity. Qed.

(** The pattern of the constructor matches the names that end in [.dcm]. *)
Lemma fnmatch_dcm_literal name : pathlib.fnmatch ".dcm" name = true <-> name = ".dcm"%string.
Proof.
  split.
  - intros H.
    destruct name as [|c1 name]; rewrite fnmatch_literal_cons in H by reflexivity; [discriminate|].
    apply andb_true_iff in H. destruct H as [E1 H]. apply Ascii.eqb_eq in E1. subst c1.
    destruct name as [|c2 name]; rewrite fnmatch_literal_cons in H by reflexivity; [discriminate|].
    apply andb_true_iff in H. destruct H as [E2 H]. apply Ascii.eqb_eq in E2. subst c2.
    destruct name as [|c3 name]; rewrite fnmatch_literal_cons in H by reflexivity; [discriminate|].
    apply andb_true_iff in H. destruct H as [E3 H]. apply Ascii.eqb_eq in E3. subst c3.
    destruct name as [|c4 name]; rewrite fnmatch_literal_cons in H by reflexivity; [discriminate|].
    apply andb_true_iff in H. destruct H as [E4 H]. apply Ascii.eqb_eq in E4. subst c4.
    destruct name; [reflexivity|discriminate].
  - intros ->. reflexivity.
Qed.

Lemma fnmatch_dcm name :
  pathlib.fnmatch "*.dcm" name = true <-> exists pre, name = (pre ++ ".dcm")%string.
Proof.
  change (pathlib.fnmatch "*.dcm")
    with (fix star (name : string) : bool :=
            pathlib.fnmatch ".dcm" name
            || match name with
               | EmptyString => false
               | String _ name' => star name'
               end).
  induction name as [|c name IH].
  - split; [intros H; discriminate|]. intros ([|d pre] & H); discriminate.
  - split.
    + intros H. apply orb_true_iff in H. destruct H as [H|H].
      * apply fnmatch_dcm_literal in H. exists EmptyString. exact H.
      * apply IH in H. destruct H as (pre & ->). exists (String c pre). reflexivity.
    + intros (pre & H). apply orb_true_iff. destruct pre as [|d pre].
      * left. apply fnmatch_dcm_literal. exact H.
      * right. apply IH. simpl in H. injection H as _ ->. exists pre. reflexivity.
Qed.

(** * The file system *)

Lemma path_eqb_refl p : pathlib.path_eqb p p = true.
Proof. apply path_eqb_eq. reflexivity. Qed.

Lemma path_eqb_neq p q : p <> q -> pathlib.path_eqb p q = false.
Proof.
  intros H. destruct (pathlib.path_eqb p q) eqn:E; [|reflexivity].
  apply path_eqb_eq in E. contradiction.
Qed.

Lemma lookup_app l1 l2 q :
  pathlib.lookup (l1 ++ l2) q
  = match pathlib.lookup l1 q with
    | Some n => Some n
    | None => pathlib.lookup l2 q
    end.
Proof.
  induction l1 as [|[p n] l1 IH]; simpl; [reflexivity|].
  destruct (pathlib.path_eqb p q); [reflexivity|exact IH].
Qed.

Lemma prefixes_app p name : pathlib.prefixes (p ++ [name]) = pathlib.prefixes p ++ [p ++ [name]].
Proof.
  induction p as [|a p IH]; simpl; [reflexivity|].
  rewrite IH, map_app. reflexivity.
Qed.

Lemma In_prefixes q : forall p, In q (pathlib.prefixes p) -> exists rest, p = q ++ rest.
Proof.
  intros p. revert q. induction p as [|a p IH]; intros q H; simpl in H; [contradiction|].
  destruct H as [<-|H]; [exists p; reflexivity|].
  apply in_map_iff in H. destruct H as (q' & <- & Hq').
  destruct (IH q' Hq') as (rest & ->). exists rest. reflexivity.
Qed.

Lemma In_prefixes_self p : p <> [] -> In p (pathlib.prefixes p).
Proof.
  intros Hp. destruct (exists_last Hp) as (p' & name & ->). rewrite prefixes_app.
  apply in_or_app. right. left. reflexivity.
Qed.

(** ** [mkdir] *)

(** A successful [mkdir] keeps every entry that is there, ... *)
Lemma mkdir_each_keeps ps : forall fs fs' q n,
  pathlib.mkdir_each fs ps = Ok fs' ->
  pathlib.lookup fs q = Some n -> pathlib.lookup fs' q = Some n.
Proof.
  induction ps as [|p ps IH]; intros fs fs' q n Hm H; simpl in Hm.
  - injection Hm as <-. exact H.
  - destruct (pathlib.lookup fs p) as [[|px]|] eqn:E.
    + apply (IH fs fs' q n Hm H).
    + destruct ps; discriminate.
    + apply (IH _ fs' q n Hm). rewrite lookup_app, H. reflexivity.
Qed.

(** ... does not touch a path that is not of the list, ... *)
Lemma mkdir_each_other ps : forall fs fs' q,
  pathlib.mkdir_each fs ps = Ok fs' ->
  ~ In q ps -> pathlib.lookup fs' q = pathlib.lookup fs q.
Proof.
  induction ps as [|p ps IH]; intros fs fs' q Hm H; simpl in Hm.
  - injection Hm as <-. reflexivity.
  - assert (Hq : ~ In q ps) by (intros Hin; apply H; right; exact Hin).
    destruct (pathlib.lookup fs p) as [[|px]|] eqn:E.
    + apply (IH fs fs' q Hm Hq).
    + destruct ps; discriminate.
    + rewrite (IH _ fs' q Hm Hq). rewrite lookup_app.
      destruct (pathlib.lookup fs q); [reflexivity|]. simpl.
      rewrite path_eqb_neq; [reflexivity|]. intros ->. apply H. left. reflexivity.
Qed.

(** ... and leaves a directory at every path of the list. *)
Lemma mkdir_each_made ps : forall fs fs' q,
  pathlib.mkdir_each fs ps = Ok fs' ->
  In q ps -> pathlib.lookup fs' q = Some pathlib.Dir.
Proof.
  induction ps as [|p ps IH]; intros fs fs' q Hm Hin; [contradiction|]. simpl in Hm.
  destruct (pathlib.lookup fs p) as [[|px]|] eqn:E.
  - destruct Hin as [->|Hin]; [|apply (IH fs fs' q Hm Hin)].
    apply (mkdir_each_keeps ps fs fs' q _ Hm E).
  - destruct ps; discriminate.
  - destruct Hin as [->|Hin]; [|apply (IH _ fs' q Hm Hin)].
    apply (mkdir_each_keeps ps _ fs' q _ Hm).
    rewrite lookup_app, E. simpl. rewrite path_eqb_refl. reflexivity.
Qed.

(** It succeeds when no regular file stands at a path of the list. *)
Lemma mkdir_each_succeeds ps : forall fs,
  (forall q pixels, In q ps -> pathlib.lookup fs q <> Some (pathlib.File pixels)) ->
  exists fs', pathlib.mkdir_each fs ps = Ok fs'.
Proof.
  induction ps as [|p ps IH]; intros fs H; simpl; [eauto|].
  destruct (pathlib.lookup fs p) as [[|px]|] eqn:E.
  - apply IH. intros q pixels Hq. apply H. right. exact Hq.
  - exfalso. apply (H p px); [left; reflexivity|exact E].
  - apply IH. intros q pixels Hq. rewrite lookup_app.
    destruct (pathlib.lookup fs q) as [n|] eqn:Eq.
    + rewrite <- Eq. apply H. right. exact Hq.
    + simpl. destruct (pathlib.path_eqb p q); discriminate.
Qed.

(** What it raises is one of the two exceptions of a file in the way. *)
Lemma mkdir_each_raises ps : forall fs e,
  pathlib.mkdir_each fs ps = Raise e ->
  exists msg, e = FileExistsError msg \/ e = NotADirectoryError msg.
Proof.
  induction ps as [|p ps IH]; intros fs e H; simpl in H; [discriminate|].
  destruct (pathlib.lookup fs p) as [[|px]|].
  - apply (IH fs e H).
  - destruct ps; injection H as <-; eauto.
  - apply (IH _ e H).
Qed.

(** ** Writing a file *)

Lemma lookup_saved_same fs p pixels :
  pathlib.lookup
    (filter (fun e => negb (pathlib.path_eqb (fst e) p)) fs
     ++ [(p, pathlib.File (Some pixels))]) p
  = Some (pathlib.File (Some pixels)).
Proof.
  rewrite lookup_app.
  assert (H : pathlib.lookup (filter (fun e => negb (pathlib.path_eqb (fst e) p)) fs) p = None).
  { induction fs as [|[q n] fs IH]; simpl; [reflexivity|].
    destruct (pathlib.path_eqb q p) eqn:E; simpl; [exact IH|]. rewrite E. exact IH. }
  rewrite H. simpl. rewrite path_eqb_refl. reflexivity.
Qed.

Lemma lookup_saved_other fs p pixels q :
  q <> p ->
  pathlib.lookup
    (filter (fun e => negb (pathlib.path_eqb (fst e) p)) fs
     ++ [(p, pathlib.File (Some pixels))]) q
  = pathlib.lookup fs q.
Proof.
  intros Hne. rewrite lookup_app.
  assert (H : pathlib.lookup (filter (fun e => negb (pathlib.path_eqb (fst e) p)) fs) q
              = pathlib.lookup fs q).
  { induction fs as [|[r n] fs IH]; simpl; [reflexivity|].
    destruct (pathlib.path_eqb r p) eqn:E; simpl.
    - apply path_eqb_eq in E. subst r. rewrite (path_eqb_neq p q) by congruence. exact IH.
    - destruct (pathlib.path_eqb r q); [reflexivity|exact IH]. }
  rewrite H. destruct (pathlib.lookup fs q); [reflexivity|]. simpl.
  rewrite path_eqb_neq by congruence. reflexivity.
Qed.

(** A successful [write] returns the file system with the file saved. *)
Lemma write_saved fs p pixels fs' :
  pathlib.write fs p pixels = Ok fs' ->
  fs' = filter (fun e => negb (pathlib.path_eqb (fst e) p)) fs
        ++ [(p, pathlib.File (Some pixels))].
Proof.
  unfold pathlib.write. intros H.
  assert (Hat : match pathlib.lookup fs p with
                | Some pathlib.Dir => Raise (IsADirectoryError "Is a directory")
                | _ => Ok (filter (fun e => negb (pathlib.path_eqb (fst e) p)) fs
                           ++ [(p, pathlib.File (Some pixels))])
                end = Ok fs' ->
                fs' = filter (fun e => negb (pathlib.path_eqb (fst e) p)) fs
                      ++ [(p, pathlib.File (Some pixels))]).
  { destruct (pathlib.lookup fs p) as [[|px]|]; intros E; try discriminate;
      injection E as <-; reflexivity. }
  destruct (pathlib.parent p); [exact (Hat H)|].
  destruct (pathlib.lookup fs (_ :: _)) as [[|px]|]; try discriminate. exact (Hat H).
Qed.

Lemma write_same fs p pixels fs' :
  pathlib.write fs p pixels = Ok fs' ->
  pathlib.lookup fs' p = Some (pathlib.File (Some pixels)).
Proof. intros H. rewrite (write_saved _ _ _ _ H). apply lookup_saved_same. Qed.

Lemma write_other fs p pixels fs' q :
  pathlib.write fs p pixels = Ok fs' -> q <> p ->
  pathlib.lookup fs' q = pathlib.lookup fs q.
Proof. intros H Hq. rewrite (write_saved _ _ _ _ H). apply lookup_saved_other. exact Hq. Qed.

(** It succeeds under a directory, where no directory stands at the path. *)
Lemma write_succeeds fs p pixels :
  pathlib.lookup fs (pathlib.parent p) = Some pathlib.Dir ->
  pathlib.lookup fs p <> Some pathlib.Dir ->
  exists fs', pathlib.write fs p pixels = Ok fs'.
Proof.
  intros Hparent Hp. unfold pathlib.write. rewrite Hparent.
  destruct (pathlib.lookup fs p) as [[|px]|]; [contradiction| |];
    destruct (pathlib.parent p); eauto.
Qed.

Lemma parent_app p name : pathlib.parent (p ++ [name]) = p.
Proof. unfold pathlib.parent. apply removelast_last. Qed.

(** ** [_export] *)

Lemma export_run u8 file output_dir format plot w :
  DICOM._export u8 file output_dir format plot w
  = match pathlib.mkdir (fs w) (output_dir ++ [export_subdir plot]) with
    | Ok fs1 =>
        match pathlib.write fs1 (export_path file output_dir format plot) u8 with
        | Ok fs2 => (Ok tt, {| fs := fs2; stdout := stdout w |})
        | Raise e => (Raise e, {| fs := fs1; stdout := stdout w |})
        end
    | Raise e => (Raise e, w)
    end.
Proof.
  unfold DICOM._export, export_path, export_subdir, extension.
  destruct plot, format; unfold bind, path_mkdir, save;
    (destruct (pathlib.mkdir (fs w) _) as [fs1|e]; [|reflexivity]);
    simpl; destruct (pathlib.write fs1 _ u8); reflexivity.
Qed.

Lemma export_path_neq_subdir file output_dir format plot q :
  In q (pathlib.prefixes (output_dir ++ [export_subdir plot])) ->
  q <> export_path file output_dir format plot.
Proof.
  intros Hin ->. apply In_prefixes in Hin. destruct Hin as (rest & H).
  unfold export_path in H. rewrite <- app_assoc in H. apply app_inv_head in H.
  simpl in H. discriminate.
Qed.

Lemma export_path_parent file output_dir format plot :
  pathlib.parent (export_path file output_dir format plot)
  = output_dir ++ [export_subdir plot].
Proof.
  unfold export_path.
  change [export_subdir plot; (pathlib.stem file ++ "." ++ extension format)%string]
    with ([export_subdir plot] ++ [(pathlib.stem file ++ "." ++ extension format)%string]).
  rewrite app_assoc. apply parent_app.
Qed.

(** Whatever its outcome, [_export] prints nothing, keeps every entry other
    than the image, and touches nothing but the subdirectory, the
    directories above it and the image. *)
Lemma export_stdout u8 file output_dir format plot w :
  stdout (snd (DICOM._export u8 file output_dir format plot w)) = stdout w.
Proof.
  rewrite export_run. destruct (pathlib.mkdir _ _) as [fs1|e]; [|reflexivity].
  destruct (pathlib.write _ _ _); reflexivity.
Qed.

Lemma export_keeps u8 file output_dir format plot w q n :
  pathlib.lookup (fs w) q = Some n ->
  q <> export_path file output_dir format plot ->
  pathlib.lookup (fs (snd (DICOM._export u8 file output_dir format plot w))) q = Some n.
Proof.
  intros H Hq. rewrite export_run.
  destruct (pathlib.mkdir _ _) as [fs1|e] eqn:Em; [|exact H].
  pose proof (mkdir_each_keeps _ _ _ q n Em H) as H1.
  destruct (pathlib.write _ _ _) as [fs2|e] eqn:Ew; [|exact H1]. simpl.
  rewrite (write_other _ _ _ _ q Ew Hq). exact H1.
Qed.

Lemma export_frame u8 file output_dir format plot w q :
  ~ In q (pathlib.prefixes (output_dir ++ [export_subdir plot])) ->
  q <> export_path file output_dir format plot ->
  pathlib.lookup (fs (snd (DICOM._export u8 file output_dir format plot w))) q
  = pathlib.lookup (fs w) q.
Proof.
  intros Hd Hq. rewrite export_run.
  destruct (pathlib.mkdir _ _) as [fs1|e] eqn:Em; [|reflexivity].
  pose proof (mkdir_each_other _ _ _ q Em Hd) as H1.
  destruct (pathlib.write _ _ _) as [fs2|e] eqn:Ew; [|exact H1]. simpl.
  rewrite (write_other _ _ _ _ q Ew Hq). exact H1.
Qed.

(** Where the output location can be written to, [_export] returns, the image
    is saved under the subdirectory, and the location can still be written
    to. *)
Lemma export_succeeds u8 file rest output_dir format plot w :
  exportable (fs w) (file :: rest) output_dir format plot ->
  exists w',
    DICOM._export u8 file output_dir format plot w = (Ok tt, w')
    /\ stdout w' = stdout w
    /\ pathlib.lookup (fs w') (export_path file output_dir format plot)
       = Some (pathlib.File (Some u8))
    /\ pathlib.lookup (fs w') (output_dir ++ [export_subdir plot]) = Some pathlib.Dir
    /\ exportable (fs w') rest output_dir format plot.
Proof.
  intros [HP HT]. rewrite export_run.
  destruct (mkdir_each_succeeds _ (fs w) HP) as (fs1 & Em).
  unfold pathlib.mkdir. rewrite Em.
  assert (Hsub : pathlib.lookup fs1 (output_dir ++ [export_subdir plot]) = Some pathlib.Dir).
  { apply (mkdir_each_made _ _ _ _ Em). apply In_prefixes_self.
    destruct output_dir; discriminate. }
  assert (Hnp : forall f, ~ In (export_path f output_dir format plot)
                            (pathlib.prefixes (output_dir ++ [export_subdir plot]))).
  { intros f Hin. exact (export_path_neq_subdir f output_dir format plot _ Hin eq_refl). }
  assert (Ht1 : forall f, pathlib.lookup fs1 (export_path f output_dir format plot)
                          = pathlib.lookup (fs w) (export_path f output_dir format plot)).
  { intros f. apply (mkdir_each_other _ _ _ _ Em). apply Hnp. }
  destruct (write_succeeds fs1 (export_path file output_dir format plot) u8) as (fs2 & Ew).
  { rewrite export_path_parent. exact Hsub. }
  { rewrite Ht1. apply HT. left. reflexivity. }
  rewrite Ew. eexists. split; [reflexivity|]. simpl.
  split; [reflexivity|]. split; [apply (write_same _ _ _ _ Ew)|]. split.
  - rewrite (write_other _ _ _ _ _ Ew); [exact Hsub|].
    apply export_path_neq_subdir. apply In_prefixes_self. destruct output_dir; discriminate.
  - split.
    + intros q pixels Hq. rewrite (write_other _ _ _ _ _ Ew)
        by (apply export_path_neq_subdir; exact Hq).
      rewrite (mkdir_each_made _ _ _ _ Em Hq). discriminate.
    + intros f Hf.
      destruct (list_eq_dec string_dec (export_path f output_dir format plot)
                  (export_path file output_dir format plot)) as [E|E].
      * rewrite E, (write_same _ _ _ _ Ew). discriminate.
      * rewrite (write_other _ _ _ _ _ Ew E), Ht1. apply HT. right. exact Hf.
Qed.

(** ** The output directory *)

Lemma make_output_dir_run output_dir w :
  make_output_dir output_dir w
  = if pathlib.exists_ (fs w) output_dir
    then (Ok tt, w)
    else match pathlib.mkdir (fs w) output_dir with
         | Ok fs' =>
             (Ok tt,
              {| fs := fs';
                 stdout := stdout w ++ ["Provided path does not exist...creating path"%string] |})
         | Raise e =>
             (Raise e,
              {| fs := fs w;
                 stdout := stdout w ++ ["Provided path does not exist...creating path"%string] |})
         end.
Proof.
  unfold make_output_dir, bind, path_exists.
  destruct (pathlib.exists_ (fs w) output_dir); [reflexivity|].
  cbv [negb print path_mkdir fs stdout]. destruct (pathlib.mkdir _ _); reflexivity.
Qed.

Lemma make_output_dir_keeps output_dir w q n :
  pathlib.lookup (fs w) q = Some n ->
  pathlib.lookup (fs (snd (make_output_dir output_dir w))) q = Some n.
Proof.
  intros H. rewrite make_output_dir_run.
  destruct (pathlib.exists_ (fs w) output_dir); [exact H|].
  destruct (pathlib.mkdir _ _) as [fs'|e] eqn:Em; [|exact H].
  apply (mkdir_each_keeps _ _ _ q n Em H).
Qed.

Lemma make_output_dir_frame output_dir w q :
  ~ In q (pathlib.prefixes output_dir) ->
  pathlib.lookup (fs (snd (make_output_dir output_dir w))) q = pathlib.lookup (fs w) q.
Proof.
  intros H. rewrite make_output_dir_run.
  destruct (pathlib.exists_ (fs w) output_dir); [reflexivity|].
  destruct (pathlib.mkdir _ _) as [fs'|e] eqn:Em; [|reflexivity].
  apply (mkdir_each_other _ _ _ q Em H).
Qed.

(** It returns when no regular file stands at the output directory or above
    it. *)
Lemma make_output_dir_returns output_dir w :
  (forall q pixels, In q (pathlib.prefixes output_dir) ->
                    pathlib.lookup (fs w) q <> Some (pathlib.File pixels)) ->
  exists w',
    make_output_dir output_dir w = (Ok tt, w')
    /\ stdout w'
       = stdout w ++ (if pathlib.exists_ (fs w) output_dir then []
                      else ["Provided path does not exist...creating path"%string])
    /\ (output_dir <> [] -> pathlib.lookup (fs w') output_dir = Some pathlib.Dir).
Proof.
  intros HP'. rewrite make_output_dir_run.
  destruct (pathlib.exists_ (fs w) output_dir) eqn:Ex.
  - eexists. split; [reflexivity|]. split; [rewrite app_nil_r; reflexivity|].
    intros Hne. unfold pathlib.exists_ in Ex.
    destruct (pathlib.lookup (fs w) output_dir) as [[|px]|] eqn:El; try discriminate;
      [reflexivity|].
    exfalso. apply (HP' output_dir px); [apply In_prefixes_self; exact Hne|exact El].
  - destruct (mkdir_each_succeeds _ (fs w) HP') as (fs' & Em).
    unfold pathlib.mkdir. rewrite Em. eexists. split; [reflexivity|]. simpl.
    split; [reflexivity|].
    intros Hne. apply (mkdir_each_made _ _ _ _ Em). apply In_prefixes_self. exact Hne.
Qed.

Lemma make_output_dir_succeeds files output_dir format plot w :
  exportable (fs w) files output_dir format plot ->
  exists w',
    make_output_dir output_dir w = (Ok tt, w')
    /\ stdout w'
       = stdout w ++ (if pathlib.exists_ (fs w) output_dir then []
                      else ["Provided path does not exist...creating path"%string])
    /\ (output_dir <> [] -> pathlib.lookup (fs w') output_dir = Some pathlib.Dir)
    /\ exportable (fs w') files output_dir format plot.
Proof.
  intros [HP HT]. rewrite make_output_dir_run.
  assert (HP' : forall q pixels, In q (pathlib.prefixes output_dir) ->
                  pathlib.lookup (fs w) q <> Some (pathlib.File pixels)).
  { intros q pixels Hq. apply HP. rewrite prefixes_app. apply in_or_app. left. exact Hq. }
  destruct (pathlib.exists_ (fs w) output_dir) eqn:Ex.
  - eexists. split; [reflexivity|]. split; [rewrite app_nil_r; reflexivity|].
    split; [|split; assumption].
    intros Hne. unfold pathlib.exists_ in Ex.
    destruct (pathlib.lookup (fs w) output_dir) as [[|px]|] eqn:El; try discriminate;
      [reflexivity|].
    exfalso. apply (HP' output_dir px); [apply In_prefixes_self; exact Hne|exact El].
  - destruct (mkdir_each_succeeds _ (fs w) HP') as (fs' & Em).
    unfold pathlib.mkdir. rewrite Em. eexists. split; [reflexivity|]. simpl.
    split; [reflexivity|]. split.
    + intros Hne. apply (mkdir_each_made _ _ _ _ Em). apply In_prefixes_self. exact Hne.
    + split.
      * intros q pixels Hq.
        destruct (in_dec (list_eq_dec string_dec) q (pathlib.prefixes output_dir)) as [Hin|Hout].
        -- rewrite (mkdir_each_made _ _ _ _ Em Hin). discriminate.
        -- rewrite (mkdir_each_other _ _ _ _ Em Hout). apply HP. exact Hq.
      * intros f Hf. rewrite (mkdir_each_other _ _ _ _ Em); [apply HT; exact Hf|].
        intros Hin. apply (export_path_neq_subdir f output_dir format plot _) with (2 := eq_refl).
        rewrite prefixes_app. apply in_or_app. left. exact Hin.
Qed.

(** * The batch loop *)

Lemma static_returns invalid pa :
  np.ravel (np.data pa) <> [] ->
  exists u8, DICOM.pixel_array_pos_norm_u8 invalid pa = Ok u8.
Proof.
  intros H. unfold DICOM.pixel_array_pos_norm_u8, np.max_float.
  destruct (reduce_nonempty np.maximum1
              (np.maximum (np.astype_float pa) (Float64.of_Z 0))) as (m & ->).
  - unfold np.maximum, np.astype_float. rewrite !ravel_elementwise.
    destruct (np.ravel (np.data pa)); [contradiction|discriminate].
  - simpl. eauto.
Qed.

Lemma static_loop_batch invalid dcmread files : forall output_path output_format plot
    processed_files w,
  DICOM.static_loop invalid dcmread files output_path output_format plot processed_files w
  = batch_loop dcmread (DICOM.pixel_array_pos_norm_u8 invalid) files output_path
      output_format plot processed_files w.
Proof.
  induction files as [|file rest IH]; intros; [reflexivity|].
  simpl. unfold bind, lift. destruct (dcmread file) as [ds|e]; [|reflexivity].
  destruct (pydicom.pixel_array ds) as [pa|].
  - destruct (DICOM.pixel_array_pos_norm_u8 invalid pa) as [u8|e]; [|reflexivity].
    destruct (DICOM._export u8 file output_path output_format plot w) as [[[]|e] w'];
      [apply IH|reflexivity].
  - unfold print. apply IH.
Qed.

Lemma dynamic_loop_batch invalid dcmread min_p max_p files : forall output_path output_format
    plot processed_files w,
  DICOM.dynamic_loop invalid dcmread files output_path min_p max_p output_format plot
    processed_files w
  = batch_loop dcmread (fun pixel_array => DICOM.pixel_array_norm_u8 invalid pixel_array min_p max_p)
      files output_path output_format plot processed_files w.
Proof.
  induction files as [|file rest IH]; intros; [reflexivity|].
  simpl. unfold bind, lift. destruct (dcmread file) as [ds|e]; [|reflexivity].
  destruct (pydicom.pixel_array ds) as [pa|].
  - destruct (DICOM.pixel_array_norm_u8 invalid pa min_p max_p) as [u8|e]; [|reflexivity].
    destruct (DICOM._export u8 file output_path output_format plot w) as [[[]|e] w'];
      [apply IH|reflexivity].
  - unfold print. apply IH.
Qed.

(** A method is the making of the output directory, then the loop. *)
Lemma batch_run dcmread normalise files output_dir output_format plot w :
  batch dcmread normalise files output_dir output_format plot w
  = match make_output_dir output_dir w with
    | (Ok _, w') => batch_loop dcmread normalise files output_dir output_format plot [] w'
    | (Raise e, w') => (Raise e, w')
    end.
Proof. reflexivity. Qed.

Lemma process_static_batch invalid dcmread this output_dir output_format plot w :
  DICOM.process_static invalid dcmread this output_dir output_format plot w
  = batch dcmread (DICOM.pixel_array_pos_norm_u8 invalid) (DICOM.dcm_files this)
      output_dir output_format plot w.
Proof.
  rewrite batch_run. unfold DICOM.process_static, make_output_dir, bind, path_exists.
  destruct (negb (pathlib.exists_ (fs w) output_dir)).
  - destruct (print _ w) as [[[]|e] w1]; [|reflexivity].
    destruct (path_mkdir output_dir w1) as [[[]|e] w2]; [apply static_loop_batch|reflexivity].
  - cbv [ret]. apply static_loop_batch.
Qed.

Lemma process_dynamic_batch invalid dcmread this output_dir min_p max_p output_format plot w :
  DICOM.process_dynamic invalid dcmread this output_dir min_p max_p output_format plot w
  = batch dcmread
      (fun pixel_array => DICOM.pixel_array_norm_u8 invalid pixel_array min_p max_p)
      (DICOM.dcm_files this) output_dir output_format plot w.
Proof.
  rewrite batch_run. unfold DICOM.process_dynamic, make_output_dir, bind, path_exists.
  destruct (negb (pathlib.exists_ (fs w) output_dir)).
  - destruct (print _ w) as [[[]|e] w1]; [|reflexivity].
    destruct (path_mkdir output_dir w1) as [[[]|e] w2]; [apply dynamic_loop_batch|reflexivity].
  - cbv [ret]. apply dynamic_loop_batch.
Qed.

(** One round of the loop, by what the record holds. *)
Lemma batch_loop_raise dcmread normalise file rest output_path output_format plot acc w e :
  dcmread file = Raise e ->
  batch_loop dcmread normalise (file :: rest) output_path output_format plot acc w
  = (Raise e, w).
Proof. intros H. simpl. unfold bind, lift. rewrite H. reflexivity. Qed.

Lemma batch_loop_skip dcmread normalise file rest output_path output_format plot acc w ds :
  dcmread file = Ok ds -> pydicom.pixel_array ds = None ->
  batch_loop dcmread normalise (file :: rest) output_path output_format plot acc w
  = batch_loop dcmread normalise rest output_path output_format plot acc
      {| fs := fs w; stdout := stdout w ++ ["File has no pixel data...skipping"%string] |}.
Proof. intros H1 H2. simpl. unfold bind, lift. rewrite H1, H2. reflexivity. Qed.

Lemma batch_loop_refuse dcmread normalise file rest output_path output_format plot acc w ds pa e :
  dcmread file = Ok ds -> pydicom.pixel_array ds = Some pa -> normalise pa = Raise e ->
  batch_loop dcmread normalise (file :: rest) output_path output_format plot acc w
  = (Raise e, w).
Proof. intros H1 H2 H3. simpl. unfold bind, lift. rewrite H1, H2, H3. reflexivity. Qed.

Lemma batch_loop_export dcmread normalise file rest output_path output_format plot acc w ds pa u8 :
  dcmread file = Ok ds -> pydicom.pixel_array ds = Some pa -> normalise pa = Ok u8 ->
  batch_loop dcmread normalise (file :: rest) output_path output_format plot acc w
  = match DICOM._export u8 file output_path output_format plot w with
    | (Ok _, w') =>
        batch_loop dcmread normalise rest output_path output_format plot (acc ++ [u8]) w'
    | (Raise e, w') => (Raise e, w')
    end.
Proof.
  intros H1 H2 H3. simpl. unfold bind, lift. rewrite H1, H2, H3.
  destruct (DICOM._export u8 file output_path output_format plot w) as [[[]|e] w']; reflexivity.
Qed.

Lemma with_pixel_data_cons dcmread file rest ds pa :
  dcmread file = Ok ds -> pydicom.pixel_array ds = Some pa ->
  with_pixel_data dcmread (file :: rest) = file :: with_pixel_data dcmread rest.
Proof. intros H1 H2. unfold with_pixel_data. simpl. rewrite H1, H2. reflexivity. Qed.

Lemma with_pixel_data_skip dcmread file rest ds :
  dcmread file = Ok ds -> pydicom.pixel_array ds = None ->
  with_pixel_data dcmread (file :: rest) = with_pixel_data dcmread rest.
Proof. intros H1 H2. unfold with_pixel_data. simpl. rewrite H1, H2. reflexivity. Qed.

Lemma with_pixel_data_length dcmread files :
  (List.length (with_pixel_data dcmread files) <= List.length files)%nat.
Proof. apply filter_length_le. Qed.

Lemma pixel_arrays_cons dcmread file rest ds pa :
  dcmread file = Ok ds -> pydicom.pixel_array ds = Some pa ->
  pixel_arrays dcmread (file :: rest) = pa :: pixel_arrays dcmread rest.
Proof. intros H1 H2. unfold pixel_arrays. simpl. rewrite H1, H2. reflexivity. Qed.

Lemma pixel_arrays_skip dcmread file rest ds :
  dcmread file = Ok ds -> pydicom.pixel_array ds = None ->
  pixel_arrays dcmread (file :: rest) = pixel_arrays dcmread rest.
Proof. intros H1 H2. unfold pixel_arrays. simpl. rewrite H1, H2. reflexivity. Qed.

Lemma exportable_tail fs file rest output_dir format plot :
  exportable fs (file :: rest) output_dir format plot ->
  exportable fs rest output_dir format plot.
Proof. intros [HP HT]. split; [exact HP|]. intros f Hf. apply HT. right. exact Hf. Qed.

Section Batch.

Variable dcmread : pathlib.Path -> result pydicom.Dataset.
Variable normalise : np.int_array -> result (np.ndarray Z).
Variable output_path : pathlib.Path.
Variable output_format : image_format.
Variable plot : bool.

(** The case analysis of one round: what the record holds decides the
    equation of the loop. *)
Ltac round file rest acc w :=
  let ds := fresh "ds" in
  let pa := fresh "pa" in
  let u8 := fresh "u8" in
  let e := fresh "e" in
  let Er := fresh "Er" in
  let Ep := fresh "Ep" in
  let En := fresh "En" in
  destruct (dcmread file) as [ds|e] eqn:Er;
  [ destruct (pydicom.pixel_array ds) as [pa|] eqn:Ep;
    [ destruct (normalise pa) as [u8|e] eqn:En;
      [ rewrite (batch_loop_export dcmread normalise file rest output_path output_format
                   plot acc w ds pa u8 Er Ep En)
      | rewrite (batch_loop_refuse dcmread normalise file rest output_path output_format
                   plot acc w ds pa e Er Ep En) ]
    | rewrite (batch_loop_skip dcmread normalise file rest output_path output_format
                 plot acc w ds Er Ep) ]
  | rewrite (batch_loop_raise dcmread normalise file rest output_path output_format
               plot acc w e Er) ].

(** An entry that is there, and that no record is exported to, stays as it
    is, whatever the outcome of the loop. *)
Lemma batch_loop_keeps files : forall acc w q n,
  pathlib.lookup (fs w) q = Some n ->
  (forall file, In file (with_pixel_data dcmread files) ->
                q <> export_path file output_path output_format plot) ->
  pathlib.lookup
    (fs (snd (batch_loop dcmread normalise files output_path output_format plot acc w))) q
  = Some n.
Proof.
  induction files as [|file rest IH]; intros acc w q n H Hq; [exact H|].
  round file rest acc w; try exact H.
  - rewrite (with_pixel_data_cons _ _ _ _ _ Er Ep) in Hq.
    pose proof (export_keeps u8 file output_path output_format plot w q n H
                  (Hq file (or_introl eq_refl))) as H1.
    destruct (DICOM._export u8 file output_path output_format plot w) as [[[]|e] w'];
      [|exact H1].
    apply IH; [exact H1|]. intros f Hf. apply Hq. right. exact Hf.
  - rewrite (with_pixel_data_skip _ _ _ _ Er Ep) in Hq. apply IH; assumption.
Qed.

(** A path that is neither the subdirectory the images go to, nor above it,
    nor the path of an exported image, is left as it was, there or not. *)
Lemma batch_loop_frame files : forall acc w q,
  ~ In q (pathlib.prefixes (output_path ++ [export_subdir plot])) ->
  (forall file, In file (with_pixel_data dcmread files) ->
                q <> export_path file output_path output_format plot) ->
  pathlib.lookup
    (fs (snd (batch_loop dcmread normalise files output_path output_format plot acc w))) q
  = pathlib.lookup (fs w) q.
Proof.
  induction files as [|file rest IH]; intros acc w q Hd Hq; [reflexivity|].
  round file rest acc w; try reflexivity.
  - rewrite (with_pixel_data_cons _ _ _ _ _ Er Ep) in Hq.
    pose proof (export_frame u8 file output_path output_format plot w q Hd
                  (Hq file (or_introl eq_refl))) as H1.
    destruct (DICOM._export u8 file output_path output_format plot w) as [[[]|e] w'];
      [|exact H1].
    rewrite IH; [exact H1|exact Hd|]. intros f Hf. apply Hq. right. exact Hf.
  - rewrite (with_pixel_data_skip _ _ _ _ Er Ep) in Hq. rewrite IH by assumption. reflexivity.
Qed.

(** Two loops that both return, return the same arrays, wherever they
    export to. *)
Lemma batch_loop_same_result files : forall output_path' output_format' plot' acc w w' out out',
  fst (batch_loop dcmread normalise files output_path output_format plot acc w) = Ok out ->
  fst (batch_loop dcmread normalise files output_path' output_format' plot' acc w') = Ok out' ->
  out = out'.
Proof.
  induction files as [|file rest IH]; intros output_path' output_format' plot' acc w w' out out'.
  - simpl. congruence.
  - destruct (dcmread file) as [ds|e] eqn:Er;
      [|rewrite !(batch_loop_raise _ _ _ _ _ _ _ _ _ e Er); discriminate].
    destruct (pydicom.pixel_array ds) as [pa|] eqn:Ep;
      [|rewrite !(batch_loop_skip _ _ _ _ _ _ _ _ _ ds Er Ep); apply IH].
    destruct (normalise pa) as [u8|e] eqn:En;
      [|rewrite !(batch_loop_refuse _ _ _ _ _ _ _ _ _ ds pa e Er Ep En); discriminate].
    rewrite !(batch_loop_export _ _ _ _ _ _ _ _ _ ds pa u8 Er Ep En).
    destruct (DICOM._export u8 file output_path output_format plot w) as [[[]|e] w1];
      [|discriminate].
    destruct (DICOM._export u8 file output_path' output_format' plot' w') as [[[]|e] w1'];
      [|discriminate].
    apply IH.
Qed.

(** What follows is for a normaliser that returns on every array that is not
    of size zero, as both do. *)
Hypothesis normalise_returns :
  forall pa, np.ravel (np.data pa) <> [] -> exists u8, normalise pa = Ok u8.

(** Over records that can be read, in an output location that can be
    written to, the loop returns: the arrays are those of the records with
    pixel data, in order; one line is printed per record without; the image
    of a record is at its export path, unless a later record was exported
    there; the subdirectory is there once a record has been exported. *)
Lemma batch_loop_succeeds files : forall acc w,
  Forall (readable dcmread) files ->
  exportable (fs w) files output_path output_format plot ->
  exists out w',
    batch_loop dcmread normalise files output_path output_format plot acc w
    = (Ok (acc ++ out), w')
    /\ Forall2 (fun pixel_array u8 => normalise pixel_array = Ok u8)
         (pixel_arrays dcmread files) out
    /\ stdout w'
       = stdout w
         ++ repeat "File has no pixel data...skipping"%string
              (List.length files - List.length (with_pixel_data dcmread files))
    /\ (with_pixel_data dcmread files <> [] ->
        pathlib.lookup (fs w') (output_path ++ [export_subdir plot]) = Some pathlib.Dir)
    /\ (NoDup (map (fun file => export_path file output_path output_format plot)
                 (with_pixel_data dcmread files)) ->
        Forall2 (fun file u8 =>
                   (exists ds pa, dcmread file = Ok ds /\ pydicom.pixel_array ds = Some pa
                                  /\ normalise pa = Ok u8)
                   /\ pathlib.lookup (fs w')
                        (export_path file output_path output_format plot)
                      = Some (pathlib.File (Some u8)))
          (with_pixel_data dcmread files) out).
Proof.
  induction files as [|file rest IH]; intros acc w Hall Hx.
  - exists [], w. simpl. rewrite !app_nil_r.
    split; [reflexivity|]. split; [constructor|]. split; [reflexivity|].
    split; [intros H; contradiction|]. intros _. constructor.
  - inversion Hall as [|? ? (ds' & Hr & Hne) Hrest]; subst.
    pose proof (with_pixel_data_length dcmread rest) as Hlen.
    round file rest acc w.
    + injection Hr as <-. rewrite Ep in Hne.
      destruct (export_succeeds u8 file rest output_path output_format plot w Hx)
        as (w1 & Hexp & Hout1 & Himg & Hsub & Hx1).
      rewrite Hexp.
      destruct (IH (acc ++ [u8]) w1 Hrest Hx1) as (out & w' & Hrun & Hf & Hout & Hdir & Hsaved).
      exists (u8 :: out), w'. rewrite Hrun, <- app_assoc.
      rewrite (pixel_arrays_cons _ _ _ _ _ Er Ep), (with_pixel_data_cons _ _ _ _ _ Er Ep).
      split; [reflexivity|]. split; [constructor; assumption|].
      split; [rewrite Hout, Hout1; reflexivity|].
      assert (Hw' : w' = snd (batch_loop dcmread normalise rest output_path output_format
                                plot (acc ++ [u8]) w1)) by (rewrite Hrun; reflexivity).
      split.
      * intros _. rewrite Hw'. apply batch_loop_keeps; [exact Hsub|].
        intros f _. apply export_path_neq_subdir. apply In_prefixes_self.
        destruct output_path; discriminate.
      * intros Hnd. simpl in Hnd. apply NoDup_cons_iff in Hnd. destruct Hnd as [Hnotin Hnd'].
        constructor; [|apply Hsaved; exact Hnd']. split; [exists ds, pa; auto|].
        rewrite Hw'. apply batch_loop_keeps; [exact Himg|].
        intros f Hf' Heq. apply Hnotin. rewrite Heq.
        apply (in_map (fun file => export_path file output_path output_format plot)). exact Hf'.
    + injection Hr as <-. rewrite Ep in Hne.
      destruct (normalise_returns pa Hne) as (u8 & Hu). congruence.
    + rewrite (pixel_arrays_skip _ _ _ _ Er Ep), (with_pixel_data_skip _ _ _ _ Er Ep).
      destruct (IH acc {| fs := fs w;
                          stdout := stdout w ++ ["File has no pixel data...skipping"%string] |}
                  Hrest (exportable_tail _ _ _ _ _ _ Hx))
        as (out & w' & Hrun & Hf & Hout & Hdir & Hsaved).
      exists out, w'. split; [exact Hrun|]. split; [exact Hf|].
      split; [|split; assumption].
      rewrite Hout. simpl stdout. rewrite <- app_assoc. f_equal.
      replace (List.length (file :: rest) - List.length (with_pixel_data dcmread rest))%nat
        with (S (List.length rest - List.length (with_pixel_data dcmread rest)))
        by (simpl List.length; lia).
      reflexivity.
    + congruence.
Qed.

(** A record that cannot be read, or whose pixel array is of size zero, ends
    the loop with its exception; the state is the one the records before it
    left. *)
Hypothesis normalise_refuses :
  forall pa, np.ravel (np.data pa) = [] -> exists e, normalise pa = Raise e.

Lemma batch_loop_aborts before bad after : forall acc w,
  Forall (readable dcmread) before ->
  exportable (fs w) before output_path output_format plot ->
  ~ readable dcmread bad ->
  exists e,
    batch_loop dcmread normalise (before ++ bad :: after) output_path output_format plot acc w
    = (Raise e,
       snd (batch_loop dcmread normalise before output_path output_format plot acc w))
    /\ (dcmread bad = Raise e
        \/ exists ds pa, dcmread bad = Ok ds /\ pydicom.pixel_array ds = Some pa
                         /\ normalise pa = Raise e).
Proof.
  induction before as [|file rest IH]; intros acc w Hall Hx Hbad.
  - simpl app.
    replace (snd (batch_loop dcmread normalise [] output_path output_format plot acc w))
      with w by reflexivity.
    round bad after acc w.
    + exfalso. apply Hbad. exists ds. split; [exact Er|]. rewrite Ep.
      intros He. destruct (normalise_refuses pa He) as (e & H). congruence.
    + exists e. split; [reflexivity|]. right. exists ds, pa. auto.
    + exfalso. apply Hbad. exists ds. split; [exact Er|]. rewrite Ep. exact I.
    + exists e. split; [reflexivity|]. left. reflexivity.
  - inversion Hall as [|? ? (ds' & Hr & Hne) Hrest]; subst.
    rewrite <- app_comm_cons.
    destruct (dcmread file) as [ds|e] eqn:Er; [|congruence].
    destruct (pydicom.pixel_array ds) as [pa|] eqn:Ep.
    + injection Hr as <-. rewrite Ep in Hne.
      destruct (normalise_returns pa Hne) as (u8 & Hu).
      rewrite !(batch_loop_export dcmread normalise file _ output_path output_format
                  plot acc w ds pa u8 Er Ep Hu).
      destruct (export_succeeds u8 file rest output_path output_format plot w Hx)
        as (w1 & Hexp & _ & _ & _ & Hx1).
      rewrite Hexp. apply IH; assumption.
    + rewrite !(batch_loop_skip dcmread normalise file _ output_path output_format
                  plot acc w ds Er Ep).
      apply IH; try assumption. apply (exportable_tail _ _ _ _ _ _ Hx).
Qed.

End Batch.

(** * A run of a method *)

Section Run.

Variable dcmread : pathlib.Path -> result pydicom.Dataset.
Variable normalise : np.int_array -> result (np.ndarray Z).
Variable files : list pathlib.Path.
Variable output_dir : pathlib.Path.
Variable output_format : image_format.
Variable plot : bool.
Variable w : world.

(** Whatever the outcome of the run, an entry that is there stays as it is
    unless a record is exported to its path, ... *)
Lemma run_keeps q n :
  pathlib.lookup (fs w) q = Some n ->
  (forall file, In file files -> q <> export_path file output_dir output_format plot) ->
  pathlib.lookup
    (fs (snd (batch dcmread normalise files output_dir output_format plot w))) q
  = Some n.
Proof.
  intros H Hq. rewrite batch_run.
  pose proof (make_output_dir_keeps output_dir w q n H) as H1.
  destruct (make_output_dir output_dir w) as [[[]|e] w1]; [|exact H1].
  apply batch_loop_keeps; [exact H1|].
  intros file Hf. apply Hq. unfold with_pixel_data in Hf. apply filter_In in Hf. apply Hf.
Qed.

(** ... and nothing at or below the other subdirectory is touched. *)
Lemma run_other_subdir rest :
  pathlib.lookup
    (fs (snd (batch dcmread normalise files output_dir output_format plot w)))
    (output_dir ++ export_subdir (negb plot) :: rest)
  = pathlib.lookup (fs w) (output_dir ++ export_subdir (negb plot) :: rest).
Proof.
  assert (Hsub : export_subdir plot <> export_subdir (negb plot)) by (destruct plot; discriminate).
  assert (Hp : ~ In (output_dir ++ export_subdir (negb plot) :: rest)
                 (pathlib.prefixes output_dir)).
  { intros Hin. apply In_prefixes in Hin. destruct Hin as (r & Hr).
    rewrite <- app_assoc in Hr. rewrite <- (app_nil_r output_dir) in Hr at 1.
    apply app_inv_head in Hr. discriminate. }
  rewrite batch_run.
  pose proof (make_output_dir_frame output_dir w _ Hp) as H1.
  destruct (make_output_dir output_dir w) as [[[]|e] w1]; [|exact H1].
  rewrite batch_loop_frame; [exact H1| |].
  - rewrite prefixes_app. intros Hin. apply in_app_or in Hin. destruct Hin as [Hin|[Heq|[]]].
    + exact (Hp Hin).
    + apply app_inv_head in Heq. injection Heq as Heq _. exact (Hsub Heq).
  - intros file _ Heq. unfold export_path in Heq. apply app_inv_head in Heq.
    injection Heq as Heq _. apply Hsub. symmetry. exact Heq.
Qed.

(** Two runs that both return, return the same arrays. *)
Lemma run_same_result output_dir' output_format' plot' w' out out' :
  fst (batch dcmread normalise files output_dir output_format plot w) = Ok out ->
  fst (batch dcmread normalise files output_dir' output_format' plot' w') = Ok out' ->
  out = out'.
Proof.
  rewrite !batch_run.
  destruct (make_output_dir output_dir w) as [[[]|e] w1]; [|discriminate].
  destruct (make_output_dir output_dir' w') as [[[]|e] w1']; [|discriminate].
  apply batch_loop_same_result.
Qed.

(** The output directory is there after a run, whatever its outcome, when no
    regular file stands at it or above it. *)
Lemma run_output_dir :
  (forall q pixels, In q (pathlib.prefixes output_dir) ->
                    pathlib.lookup (fs w) q <> Some (pathlib.File pixels)) ->
  output_dir <> [] ->
  pathlib.lookup
    (fs (snd (batch dcmread normalise files output_dir output_format plot w))) output_dir
  = Some pathlib.Dir.
Proof.
  intros HP Hne. rewrite batch_run.
  destruct (make_output_dir_returns output_dir w HP) as (w1 & Hmk & _ & Hdir).
  rewrite Hmk. apply batch_loop_keeps; [exact (Hdir Hne)|].
  intros file _ Heq. unfold export_path in Heq.
  rewrite <- (app_nil_r output_dir) in Heq at 1. apply app_inv_head in Heq. discriminate.
Qed.

Hypothesis normalise_returns :
  forall pa, np.ravel (np.data pa) <> [] -> exists u8, normalise pa = Ok u8.

(** Over records that can be read, in an output location that can be
    written to, the run returns. *)
Lemma run_succeeds :
  Forall (readable dcmread) files ->
  exportable (fs w) files output_dir output_format plot ->
  exists out w',
    batch dcmread normalise files output_dir output_format plot w = (Ok out, w')
    /\ Forall2 (fun pixel_array u8 => normalise pixel_array = Ok u8)
         (pixel_arrays dcmread files) out
    /\ stdout w'
       = stdout w
         ++ (if pathlib.exists_ (fs w) output_dir then []
             else ["Provided path does not exist...creating path"%string])
         ++ repeat "File has no pixel data...skipping"%string
              (List.length files - List.length (with_pixel_data dcmread files))
    /\ (output_dir <> [] -> pathlib.lookup (fs w') output_dir = Some pathlib.Dir)
    /\ (with_pixel_data dcmread files <> [] ->
        pathlib.lookup (fs w') (output_dir ++ [export_subdir plot]) = Some pathlib.Dir)
    /\ (NoDup (map (fun file => export_path file output_dir output_format plot)
                 (with_pixel_data dcmread files)) ->
        Forall2 (fun file u8 =>
                   (exists ds pa, dcmread file = Ok ds /\ pydicom.pixel_array ds = Some pa
                                  /\ normalise pa = Ok u8)
                   /\ pathlib.lookup (fs w')
                        (export_path file output_dir output_format plot)
                      = Some (pathlib.File (Some u8)))
          (with_pixel_data dcmread files) out).
Proof.
  intros Hall Hx. rewrite batch_run.
  destruct (make_output_dir_succeeds files output_dir output_format plot w Hx)
    as (w1 & Hmk & Hout1 & Hdir1 & Hx1).
  rewrite Hmk.
  destruct (batch_loop_succeeds dcmread normalise output_dir output_format plot
              normalise_returns files [] w1 Hall Hx1)
    as (out & w' & Hrun & Hf & Hout & Hsub & Hsaved).
  exists out, w'. split; [exact Hrun|]. split; [exact Hf|].
  split; [rewrite Hout, Hout1, <- app_assoc; reflexivity|].
  split; [|split; assumption].
  intros Hne.
  replace w' with (snd (batch_loop dcmread normalise files output_dir output_format plot [] w1))
    by (rewrite Hrun; reflexivity).
  apply batch_loop_keeps; [exact (Hdir1 Hne)|].
  intros file _ Heq. unfold export_path in Heq.
  rewrite <- (app_nil_r output_dir) in Heq at 1. apply app_inv_head in Heq. discriminate.
Qed.

End Run.

Section Abort.

Variable dcmread : pathlib.Path -> result pydicom.Dataset.
Variable normalise : np.int_array -> result (np.ndarray Z).

Hypothesis normalise_returns :
  forall pa, np.ravel (np.data pa) <> [] -> exists u8, normalise pa = Ok u8.
Hypothesis normalise_refuses :
  forall pa, np.ravel (np.data pa) = [] -> exists e, normalise pa = Raise e.

(** A record that cannot be read ends the run with its exception, in the
    state the records before it left. *)
Lemma run_aborts before bad after output_dir output_format plot w :
  Forall (readable dcmread) before ->
  exportable (fs w) before output_dir output_format plot ->
  ~ readable dcmread bad ->
  exists e,
    batch dcmread normalise (before ++ bad :: after) output_dir output_format plot w
    = (Raise e, snd (batch dcmread normalise before output_dir output_format plot w))
    /\ (dcmread bad = Raise e
        \/ exists ds pa, dcmread bad = Ok ds /\ pydicom.pixel_array ds = Some pa
                         /\ normalise pa = Raise e).
Proof.
  intros Hall Hx Hbad. rewrite !batch_run.
  destruct (make_output_dir_succeeds before output_dir output_format plot w Hx)
    as (w1 & Hmk & _ & _ & Hx1).
  rewrite Hmk.
  apply (batch_loop_aborts dcmread normalise output_dir output_format plot
           normalise_returns normalise_refuses); assumption.
Qed.

End Abort.

(** * Properties of the normalisers, of construction and of the batch loop *)

(** C1 (the code departs from the claim): the caller's bounds are not
    honoured.  For every pixel array and every [min_p] and [max_p],
    [hounsfield_min] and [hounsfield_max] are the array's observed minimum
    and maximum; on the example array with the window (50, 150), which the
    specification resolves to (50, 150), the code normalises over (0, 200)
    and returns what it returns with no window at all. *)
Theorem caller_bounds_discarded :
  (forall pixel_array min_p max_p,
      DICOM.hounsfield_min pixel_array min_p = np.min pixel_array
      /\ DICOM.hounsfield_max pixel_array max_p = np.max pixel_array)
  /\ spec_effective_window example_array (Some 50) (Some 150) = Ok (50, 150)
  /\ DICOM.hounsfield_min example_array (Some 50) = Ok 0
  /\ DICOM.hounsfield_max example_array (Some 150) = Ok 200
  /\ (forall invalid,
         DICOM.pixel_array_norm_u8 invalid example_array (Some 50) (Some 150)
         = Ok [[0; 63]; [127; 255]]).
Proof.
  split; [|split; [|split; [|split]]].
  - intros pixel_array min_p max_p. split; [apply hounsfield_min_eq|apply hounsfield_max_eq].
  - reflexivity.
  - reflexivity.
  - reflexivity.
  - intros invalid. vm_compute. reflexivity.
Qed.



(** C3 (the code departs from the claim): a window of zero range does not
    give an all-zero array.  With the caller's window (100, 100), which the
    specification resolves to a zero range, the code ignores both bounds and
    returns the array it returns with no window.  And when the window the code
    itself resolves has [hounsfield_max = hounsfield_min] (a constant array),
    nothing is raised, but there is no guard for the zero range: every sample
    is computed as 0 / 0, which is NaN, and the result holds, at every
    position, what the conversion to [uint8] stores for NaN. *)
Theorem dynamic_zero_range :
  (spec_effective_window example_array (Some 100) (Some 100) = Ok (100, 100)
   /\ forall invalid,
        DICOM.pixel_array_norm_u8 invalid example_array (Some 100) (Some 100)
        = Ok [[0; 63]; [127; 255]])
  /\ (forall invalid pixel_array min_p max_p lo hi,
         DICOM.hounsfield_min pixel_array min_p = Ok lo ->
         DICOM.hounsfield_max pixel_array max_p = Ok hi ->
         hi = lo ->
         DICOM.pixel_array_norm_u8 invalid pixel_array min_p max_p
         = Ok (np.elementwise (fun _ => invalid Float64.nan) (np.data pixel_array)))
  /\ (forall invalid,
         DICOM.pixel_array_norm_u8 invalid
           {| np.dt := np.int16; np.data := [[7; 7]; [7; 7]] |} None None
         = Ok [[invalid Float64.nan; invalid Float64.nan];
               [invalid Float64.nan; invalid Float64.nan]]).
Proof.
  split; [split; [reflexivity|intros invalid; vm_compute; reflexivity]|].
  split; [|intros invalid; vm_compute; reflexivity].
  intros invalid pixel_array min_p max_p lo hi.
  intros Hlo Hhi ->. unfold DICOM.pixel_array_norm_u8. rewrite Hlo, Hhi. simpl rbind.
  rewrite hounsfield_min_eq in Hlo. rewrite hounsfield_max_eq in Hhi.
  unfold np.min, np.max, np.reduce in Hlo, Hhi.
  destruct (np.ravel (np.data pixel_array)) as [|x0 xs] eqn:Er; [discriminate|].
  injection Hlo as Hlo. injection Hhi as Hhi.
  assert (Hall : forall x, In x (np.ravel (np.data pixel_array)) -> x = lo).
  { intros x Hx. rewrite Er in Hx.
    pose proof (fold_min_le xs x0 x Hx). pose proof (fold_max_ge xs x0 x Hx). lia. }
  rewrite Z.sub_diag, wrap_0.
  unfold np.uint8, np.multiply, np.int_true_divide, np.subtract, np.clip_above, np.clip_below.
  simpl np.data. simpl np.dt. rewrite !elementwise_compose.
  f_equal. apply elementwise_ext_in. intros x Hx. rewrite (Hall x Hx).
  rewrite Z.ltb_irrefl. rewrite Z.gtb_ltb, Z.ltb_irrefl.
  rewrite Z.sub_diag, wrap_0. reflexivity.
Qed.

(** C4, as stated, fails: with the caller's window (150, 50), which the
    specification resolves to a high bound below the low bound, the dynamic
    normaliser returns an array. *)
Lemma reversed_window_not_refused :
  spec_effective_window example_array (Some 150) (Some 50) = Ok (150, 50)
  /\ 50 < 150
  /\ DICOM.pixel_array_norm_u8 invalid_as_zero example_array (Some 150) (Some 50)
     = Ok [[0; 63]; [127; 255]].
Proof. repeat split; vm_compute; reflexivity. Qed.

(** C4 (amended): the dynamic normaliser never fails on account of the
    window: for every pixel array that is not of size zero and every [min_p]
    and [max_p], [max_p] below [min_p] included, it returns an array. *)
Theorem dynamic_never_refuses_window invalid pixel_array min_p max_p :
  np.ravel (np.data pixel_array) <> [] ->
  exists out, DICOM.pixel_array_norm_u8 invalid pixel_array min_p max_p = Ok out.
Proof.
  intros H. unfold DICOM.pixel_array_norm_u8.
  rewrite hounsfield_min_eq, hounsfield_max_eq. unfold np.min, np.max.
  destruct (reduce_nonempty Z.min _ H) as (lo & ->).
  destruct (reduce_nonempty Z.max _ H) as (hi & ->).
  simpl. eauto.
Qed.

Lemma dynamic_never_refuses_window_witness :
  exists out,
    DICOM.pixel_array_norm_u8 invalid_as_zero example_array (Some 150) (Some 50) = Ok out.
Proof.
  apply (dynamic_never_refuses_window invalid_as_zero example_array (Some 150) (Some 50)).
  discriminate.
Defined.

(** C5, as stated, fails: an array that holds its maximum twice has two
    samples equal to 255. *)
Lemma static_maximum_twice :
  DICOM.pixel_array_pos_norm_u8 invalid_as_zero {| np.dt := np.uint16; np.data := [[5; 5]] |}
  = Ok [[255; 255]]
  /\ count_occ Z.eq_dec (np.ravel [[255; 255]]) 255 = 2%nat.
Proof. split; vm_compute; reflexivity. Qed.

(** C5 (amended): for every array whose samples are below 2^43 and whose
    maximum [M] is positive, every sample of the static normaliser's result
    lies in 0..255, a sample is 255 exactly where the array holds [M], and
    at least one sample is 255. *)
Theorem static_maximum_maps_to_255 invalid pixel_array M :
  Forall (fun x => x < 2 ^ 43) (np.ravel (np.data pixel_array)) ->
  np.reduce Z.max (np.elementwise (fun x => Z.max x 0) (np.data pixel_array)) = Ok M ->
  0 < M ->
  exists out,
    DICOM.pixel_array_pos_norm_u8 invalid pixel_array = Ok out
    /\ Forall (fun y => 0 <= y <= 255) (np.ravel out)
    /\ Forall2 (fun x y => y = 255 <-> x = M) (np.ravel (np.data pixel_array)) (np.ravel out)
    /\ In 255 (np.ravel out).
Proof.
  intros Hb HM Hpos.
  assert (HMb : M < 2 ^ 43).
  { destruct (max_attained _ M HM) as (z & Hz & Hmax).
    rewrite Forall_forall in Hb. specialize (Hb z Hz). lia. }
  assert (Hf : forall x, In x (np.ravel (np.data pixel_array)) ->
                 np.to_uint8 invalid
                   (Float64.mul (Float64.div (Float64.of_Z (Z.max x 0)) (Float64.of_Z M))
                                (Float64.of_Z 255))
                 = 255 * Z.max x 0 / M
                 /\ 0 <= 255 * Z.max x 0 / M <= 255
                 /\ (255 * Z.max x 0 / M = 255 <-> x = M)).
  { intros x Hx. pose proof (clamped_le_max _ M x HM Hx) as Hle.
    split; [apply to_uint8_scale; lia|]. split; [split|split].
    - apply Z.div_pos; lia.
    - apply Z.div_le_upper_bound; lia.
    - intros H. destruct (Z.eq_dec (Z.max x 0) M) as [E|E]; [lia|].
      assert (255 * Z.max x 0 / M < 255) by (apply Z.div_lt_upper_bound; lia). lia.
    - intros ->. replace (Z.max M 0) with M by lia. apply Z.div_mul. lia. }
  eexists. split; [apply (static_samples invalid pixel_array M Hb HM)|].
  rewrite ravel_elementwise. split; [|split].
  - apply Forall_forall. intros y Hy. apply in_map_iff in Hy.
    destruct Hy as (x & <- & Hx). destruct (Hf x Hx) as (-> & Hr & _). exact Hr.
  - apply Forall2_map_r. intros x Hx. destruct (Hf x Hx) as (-> & _ & Hiff). exact Hiff.
  - destruct (max_attained _ M HM) as (z & Hz & Hmax).
    apply in_map_iff. exists z. split; [|assumption].
    destruct (Hf z Hz) as (-> & _ & Hiff). apply Hiff. lia.
Qed.

Lemma static_maximum_maps_to_255_witness :
  exists out,
    DICOM.pixel_array_pos_norm_u8 invalid_as_zero example_array = Ok out
    /\ Forall (fun y => 0 <= y <= 255) (np.ravel out)
    /\ Forall2 (fun x y => y = 255 <-> x = 200) (np.ravel (np.data example_array)) (np.ravel out)
    /\ In 255 (np.ravel out).
Proof.
  apply (static_maximum_maps_to_255 invalid_as_zero example_array 200).
  - repeat constructor.
  - reflexivity.
  - reflexivity.
Defined.

(** C6, as stated, fails: the static normaliser does not return
    [[0, 64], [128, 255]] for the example array. *)
Lemma static_example_not_rounded :
  DICOM.pixel_array_pos_norm_u8 invalid_as_zero example_array <> Ok [[0; 64]; [128; 255]].
Proof. vm_compute. discriminate. Qed.

(** C6 (amended): static normalisation of [[0, 50], [100, 200]] yields
    exactly [[0, 63], [127, 255]]: 63.75 and 127.5 are truncated. *)
Theorem static_example_truncated :
  forall invalid,
    DICOM.pixel_array_pos_norm_u8 invalid example_array = Ok [[0; 63]; [127; 255]].
Proof. intros invalid. vm_compute. reflexivity. Qed.





(** The run of that example, evaluated: the three records are those of the
    directory; the second has no pixel data, so two arrays come back, those
    of the first and of the third record in that order, and two images are
    written under [out/img]. *)
Example process_static_example :
  DICOM.__init__ example_batch ["batch"%string] = Ok example_records
  /\ DICOM.process_static invalid_as_zero example_dcmread example_records
       ["out"%string] png false {| fs := example_batch; stdout := [] |}
     = (Ok [ [[0; 63]; [127; 255]]; [[0; 63]; [191; 255]] ],
        {| fs := example_batch
                 ++ [ (["out"%string], pathlib.Dir);
                      (["out"%string; "img"%string], pathlib.Dir);
                      (["out"%string; "img"%string; "r1.png"%string],
                       pathlib.File (Some [[0; 63]; [127; 255]]));
                      (["out"%string; "img"%string; "r3.png"%string],
                       pathlib.File (Some [[0; 63]; [191; 255]])) ];
           stdout := [ "Provided path does not exist...creating path"%string;
                       "File has no pixel data...skipping"%string ] |}).
Proof. split; vm_compute; reflexivity. Qed.

(** C9: what [process_dynamic] returns, and the state it leaves, do not
    depend on [min_p] and [max_p]. *)
Theorem process_dynamic_ignores_bounds :
  forall invalid dcmread this output_dir min_p max_p min_p' max_p' output_format plot w,
    DICOM.process_dynamic invalid dcmread this output_dir min_p max_p output_format plot w
    = DICOM.process_dynamic invalid dcmread this output_dir min_p' max_p' output_format plot w.
Proof.
  intros. unfold DICOM.process_dynamic, bind, path_exists.
  destruct (negb (pathlib.exists_ (fs w) output_dir)).
  - destruct (print _ w) as [[[]|e] w1]; [|reflexivity].
    destruct (path_mkdir output_dir w1) as [[[]|e] w2]; [|reflexivity].
    apply dynamic_loop_bounds.
  - cbv [ret]. apply dynamic_loop_bounds.
Qed.

(** C10, as stated, fails beyond binary64: 2^60 - 1 converts to the float
    2^60, so next to a maximum of 2^60 it maps to 255, not to
    floor(255 * (2^60 - 1) / 2^60) = 254. *)
Lemma static_floor_needs_exact_floats :
  DICOM.pixel_array_pos_norm_u8 invalid_as_zero
    {| np.dt := {| np.signed := false; np.bits := 64 |}; np.data := [[2 ^ 60 - 1; 2 ^ 60]] |}
  = Ok [[255; 255]]
  /\ 255 * Z.max (2 ^ 60 - 1) 0 / 2 ^ 60 = 254.
Proof. split; vm_compute; reflexivity. Qed.

(** C10 (amended): for every array whose samples are below 2^43 (every 8-,
    16- and 32-bit pixel format) and whose maximum [M] after clamping the
    negatives to zero is positive, each sample of the static normaliser's
    result is floor(255 * max(x, 0) / M): the conversion truncates. *)
Theorem static_output_is_floor invalid pixel_array M :
  Forall (fun x => x < 2 ^ 43) (np.ravel (np.data pixel_array)) ->
  np.reduce Z.max (np.elementwise (fun x => Z.max x 0) (np.data pixel_array)) = Ok M ->
  0 < M ->
  DICOM.pixel_array_pos_norm_u8 invalid pixel_array
  = Ok (np.elementwise (fun x => 255 * Z.max x 0 / M) (np.data pixel_array)).
Proof.
  intros Hb HM Hpos. rewrite (static_samples invalid pixel_array M Hb HM).
  f_equal. apply elementwise_ext_in. intros x Hx.
  pose proof (clamped_le_max _ M x HM Hx) as Hle.
  destruct (max_attained _ M HM) as (z & Hz & Hmax).
  rewrite Forall_forall in Hb. specialize (Hb z Hz).
  apply to_uint8_scale; lia.
Qed.

Lemma static_output_is_floor_witness :
  DICOM.pixel_array_pos_norm_u8 invalid_as_zero example_array
  = Ok (np.elementwise (fun x => 255 * Z.max x 0 / 200) (np.data example_array)).
Proof.
  apply (static_output_is_floor invalid_as_zero example_array 200).
  - repeat constructor.
  - reflexivity.
  - reflexivity.
Defined.

(** * Further properties

    What follows goes beyond the claims above: the dynamic normaliser sample
    by sample, order and changes of scale, names, the two methods under a
    run, and [main]. *)

(** * The dynamic normaliser: samples *)

Lemma wrap_below t z z' : np.wrap t z = z -> 0 <= z' <= z -> np.wrap t z' = z'.
Proof.
  unfold np.wrap. intros Hz Hz'.
  assert (Hh : 0 <= 2 ^ (np.bits t - 1)) by (apply Z.pow_nonneg; lia).
  assert (Hm : 0 <= 2 ^ np.bits t) by (apply Z.pow_nonneg; lia).
  destruct (Z.eq_dec (2 ^ np.bits t) 0) as [E|E].
  - assert (Hneg : np.bits t < 0).
    { destruct (Z.lt_ge_cases (np.bits t) 0) as [H|H]; [exact H|].
      pose proof (pow2_pos (np.bits t) H). lia. }
    rewrite (Z.pow_neg_r 2 (np.bits t - 1)) in * by lia.
    rewrite E. destruct (np.signed t); rewrite ?Z.mod_0_r; lia.
  - destruct (np.signed t).
    + pose proof (Z.mod_pos_bound (z + 2 ^ (np.bits t - 1)) (2 ^ np.bits t) ltac:(lia)).
      rewrite Z.mod_small; lia.
    + pose proof (Z.mod_pos_bound z (2 ^ np.bits t) ltac:(lia)).
      rewrite Z.mod_small; lia.
Qed.

Lemma min_max_bounds pa lo hi x :
  np.min pa = Ok lo -> np.max pa = Ok hi -> In x (np.ravel (np.data pa)) -> lo <= x <= hi.
Proof.
  unfold np.min, np.max, np.reduce. intros Hlo Hhi Hx.
  destruct (np.ravel (np.data pa)) as [|x0 xs]; [contradiction|].
  injection Hlo as <-. injection Hhi as <-.
  split; [apply fold_min_le|apply fold_max_ge]; assumption.
Qed.

Lemma fold_min_in ys : forall y0, In (fold_left Z.min ys y0) (y0 :: ys).
Proof.
  induction ys as [|z ys IH]; intros y0; simpl.
  - left. reflexivity.
  - destruct (IH (Z.min y0 z)) as [H|H].
    + rewrite <- H. destruct (Z.min_spec y0 z) as [[_ ->]|[_ ->]]; auto.
    + right. right. assumption.
Qed.

Lemma min_attained pa lo : np.min pa = Ok lo -> In lo (np.ravel (np.data pa)).
Proof.
  unfold np.min, np.reduce. intros H.
  destruct (np.ravel (np.data pa)) as [|x0 xs]; [discriminate|].
  injection H as <-. apply fold_min_in.
Qed.

Lemma int_max_attained pa hi : np.max pa = Ok hi -> In hi (np.ravel (np.data pa)).
Proof.
  unfold np.max, np.reduce. intros H.
  destruct (np.ravel (np.data pa)) as [|x0 xs]; [discriminate|].
  injection H as <-. apply fold_max_in.
Qed.

(** The samples of the dynamic normaliser when the range is positive and fits
    the dtype: nothing is clipped, nothing wraps. *)
Lemma dynamic_samples invalid pa min_p max_p lo hi :
  np.min pa = Ok lo -> np.max pa = Ok hi ->
  lo < hi -> hi - lo < 2 ^ 43 ->
  np.wrap (np.dt pa) (hi - lo) = hi - lo ->
  DICOM.pixel_array_norm_u8 invalid pa min_p max_p
  = Ok (np.elementwise (fun x => 255 * (x - lo) / (hi - lo)) (np.data pa)).
Proof.
  intros Hlo Hhi Hlt Hb Hw. unfold DICOM.pixel_array_norm_u8.
  rewrite hounsfield_min_eq, hounsfield_max_eq, Hlo, Hhi. simpl rbind. rewrite Hw.
  unfold np.uint8, np.multiply, np.int_true_divide, np.subtract, np.clip_above, np.clip_below.
  simpl np.data. simpl np.dt. rewrite !elementwise_compose.
  f_equal. apply elementwise_ext_in. intros x Hx.
  pose proof (min_max_bounds pa lo hi x Hlo Hhi Hx) as Hr.
  destruct (Z.ltb_spec x lo) as [H|_]; [lia|].
  rewrite Z.gtb_ltb. destruct (Z.ltb_spec hi x) as [H|_]; [lia|].
  rewrite (wrap_below (np.dt pa) (hi - lo) (x - lo) Hw) by lia.
  apply to_uint8_scale; lia.
Qed.

(** ** Order, extremes and changes of scale *)

Lemma floor_scale_range x M : 0 <= x <= M -> 0 < M -> 0 <= 255 * x / M <= 255.
Proof.
  intros Hx HM. split; [apply Z.div_pos; lia|apply Z.div_le_upper_bound; lia].
Qed.

Lemma floor_scale_top x M : 0 <= x <= M -> 0 < M -> (255 * x / M = 255 <-> x = M).
Proof.
  intros Hx HM. split.
  - intros H. destruct (Z.eq_dec x M) as [E|E]; [exact E|].
    assert (255 * x / M < 255) by (apply Z.div_lt_upper_bound; lia). lia.
  - intros ->. apply Z.div_mul. lia.
Qed.

Lemma floor_scale_mono x x' M : 0 < M -> x <= x' -> 255 * x / M <= 255 * x' / M.
Proof. intros HM Hx. apply Z.div_le_mono; lia. Qed.

Lemma Forall2_map_pairs {A B : Type} (P : A -> B -> A -> B -> Prop) (f : A -> B) (l : list A) :
  (forall x x', In x l -> In x' l -> P x (f x) x' (f x')) ->
  Forall2 (fun x y => Forall2 (fun x' y' => P x y x' y') l (map f l)) l (map f l).
Proof.
  intros H. apply (Forall2_map_r (fun x y => Forall2 (fun x' y' => P x y x' y') l (map f l))).
  intros x Hx. apply (Forall2_map_r (fun x' y' => P x (f x) x' y')).
  intros x' Hx'. apply H; assumption.
Qed.

(** The maximum after clamping is below the bound of the samples. *)
Lemma clamped_max_bound (a : np.ndarray Z) M B :
  0 < B -> Forall (fun x => x < B) (np.ravel a) ->
  np.reduce Z.max (np.elementwise (fun x => Z.max x 0) a) = Ok M -> M < B.
Proof.
  intros HB Hb HM. destruct (max_attained a M HM) as (z & Hz & Hmax).
  rewrite Forall_forall in Hb. specialize (Hb z Hz). lia.
Qed.

(** The static normaliser, sample by sample, for a positive maximum. *)
Lemma static_floor invalid pa M :
  Forall (fun x => x < 2 ^ 43) (np.ravel (np.data pa)) ->
  np.reduce Z.max (np.elementwise (fun x => Z.max x 0) (np.data pa)) = Ok M ->
  0 < M ->
  DICOM.pixel_array_pos_norm_u8 invalid pa
  = Ok (np.elementwise (fun x => 255 * Z.max x 0 / M) (np.data pa)).
Proof.
  intros Hb HM Hpos. rewrite (static_samples invalid pa M Hb HM).
  f_equal. apply elementwise_ext_in. intros x Hx.
  pose proof (clamped_le_max _ M x HM Hx) as Hle.
  pose proof (clamped_max_bound _ M (2 ^ 43) eq_refl Hb HM).
  apply to_uint8_scale; lia.
Qed.

(** Reductions of an array whose samples went through an increasing map. *)
Lemma fold_max_map (g : Z -> Z) xs :
  (forall a b, g (Z.max a b) = Z.max (g a) (g b)) ->
  forall x0, fold_left Z.max (map g xs) (g x0) = g (fold_left Z.max xs x0).
Proof.
  intros Hg. induction xs as [|x xs IH]; intros x0; simpl; [reflexivity|].
  rewrite <- Hg. apply IH.
Qed.


Lemma reduce_max_map (g : Z -> Z) (a : np.ndarray Z) M :
  (forall a b, g (Z.max a b) = Z.max (g a) (g b)) ->
  np.reduce Z.max a = Ok M -> np.reduce Z.max (np.elementwise g a) = Ok (g M).
Proof.
  intros Hg. unfold np.reduce. rewrite ravel_elementwise.
  destruct (np.ravel a) as [|x0 xs]; [discriminate|].
  intros H. injection H as <-. simpl. f_equal. apply fold_max_map. exact Hg.
Qed.




(** A reduction that finds a value every sample is at most, and that is one of
    the samples. *)
Lemma reduce_max_unique (a : np.ndarray Z) M :
  In M (np.ravel a) -> (forall x, In x (np.ravel a) -> x <= M) -> np.reduce Z.max a = Ok M.
Proof.
  intros Hin Hle. unfold np.reduce.
  destruct (np.ravel a) as [|x0 xs]; [contradiction|]. f_equal.
  pose proof (fold_max_ge xs x0 M Hin). pose proof (Hle _ (fold_max_in xs x0)). lia.
Qed.

Lemma reduce_min_unique (a : np.ndarray Z) m :
  In m (np.ravel a) -> (forall x, In x (np.ravel a) -> m <= x) -> np.reduce Z.min a = Ok m.
Proof.
  intros Hin Hle. unfold np.reduce.
  destruct (np.ravel a) as [|x0 xs]; [contradiction|]. f_equal.
  pose proof (fold_min_le xs x0 m Hin). pose proof (Hle _ (fold_min_in xs x0)). lia.
Qed.

Lemma elementwise_id_in {A : Type} (f : A -> A) (a : np.ndarray A) :
  (forall x, In x (np.ravel a) -> f x = x) -> np.elementwise f a = a.
Proof.
  intros H. rewrite (elementwise_ext_in f (fun x => x) a H).
  unfold np.elementwise. rewrite <- (map_id a) at 2.
  apply map_ext. intros row. apply map_id.
Qed.

(** * Further properties of the two normalisers *)

(** X1: each sample of the dynamic normaliser's result is
    floor(255 * (x - lo) / (hi - lo)) for the array's own minimum [lo] and
    maximum [hi], when [lo < hi] and the range [hi - lo] fits the dtype of the
    array (and is below 2^43). *)
Theorem dynamic_output_is_floor invalid pixel_array min_p max_p lo hi :
  np.min pixel_array = Ok lo -> np.max pixel_array = Ok hi ->
  lo < hi -> hi - lo < 2 ^ 43 ->
  np.wrap (np.dt pixel_array) (hi - lo) = hi - lo ->
  DICOM.pixel_array_norm_u8 invalid pixel_array min_p max_p
  = Ok (np.elementwise (fun x => 255 * (x - lo) / (hi - lo)) (np.data pixel_array)).
Proof. apply dynamic_samples. Qed.

Lemma dynamic_output_is_floor_witness :
  DICOM.pixel_array_norm_u8 invalid_as_zero second_array (Some 0) None
  = Ok (np.elementwise (fun x => 255 * (x - -5) / (40 - -5)) (np.data second_array)).
Proof.
  apply (dynamic_output_is_floor invalid_as_zero second_array (Some 0) None (-5) 40);
    reflexivity.
Defined.

(** A range that does not fit the dtype: in 16 signed bits 20000 - (-20000)
    wraps to -25536, and the sample half-way is divided to a negative value,
    which the conversion to [uint8] does not define. *)
Example dynamic_range_overflows :
  forall invalid,
    exists f,
      Float64.trunc f = Some (-199)
      /\ DICOM.pixel_array_norm_u8 invalid
           {| np.dt := np.int16; np.data := [[-20000; 0; 20000]] |} None None
         = Ok [[0; invalid f; 255]].
Proof. intros invalid. eexists. split; [|vm_compute; reflexivity]. vm_compute. reflexivity. Qed.

(** X2: under the same conditions the dynamic normaliser uses the whole range:
    every sample of the result is in 0..255, the minimum maps to 0, a sample
    is 255 exactly where the array holds its maximum, and both 0 and 255
    occur. *)
Theorem dynamic_uses_full_range invalid pixel_array min_p max_p lo hi :
  np.min pixel_array = Ok lo -> np.max pixel_array = Ok hi ->
  lo < hi -> hi - lo < 2 ^ 43 ->
  np.wrap (np.dt pixel_array) (hi - lo) = hi - lo ->
  exists out,
    DICOM.pixel_array_norm_u8 invalid pixel_array min_p max_p = Ok out
    /\ Forall (fun y => 0 <= y <= 255) (np.ravel out)
    /\ Forall2 (fun x y => (x = lo -> y = 0) /\ (y = 255 <-> x = hi))
         (np.ravel (np.data pixel_array)) (np.ravel out)
    /\ In 0 (np.ravel out) /\ In 255 (np.ravel out).
Proof.
  intros Hlo Hhi Hlt Hb Hw.
  eexists. split; [apply (dynamic_samples invalid pixel_array min_p max_p lo hi); assumption|].
  rewrite ravel_elementwise.
  assert (Hr : forall x, In x (np.ravel (np.data pixel_array)) -> 0 <= x - lo <= hi - lo).
  { intros x Hx. pose proof (min_max_bounds _ lo hi x Hlo Hhi Hx). lia. }
  split; [|split; [|split]].
  - apply Forall_forall. intros y Hy. apply in_map_iff in Hy. destruct Hy as (x & <- & Hx).
    apply floor_scale_range; [apply Hr; exact Hx|lia].
  - apply Forall2_map_r. intros x Hx. split.
    + intros ->. rewrite Z.sub_diag, Z.mul_0_r. apply Z.div_0_l. lia.
    + rewrite floor_scale_top by (try apply Hr; try exact Hx; lia). lia.
  - apply in_map_iff. exists lo. split; [|apply min_attained; exact Hlo].
    rewrite Z.sub_diag, Z.mul_0_r. apply Z.div_0_l. lia.
  - apply in_map_iff. exists hi. split; [|apply int_max_attained; exact Hhi].
    apply Z.div_mul. lia.
Qed.

Lemma dynamic_uses_full_range_witness :
  exists out,
    DICOM.pixel_array_norm_u8 invalid_as_zero second_array None None = Ok out
    /\ Forall (fun y => 0 <= y <= 255) (np.ravel out)
    /\ Forall2 (fun x y => (x = -5 -> y = 0) /\ (y = 255 <-> x = 40))
         (np.ravel (np.data second_array)) (np.ravel out)
    /\ In 0 (np.ravel out) /\ In 255 (np.ravel out).
Proof.
  apply (dynamic_uses_full_range invalid_as_zero second_array None None (-5) 40); reflexivity.
Defined.

(** X3: the static normaliser preserves the order of the samples: of two
    positions, the one holding the smaller sample gets the smaller (or the
    same) output. *)
Theorem static_preserves_order invalid pixel_array M :
  Forall (fun x => x < 2 ^ 43) (np.ravel (np.data pixel_array)) ->
  np.reduce Z.max (np.elementwise (fun x => Z.max x 0) (np.data pixel_array)) = Ok M ->
  0 < M ->
  exists out,
    DICOM.pixel_array_pos_norm_u8 invalid pixel_array = Ok out
    /\ Forall2 (fun x y =>
                  Forall2 (fun x' y' => x <= x' -> y <= y')
                    (np.ravel (np.data pixel_array)) (np.ravel out))
         (np.ravel (np.data pixel_array)) (np.ravel out).
Proof.
  intros Hb HM Hpos. eexists. split; [apply (static_floor invalid pixel_array M Hb HM Hpos)|].
  rewrite ravel_elementwise.
  apply (Forall2_map_pairs (fun x y x' y' => x <= x' -> y <= y')).
  intros x x' _ _ Hle. apply floor_scale_mono; lia.
Qed.

Lemma static_preserves_order_witness :
  exists out,
    DICOM.pixel_array_pos_norm_u8 invalid_as_zero second_array = Ok out
    /\ Forall2 (fun x y =>
                  Forall2 (fun x' y' => x <= x' -> y <= y')
                    (np.ravel (np.data second_array)) (np.ravel out))
         (np.ravel (np.data second_array)) (np.ravel out).
Proof.
  apply (static_preserves_order invalid_as_zero second_array 40).
  - repeat constructor.
  - reflexivity.
  - reflexivity.
Defined.

(** X4: the dynamic normaliser preserves the order of the samples too, when
    the range is positive and fits the dtype. *)
Theorem dynamic_preserves_order invalid pixel_array min_p max_p lo hi :
  np.min pixel_array = Ok lo -> np.max pixel_array = Ok hi ->
  lo < hi -> hi - lo < 2 ^ 43 ->
  np.wrap (np.dt pixel_array) (hi - lo) = hi - lo ->
  exists out,
    DICOM.pixel_array_norm_u8 invalid pixel_array min_p max_p = Ok out
    /\ Forall2 (fun x y =>
                  Forall2 (fun x' y' => x <= x' -> y <= y')
                    (np.ravel (np.data pixel_array)) (np.ravel out))
         (np.ravel (np.data pixel_array)) (np.ravel out).
Proof.
  intros Hlo Hhi Hlt Hb Hw.
  eexists. split; [apply (dynamic_samples invalid pixel_array min_p max_p lo hi); assumption|].
  rewrite ravel_elementwise.
  apply (Forall2_map_pairs (fun x y x' y' => x <= x' -> y <= y')).
  intros x x' _ _ Hle. apply floor_scale_mono; lia.
Qed.

Lemma dynamic_preserves_order_witness :
  exists out,
    DICOM.pixel_array_norm_u8 invalid_as_zero second_array None None = Ok out
    /\ Forall2 (fun x y =>
                  Forall2 (fun x' y' => x <= x' -> y <= y')
                    (np.ravel (np.data second_array)) (np.ravel out))
         (np.ravel (np.data second_array)) (np.ravel out).
Proof.
  apply (dynamic_preserves_order invalid_as_zero second_array None None (-5) 40); reflexivity.
Defined.

(** X5: the clipping of lines 154-155 never changes a sample: whatever [min_p]
    and [max_p], the bounds it clips to are the array's own minimum and
    maximum. *)
Theorem dynamic_clipping_is_vacuous pixel_array min_p max_p lo hi :
  DICOM.hounsfield_min pixel_array min_p = Ok lo ->
  DICOM.hounsfield_max pixel_array max_p = Ok hi ->
  np.clip_above (np.clip_below pixel_array lo) hi = pixel_array.
Proof.
  rewrite hounsfield_min_eq, hounsfield_max_eq. intros Hlo Hhi.
  pose proof (min_max_bounds pixel_array lo hi) as Hb.
  destruct pixel_array as [dt data]. unfold np.clip_above, np.clip_below. simpl.
  f_equal. rewrite elementwise_compose. apply elementwise_id_in. intros x Hx.
  specialize (Hb x Hlo Hhi Hx).
  destruct (Z.ltb_spec x lo) as [H|_]; [lia|].
  rewrite Z.gtb_ltb. destruct (Z.ltb_spec hi x) as [H|_]; [lia|]. reflexivity.
Qed.

Lemma dynamic_clipping_is_vacuous_witness :
  np.clip_above (np.clip_below second_array (-5)) 40 = second_array.
Proof.
  apply (dynamic_clipping_is_vacuous second_array (Some 0) (Some 20) (-5) 40); reflexivity.
Defined.

(** X6: the static normaliser does not see a change of unit: multiplying every
    sample by a positive integer leaves its result unchanged. *)
Theorem static_scale_invariant invalid pixel_array scaled c M :
  0 < c ->
  np.data scaled = np.elementwise (fun x => c * x) (np.data pixel_array) ->
  Forall (fun x => x < 2 ^ 43) (np.ravel (np.data scaled)) ->
  np.reduce Z.max (np.elementwise (fun x => Z.max x 0) (np.data pixel_array)) = Ok M ->
  0 < M ->
  DICOM.pixel_array_pos_norm_u8 invalid scaled
  = DICOM.pixel_array_pos_norm_u8 invalid pixel_array.
Proof.
  intros Hc Hd Hb HM Hpos.
  assert (Hclamp : forall x, Z.max (c * x) 0 = c * Z.max x 0).
  { intros x. destruct (Z.max_spec x 0) as [[? ->]|[? ->]]; nia. }
  assert (Hb' : Forall (fun x => x < 2 ^ 43) (np.ravel (np.data pixel_array))).
  { rewrite Hd, ravel_elementwise in Hb. rewrite Forall_forall in *. intros x Hx.
    specialize (Hb (c * x) (in_map _ _ _ Hx)). simpl in Hb.
    assert (0 < 2 ^ 43) by reflexivity. nia. }
  assert (HM' : np.reduce Z.max (np.elementwise (fun x => Z.max x 0) (np.data scaled))
                = Ok (c * M)).
  { rewrite Hd, elementwise_compose.
    rewrite (elementwise_ext_in _ (fun x => c * Z.max x 0)) by (intros; apply Hclamp).
    rewrite <- (elementwise_compose (fun x => Z.max x 0) (fun y => c * y)).
    apply (reduce_max_map (fun y => c * y)); [|exact HM].
    intros a b. destruct (Z.max_spec a b) as [[? ->]|[? ->]]; nia. }
  rewrite (static_floor invalid scaled (c * M) Hb HM') by nia.
  rewrite (static_floor invalid pixel_array M Hb' HM Hpos).
  rewrite Hd, elementwise_compose. f_equal. apply elementwise_ext_in. intros x _.
  rewrite Hclamp. replace (255 * (c * Z.max x 0)) with (c * (255 * Z.max x 0)) by ring.
  apply Z.div_mul_cancel_l; lia.
Qed.

Lemma static_scale_invariant_witness :
  DICOM.pixel_array_pos_norm_u8 invalid_as_zero
    {| np.dt := np.int16; np.data := [[-15; 30]; [90; 120]] |}
  = DICOM.pixel_array_pos_norm_u8 invalid_as_zero second_array.
Proof.
  apply (static_scale_invariant invalid_as_zero second_array
           {| np.dt := np.int16; np.data := [[-15; 30]; [90; 120]] |} 3 40).
  - reflexivity.
  - reflexivity.
  - repeat constructor.
  - reflexivity.
  - reflexivity.
Defined.



(** X8: on an array whose minimum is 0 the two normalisers agree. *)
Theorem normalisers_agree_from_zero invalid pixel_array min_p max_p hi :
  np.min pixel_array = Ok 0 -> np.max pixel_array = Ok hi ->
  0 < hi < 2 ^ 43 ->
  np.wrap (np.dt pixel_array) hi = hi ->
  DICOM.pixel_array_norm_u8 invalid pixel_array min_p max_p
  = DICOM.pixel_array_pos_norm_u8 invalid pixel_array.
Proof.
  intros Hlo Hhi Hb Hw.
  rewrite (dynamic_samples invalid pixel_array min_p max_p 0 hi Hlo Hhi)
    by (rewrite ?Z.sub_0_r; (assumption || lia)).
  assert (HM : np.reduce Z.max (np.elementwise (fun x => Z.max x 0) (np.data pixel_array))
               = Ok hi).
  { pose proof (reduce_max_map (fun x => Z.max x 0) (np.data pixel_array) hi
                  ltac:(intros; cbv beta; lia) Hhi) as H.
    cbv beta in H. replace (Z.max hi 0) with hi in H by lia. exact H. }
  rewrite (static_floor invalid pixel_array hi) by (try assumption; try lia;
    apply Forall_forall; intros x Hx;
    pose proof (min_max_bounds _ 0 hi x Hlo Hhi Hx); lia).
  f_equal. apply elementwise_ext_in. intros x Hx.
  pose proof (min_max_bounds _ 0 hi x Hlo Hhi Hx).
  rewrite !Z.sub_0_r. replace (Z.max x 0) with x by lia. reflexivity.
Qed.

Lemma normalisers_agree_from_zero_witness :
  DICOM.pixel_array_norm_u8 invalid_as_zero example_array None None
  = DICOM.pixel_array_pos_norm_u8 invalid_as_zero example_array.
Proof.
  apply (normalisers_agree_from_zero invalid_as_zero example_array None None 200).
  - reflexivity.
  - reflexivity.
  - split; reflexivity.
  - reflexivity.
Defined.

(** ** Normalising twice, bytes, shape, arrays of size zero *)

(** An array of bytes that holds 255 is normalised to itself by the static
    normaliser; one that holds 0 as well, by the dynamic normaliser. *)
Lemma static_fixed_point invalid pa :
  Forall (fun y => 0 <= y <= 255) (np.ravel (np.data pa)) ->
  In 255 (np.ravel (np.data pa)) ->
  DICOM.pixel_array_pos_norm_u8 invalid pa = Ok (np.data pa).
Proof.
  intros Hr H255. rewrite Forall_forall in Hr.
  assert (HM : np.reduce Z.max (np.elementwise (fun x => Z.max x 0) (np.data pa)) = Ok 255).
  { apply reduce_max_unique; rewrite ravel_elementwise.
    - apply in_map_iff. exists 255. split; [reflexivity|exact H255].
    - intros y Hy. apply in_map_iff in Hy. destruct Hy as (x & <- & Hx).
      specialize (Hr x Hx). lia. }
  rewrite (static_floor invalid pa 255); [|apply Forall_forall|exact HM|reflexivity].
  - f_equal. apply elementwise_id_in. intros y Hy. specialize (Hr y Hy).
    replace (Z.max y 0) with y by lia. rewrite Z.mul_comm. apply Z.div_mul. lia.
  - intros y Hy. specialize (Hr y Hy). assert (255 < 2 ^ 43) by reflexivity. lia.
Qed.

Lemma dynamic_fixed_point invalid pa min_p max_p :
  Forall (fun y => 0 <= y <= 255) (np.ravel (np.data pa)) ->
  In 0 (np.ravel (np.data pa)) -> In 255 (np.ravel (np.data pa)) ->
  np.wrap (np.dt pa) 255 = 255 ->
  DICOM.pixel_array_norm_u8 invalid pa min_p max_p = Ok (np.data pa).
Proof.
  intros Hr H0 H255 Hw. rewrite Forall_forall in Hr.
  assert (Hlo : np.min pa = Ok 0).
  { apply reduce_min_unique; [exact H0|]. intros x Hx. specialize (Hr x Hx). lia. }
  assert (Hhi : np.max pa = Ok 255).
  { apply reduce_max_unique; [exact H255|]. intros x Hx. specialize (Hr x Hx). lia. }
  rewrite (dynamic_samples invalid pa min_p max_p 0 255 Hlo Hhi);
    [|reflexivity|reflexivity|exact Hw].
  f_equal. apply elementwise_id_in. intros y _.
  rewrite !Z.sub_0_r. rewrite Z.mul_comm. apply Z.div_mul. lia.
Qed.

Lemma wrap_uint8_255 : np.wrap {| np.signed := false; np.bits := 8 |} 255 = 255.
Proof. reflexivity. Qed.

(** X9: a second static normalisation changes nothing: the result of the first,
    taken as an 8-bit array, is normalised to itself. *)
Theorem static_idempotent invalid pixel_array M :
  Forall (fun x => x < 2 ^ 43) (np.ravel (np.data pixel_array)) ->
  np.reduce Z.max (np.elementwise (fun x => Z.max x 0) (np.data pixel_array)) = Ok M ->
  0 < M ->
  exists out,
    DICOM.pixel_array_pos_norm_u8 invalid pixel_array = Ok out
    /\ DICOM.pixel_array_pos_norm_u8 invalid (uint8_array out) = Ok out.
Proof.
  intros Hb HM Hpos. eexists. split; [apply (static_floor invalid pixel_array M Hb HM Hpos)|].
  apply (static_fixed_point invalid (uint8_array _)); simpl np.data; rewrite ravel_elementwise.
  - apply Forall_forall. intros y Hy. apply in_map_iff in Hy. destruct Hy as (x & <- & Hx).
    pose proof (clamped_le_max _ M x HM Hx). apply floor_scale_range; lia.
  - destruct (max_attained _ M HM) as (z & Hz & Hmax).
    apply in_map_iff. exists z. split; [|exact Hz]. rewrite Hmax. apply Z.div_mul. lia.
Qed.

Lemma static_idempotent_witness :
  exists out,
    DICOM.pixel_array_pos_norm_u8 invalid_as_zero second_array = Ok out
    /\ DICOM.pixel_array_pos_norm_u8 invalid_as_zero (uint8_array out) = Ok out.
Proof.
  apply (static_idempotent invalid_as_zero second_array 40).
  - repeat constructor.
  - reflexivity.
  - reflexivity.
Defined.

(** X10: the result of the dynamic normaliser (range positive and fitting the
    dtype), taken as an 8-bit array, is left unchanged by a second pass of
    either normaliser. *)
Theorem dynamic_idempotent invalid pixel_array min_p max_p lo hi :
  np.min pixel_array = Ok lo -> np.max pixel_array = Ok hi ->
  lo < hi -> hi - lo < 2 ^ 43 ->
  np.wrap (np.dt pixel_array) (hi - lo) = hi - lo ->
  exists out,
    DICOM.pixel_array_norm_u8 invalid pixel_array min_p max_p = Ok out
    /\ DICOM.pixel_array_norm_u8 invalid (uint8_array out) min_p max_p = Ok out
    /\ DICOM.pixel_array_pos_norm_u8 invalid (uint8_array out) = Ok out.
Proof.
  intros Hlo Hhi Hlt Hb Hw.
  eexists. split; [apply (dynamic_samples invalid pixel_array min_p max_p lo hi); assumption|].
  set (out := np.elementwise (fun x => 255 * (x - lo) / (hi - lo)) (np.data pixel_array)).
  assert (Hr : Forall (fun y => 0 <= y <= 255) (np.ravel out)).
  { unfold out. rewrite ravel_elementwise.
    apply Forall_forall. intros y Hy. apply in_map_iff in Hy. destruct Hy as (x & <- & Hx).
    pose proof (min_max_bounds _ lo hi x Hlo Hhi Hx). apply floor_scale_range; lia. }
  assert (H0 : In 0 (np.ravel out)).
  { unfold out. rewrite ravel_elementwise.
    apply in_map_iff. exists lo. split; [|apply min_attained; exact Hlo].
    rewrite Z.sub_diag, Z.mul_0_r. apply Z.div_0_l. lia. }
  assert (H255 : In 255 (np.ravel out)).
  { unfold out. rewrite ravel_elementwise.
    apply in_map_iff. exists hi. split; [|apply int_max_attained; exact Hhi].
    apply Z.div_mul. lia. }
  split.
  - apply (dynamic_fixed_point invalid (uint8_array out)); try assumption. reflexivity.
  - apply (static_fixed_point invalid (uint8_array out)); assumption.
Qed.

Lemma dynamic_idempotent_witness :
  exists out,
    DICOM.pixel_array_norm_u8 invalid_as_zero second_array None None = Ok out
    /\ DICOM.pixel_array_norm_u8 invalid_as_zero (uint8_array out) None None = Ok out
    /\ DICOM.pixel_array_pos_norm_u8 invalid_as_zero (uint8_array out) = Ok out.
Proof.
  apply (dynamic_idempotent invalid_as_zero second_array None None (-5) 40); reflexivity.
Defined.

(** X11: whatever the array, every sample either normaliser returns is a byte,
    the conversion storing bytes. *)
Theorem normalised_samples_are_bytes invalid pixel_array min_p max_p :
  (forall f, 0 <= invalid f <= 255) ->
  (forall out, DICOM.pixel_array_pos_norm_u8 invalid pixel_array = Ok out ->
               Forall (fun y => 0 <= y <= 255) (np.ravel out))
  /\ (forall out, DICOM.pixel_array_norm_u8 invalid pixel_array min_p max_p = Ok out ->
                  Forall (fun y => 0 <= y <= 255) (np.ravel out)).
Proof.
  intros Hinv.
  assert (Hb : forall f, 0 <= np.to_uint8 invalid f <= 255).
  { intros f. unfold np.to_uint8. destruct (Float64.trunc f) as [t|]; [|apply Hinv].
    destruct (Z.leb_spec 0 t), (Z.leb_spec t 255); simpl; try apply Hinv. lia. }
  assert (Hu : forall a, Forall (fun y => 0 <= y <= 255) (np.ravel (np.uint8 invalid a))).
  { intros a. unfold np.uint8. rewrite ravel_elementwise.
    apply Forall_forall. intros y Hy. apply in_map_iff in Hy.
    destruct Hy as (f & <- & _). apply Hb. }
  split; intros out H.
  - unfold DICOM.pixel_array_pos_norm_u8 in H.
    destruct (np.max_float _) as [m|e]; simpl in H; [|discriminate].
    injection H as <-. apply Hu.
  - unfold DICOM.pixel_array_norm_u8 in H.
    destruct (DICOM.hounsfield_min _ _) as [lo|e]; simpl in H; [|discriminate].
    destruct (DICOM.hounsfield_max _ _) as [hi|e]; simpl in H; [|discriminate].
    injection H as <-. apply Hu.
Qed.

Lemma normalised_samples_are_bytes_witness :
  (forall out, DICOM.pixel_array_pos_norm_u8 invalid_as_zero second_array = Ok out ->
               Forall (fun y => 0 <= y <= 255) (np.ravel out))
  /\ (forall out, DICOM.pixel_array_norm_u8 invalid_as_zero second_array None None = Ok out ->
                  Forall (fun y => 0 <= y <= 255) (np.ravel out)).
Proof.
  apply (normalised_samples_are_bytes invalid_as_zero second_array None None).
  intros f. unfold invalid_as_zero. lia.
Defined.

(** X12: both normalisers return an array of the shape of the pixel array: as many
    rows, each of the same length. *)
Theorem normalisers_keep_shape :
  forall invalid pixel_array min_p max_p out,
    DICOM.pixel_array_pos_norm_u8 invalid pixel_array = Ok out
    \/ DICOM.pixel_array_norm_u8 invalid pixel_array min_p max_p = Ok out ->
    map (@List.length Z) out = map (@List.length Z) (np.data pixel_array).
Proof.
  assert (Hs : forall (A B : Type) (f : A -> B) (a : np.ndarray A),
             map (@List.length B) (np.elementwise f a) = map (@List.length A) a).
  { intros A B f a. unfold np.elementwise. rewrite map_map.
    apply map_ext. intros row. apply length_map. }
  intros invalid pixel_array min_p max_p out [H|H].
  - unfold DICOM.pixel_array_pos_norm_u8 in H.
    destruct (np.max_float _) as [m|e]; simpl in H; [|discriminate].
    injection H as <-.
    unfold np.uint8, np.multiply, np.true_divide, np.maximum, np.astype_float.
    rewrite !Hs. reflexivity.
  - unfold DICOM.pixel_array_norm_u8 in H.
    destruct (DICOM.hounsfield_min _ _) as [lo|e]; simpl in H; [|discriminate].
    destruct (DICOM.hounsfield_max _ _) as [hi|e]; simpl in H; [|discriminate].
    injection H as <-.
    unfold np.uint8, np.multiply, np.int_true_divide, np.subtract, np.clip_above, np.clip_below.
    simpl np.data. rewrite !Hs. reflexivity.
Qed.

Lemma normalisers_keep_shape_witness :
  map (@List.length Z) [[0; 63]; [191; 255]] = map (@List.length Z) (np.data second_array).
Proof.
  apply (normalisers_keep_shape invalid_as_zero second_array None None [[0; 63]; [191; 255]]).
  left. reflexivity.
Defined.

(** ** Arrays of size zero *)

Lemma static_refuses invalid pa :
  np.ravel (np.data pa) = [] ->
  exists msg, DICOM.pixel_array_pos_norm_u8 invalid pa = Raise (ValueError msg).
Proof.
  intros He. unfold DICOM.pixel_array_pos_norm_u8, np.max_float, np.reduce.
  unfold np.maximum, np.astype_float. rewrite !ravel_elementwise, He. simpl. eauto.
Qed.

Lemma dynamic_refuses invalid pa min_p max_p :
  np.ravel (np.data pa) = [] ->
  exists msg, DICOM.pixel_array_norm_u8 invalid pa min_p max_p = Raise (ValueError msg).
Proof.
  intros He. unfold DICOM.pixel_array_norm_u8. rewrite hounsfield_min_eq.
  unfold np.min, np.reduce. rewrite He. simpl. eauto.
Qed.

Lemma dynamic_returns invalid pa min_p max_p :
  np.ravel (np.data pa) <> [] ->
  exists out, DICOM.pixel_array_norm_u8 invalid pa min_p max_p = Ok out.
Proof.
  intros H. unfold DICOM.pixel_array_norm_u8.
  rewrite hounsfield_min_eq, hounsfield_max_eq. unfold np.min, np.max.
  destruct (reduce_nonempty Z.min _ H) as (lo & ->).
  destruct (reduce_nonempty Z.max _ H) as (hi & ->). simpl. eauto.
Qed.

Lemma static_raises_value_error invalid pa e :
  DICOM.pixel_array_pos_norm_u8 invalid pa = Raise e ->
  np.ravel (np.data pa) = [] /\ exists msg, e = ValueError msg.
Proof.
  intros H. destruct (np.ravel (np.data pa)) as [|x xs] eqn:E.
  - destruct (static_refuses invalid pa E) as (msg & Hm). split; [reflexivity|].
    exists msg. congruence.
  - destruct (static_returns invalid pa) as (out & Ho); [rewrite E; discriminate|congruence].
Qed.

Lemma dynamic_raises_value_error invalid pa min_p max_p e :
  DICOM.pixel_array_norm_u8 invalid pa min_p max_p = Raise e ->
  np.ravel (np.data pa) = [] /\ exists msg, e = ValueError msg.
Proof.
  intros H. destruct (np.ravel (np.data pa)) as [|x xs] eqn:E.
  - destruct (dynamic_refuses invalid pa min_p max_p E) as (msg & Hm). split; [reflexivity|].
    exists msg. congruence.
  - destruct (dynamic_returns invalid pa min_p max_p) as (out & Ho);
      [rewrite E; discriminate|congruence].
Qed.

(** X13: an array of size zero is the one input the normalisers refuse: each of
    them raises exactly when the pixel array has no sample, and what it
    raises is a [ValueError]. *)
Theorem normalisers_refuse_zero_size invalid pixel_array min_p max_p :
  (np.ravel (np.data pixel_array) = []
   <-> exists msg, DICOM.pixel_array_pos_norm_u8 invalid pixel_array = Raise (ValueError msg))
  /\ (np.ravel (np.data pixel_array) = []
      <-> exists msg,
            DICOM.pixel_array_norm_u8 invalid pixel_array min_p max_p = Raise (ValueError msg))
  /\ (forall e, DICOM.pixel_array_pos_norm_u8 invalid pixel_array = Raise e ->
                exists msg, e = ValueError msg)
  /\ (forall e, DICOM.pixel_array_norm_u8 invalid pixel_array min_p max_p = Raise e ->
                exists msg, e = ValueError msg).
Proof.
  split; [|split; [|split]].
  - split; [apply static_refuses|]. intros (msg & H).
    apply (static_raises_value_error invalid pixel_array _ H).
  - split; [apply dynamic_refuses|]. intros (msg & H).
    apply (dynamic_raises_value_error invalid pixel_array min_p max_p _ H).
  - intros e H. apply (static_raises_value_error invalid pixel_array e H).
  - intros e H. apply (dynamic_raises_value_error invalid pixel_array min_p max_p e H).
Qed.

(** ** Conversion to float *)

Lemma trunc_of_Z x : Z.abs x < 2 ^ prec -> Float64.trunc (Float64.of_Z x) = Some x.
Proof.
  intros Hx.
  assert (Hpos : forall s p, Z.pos p < 2 ^ prec ->
            Float64.trunc (of_pos_spec s p) = Some (cond_Zopp s (Z.pos p))).
  { intros s p Hp. unfold of_pos_spec.
    pose proof (Zdigits2_le_prec (Z.pos p) ltac:(lia)) as Hd.
    destruct (Z.leb_spec (Zdigits2 (Z.pos p)) prec) as [_|H]; [|lia].
    unfold Float64.trunc. f_equal. f_equal.
    assert (Hk : 0 < 2 ^ (prec - Zdigits2 (Z.pos p))) by (apply pow2_pos; lia).
    rewrite to_pos_digits by lia.
    rewrite <- Z.shiftr_opp_r, Z.shiftr_div_pow2 by lia.
    replace (- (Zdigits2 (Z.pos p) - prec)) with (prec - Zdigits2 (Z.pos p)) by lia.
    apply Z.div_mul. lia. }
  destruct x as [|p|p].
  - reflexivity.
  - rewrite of_Z_pos. apply (Hpos false). lia.
  - rewrite of_Z_neg. apply (Hpos true). lia.
Qed.

(** X14: the conversion of line 81 loses nothing: every sample of magnitude below
    2^53 is the integer part of the float it is converted to. *)
Theorem astype_float_exact pixel_array :
  Forall (fun x => Z.abs x < 2 ^ 53) (np.ravel (np.data pixel_array)) ->
  np.elementwise Float64.trunc (np.astype_float pixel_array)
  = np.elementwise Some (np.data pixel_array).
Proof.
  intros Hb. unfold np.astype_float. rewrite elementwise_compose.
  apply elementwise_ext_in. intros x Hx. rewrite Forall_forall in Hb.
  apply trunc_of_Z. apply Hb. exact Hx.
Qed.

Lemma astype_float_exact_witness :
  np.elementwise Float64.trunc (np.astype_float second_array)
  = np.elementwise Some (np.data second_array).
Proof.
  apply (astype_float_exact second_array). repeat constructor.
Defined.

(** * Names: [stem] *)

Lemma rfind_dot_app s : forall t i last,
  pathlib.rfind_dot (s ++ t) i last
  = pathlib.rfind_dot t (i + String.length s) (pathlib.rfind_dot s i last).
Proof.
  induction s as [|c s IH]; intros t i last; simpl.
  - rewrite Nat.add_0_r. reflexivity.
  - rewrite IH. f_equal. lia.
Qed.

Lemma rfind_dot_dotless s : forall i last,
  dotless s = true -> pathlib.rfind_dot s i last = last.
Proof.
  induction s as [|c s IH]; intros i last H; simpl in *; [reflexivity|].
  apply andb_true_iff in H. destruct H as [Hc Hs].
  apply negb_true_iff in Hc. rewrite Hc. apply IH. exact Hs.
Qed.

Lemma substring_prefix s t : String.substring 0 (String.length s) (s ++ t) = s.
Proof.
  induction s as [|c s IH]; simpl.
  - destruct t; reflexivity.
  - rewrite IH. reflexivity.
Qed.

Lemma length_append s t : String.length (s ++ t) = (String.length s + String.length t)%nat.
Proof. induction s as [|c s IH]; simpl; [reflexivity|]. rewrite IH. reflexivity. Qed.

(** The stem of [pre.suf] is [pre], for a suffix that is not empty and holds
    no dot, and a [pre] that is not empty; a name with no dot is its own
    stem. *)
Lemma stem_suffix dir pre suf :
  pre <> ""%string -> suf <> ""%string -> dotless suf = true ->
  pathlib.stem (dir ++ [(pre ++ "." ++ suf)%string]) = pre.
Proof.
  intros Hpre Hsuf Hd. unfold pathlib.stem. rewrite last_last.
  rewrite rfind_dot_app. simpl pathlib.rfind_dot at 1. simpl Ascii.eqb. cbv iota.
  rewrite rfind_dot_dotless by exact Hd. simpl Nat.add.
  assert (0 < String.length pre)%nat by (destruct pre; [contradiction|simpl; lia]).
  assert (0 < String.length suf)%nat by (destruct suf; [contradiction|simpl; lia]).
  rewrite length_append. simpl String.length.
  destruct (Nat.ltb_spec 0 (String.length pre)); [|lia].
  destruct (Nat.ltb_spec (String.length pre)
              (String.length pre + S (String.length suf) - 1)); [|lia].
  simpl andb. cbv iota. apply substring_prefix.
Qed.

Lemma stem_dotless dir name :
  dotless name = true -> pathlib.stem (dir ++ [name]) = name.
Proof.
  intros Hd. unfold pathlib.stem. rewrite last_last.
  rewrite rfind_dot_dotless by exact Hd. reflexivity.
Qed.

(** * Properties of the two methods, of [_export] and of [main] *)

Lemma example_records_readable : Forall (readable example_dcmread) (DICOM.dcm_files example_records).
Proof. repeat constructor; eexists; (split; [reflexivity|]); simpl; (exact I || discriminate). Qed.

Lemma example_exportable output_dir format plot :
  output_dir = ["out"%string] \/ output_dir = ["out"%string; "run"%string] ->
  exportable example_batch (DICOM.dcm_files example_records) output_dir format plot.
Proof.
  intros [->| ->]; split.
  - intros q pixels Hq. destruct plot; simpl in Hq; destruct Hq as [<-|[<-|[]]]; discriminate.
  - intros file Hf. simpl in Hf.
    destruct Hf as [<-|[<-|[<-|[]]]]; destruct plot, format; discriminate.
  - intros q pixels Hq. destruct plot; simpl in Hq; destruct Hq as [<-|[<-|[<-|[]]]]; discriminate.
  - intros file Hf. simpl in Hf.
    destruct Hf as [<-|[<-|[<-|[]]]]; destruct plot, format; discriminate.
Qed.

(** X15: [process_dynamic] skips records without pixel data as
    [process_static] does: over records that can be read, with an output
    location that can be written to, it returns, in record order, the
    normalised arrays of exactly the records that have pixel data. *)
Theorem process_dynamic_skips_records invalid dcmread this output_dir min_p max_p
    output_format plot w :
  Forall (readable dcmread) (DICOM.dcm_files this) ->
  exportable (fs w) (DICOM.dcm_files this) output_dir output_format plot ->
  exists out,
    fst (DICOM.process_dynamic invalid dcmread this output_dir min_p max_p output_format
           plot w) = Ok out
    /\ Forall2 (fun pixel_array u8 =>
                  DICOM.pixel_array_norm_u8 invalid pixel_array min_p max_p = Ok u8)
         (pixel_arrays dcmread (DICOM.dcm_files this)) out.
Proof.
  intros Hall Hx. rewrite process_dynamic_batch.
  destruct (run_succeeds dcmread
              (fun pa => DICOM.pixel_array_norm_u8 invalid pa min_p max_p)
              (DICOM.dcm_files this) output_dir output_format plot w
              (fun pa => dynamic_returns invalid pa min_p max_p) Hall Hx)
    as (out & w' & Hrun & Hf & _).
  exists out. rewrite Hrun. split; [reflexivity|exact Hf].
Qed.

Lemma process_dynamic_skips_records_witness :
  exists out,
    fst (DICOM.process_dynamic invalid_as_zero example_dcmread example_records
           ["out"%string] None None png false example_world) = Ok out
    /\ Forall2 (fun pixel_array u8 =>
                  DICOM.pixel_array_norm_u8 invalid_as_zero pixel_array None None = Ok u8)
         (pixel_arrays example_dcmread (DICOM.dcm_files example_records)) out.
Proof.
  apply (process_dynamic_skips_records invalid_as_zero example_dcmread example_records
           ["out"%string] None None png false example_world).
  - exact example_records_readable.
  - apply example_exportable. left. reflexivity.
Defined.



(** X17: a record that cannot be read, or whose pixel array is of size zero,
    ends the run, the records before it being readable and exported to a
    location that can be written to: the method raises (the reader's
    exception, or the [ValueError] of the normaliser) and returns no array,
    and what the records before it left on disk and on the output stays: the
    state is that of a run over those records alone. *)
Theorem unreadable_record_aborts invalid dcmread path before bad after output_dir min_p max_p
    output_format plot w :
  Forall (readable dcmread) before ->
  exportable (fs w) before output_dir output_format plot ->
  ~ readable dcmread bad ->
  (exists e,
      DICOM.process_static invalid dcmread
        {| DICOM.path := path; DICOM.dcm_files := before ++ bad :: after |}
        output_dir output_format plot w
      = (Raise e,
         snd (DICOM.process_static invalid dcmread
                {| DICOM.path := path; DICOM.dcm_files := before |}
                output_dir output_format plot w))
      /\ (dcmread bad = Raise e \/ exists msg, e = ValueError msg))
  /\ (exists e,
         DICOM.process_dynamic invalid dcmread
           {| DICOM.path := path; DICOM.dcm_files := before ++ bad :: after |}
           output_dir min_p max_p output_format plot w
         = (Raise e,
            snd (DICOM.process_dynamic invalid dcmread
                   {| DICOM.path := path; DICOM.dcm_files := before |}
                   output_dir min_p max_p output_format plot w))
         /\ (dcmread bad = Raise e \/ exists msg, e = ValueError msg)).
Proof.
  intros Hall Hx Hbad. rewrite !process_static_batch, !process_dynamic_batch.
  simpl DICOM.dcm_files. split.
  - destruct (run_aborts dcmread (DICOM.pixel_array_pos_norm_u8 invalid)
                (fun pa => static_returns invalid pa)
                (fun pa H => match static_refuses invalid pa H with
                             | ex_intro _ msg Hm => ex_intro _ (ValueError msg) Hm
                             end)
                before bad after output_dir output_format plot w Hall Hx Hbad)
      as (e & Hrun & Hwhy).
    exists e. split; [exact Hrun|].
    destruct Hwhy as [Hr|(ds & pa & _ & _ & Hn)]; [left; exact Hr|right].
    apply (static_raises_value_error invalid pa e Hn).
  - destruct (run_aborts dcmread
                (fun pa => DICOM.pixel_array_norm_u8 invalid pa min_p max_p)
                (fun pa => dynamic_returns invalid pa min_p max_p)
                (fun pa H => match dynamic_refuses invalid pa min_p max_p H with
                             | ex_intro _ msg Hm => ex_intro _ (ValueError msg) Hm
                             end)
                before bad after output_dir output_format plot w Hall Hx Hbad)
      as (e & Hrun & Hwhy).
    exists e. split; [exact Hrun|].
    destruct Hwhy as [Hr|(ds & pa & _ & _ & Hn)]; [left; exact Hr|right].
    apply (dynamic_raises_value_error invalid pa min_p max_p e Hn).
Qed.

Lemma unreadable_record_aborts_witness :
  (exists e,
      DICOM.process_static invalid_as_zero broken_dcmread
        {| DICOM.path := ["batch"%string];
           DICOM.dcm_files := [["batch"%string; "r1.dcm"%string]]
                              ++ ["batch"%string; "r2.dcm"%string]
                                 :: [["batch"%string; "r3.dcm"%string]] |}
        ["out"%string] png false example_world
      = (Raise e,
         snd (DICOM.process_static invalid_as_zero broken_dcmread
                {| DICOM.path := ["batch"%string];
                   DICOM.dcm_files := [["batch"%string; "r1.dcm"%string]] |}
                ["out"%string] png false example_world))
      /\ (broken_dcmread ["batch"%string; "r2.dcm"%string] = Raise e
          \/ exists msg, e = ValueError msg))
  /\ (exists e,
         DICOM.process_dynamic invalid_as_zero broken_dcmread
           {| DICOM.path := ["batch"%string];
              DICOM.dcm_files := [["batch"%string; "r1.dcm"%string]]
                                 ++ ["batch"%string; "r2.dcm"%string]
                                    :: [["batch"%string; "r3.dcm"%string]] |}
           ["out"%string] None None png false example_world
         = (Raise e,
            snd (DICOM.process_dynamic invalid_as_zero broken_dcmread
                   {| DICOM.path := ["batch"%string];
                      DICOM.dcm_files := [["batch"%string; "r1.dcm"%string]] |}
                   ["out"%string] None None png false example_world))
         /\ (broken_dcmread ["batch"%string; "r2.dcm"%string] = Raise e
             \/ exists msg, e = ValueError msg)).
Proof.
  apply (unreadable_record_aborts invalid_as_zero broken_dcmread ["batch"%string]
           [["batch"%string; "r1.dcm"%string]] ["batch"%string; "r2.dcm"%string]
           [["batch"%string; "r3.dcm"%string]] ["out"%string] None None png false
           example_world).
  - repeat constructor. eexists. split; [reflexivity|]. simpl. discriminate.
  - split.
    + intros q pixels Hq. simpl in Hq. destruct Hq as [<-|[<-|[]]]; discriminate.
    + intros file Hf. simpl in Hf. destruct Hf as [<-|[]]. discriminate.
  - intros (ds & H & _). discriminate.
Defined.

(** X18: an entry of the file system stays as it is through a run of either
    method, unless it is the path a record of the set is exported to: the
    records themselves, and every entry outside the output directory, are
    never altered. *)
Theorem unexported_entries_kept invalid dcmread this output_dir min_p max_p output_format
    plot w q n :
  pathlib.lookup (fs w) q = Some n ->
  (forall file, In file (DICOM.dcm_files this) ->
                q <> export_path file output_dir output_format plot) ->
  pathlib.lookup
    (fs (snd (DICOM.process_static invalid dcmread this output_dir output_format plot w))) q
  = Some n
  /\ pathlib.lookup
       (fs (snd (DICOM.process_dynamic invalid dcmread this output_dir min_p max_p
                   output_format plot w))) q
     = Some n.
Proof.
  intros H Hq. rewrite process_static_batch, process_dynamic_batch.
  split; apply run_keeps; assumption.
Qed.

Lemma unexported_entries_kept_witness :
  pathlib.lookup
    (fs (snd (DICOM.process_static invalid_as_zero example_dcmread example_records
                ["out"%string] png false example_world)))
    ["batch"%string; "r1.dcm"%string]
  = Some (pathlib.File None)
  /\ pathlib.lookup
       (fs (snd (DICOM.process_dynamic invalid_as_zero example_dcmread example_records
                   ["out"%string] None None png false example_world)))
       ["batch"%string; "r1.dcm"%string]
     = Some (pathlib.File None).
Proof.
  apply (unexported_entries_kept invalid_as_zero example_dcmread example_records
           ["out"%string] None None png false example_world
           ["batch"%string; "r1.dcm"%string] (pathlib.File None)).
  - reflexivity.
  - intros file _. discriminate.
Defined.

(** X19: a run exports to one subdirectory only: with [plot] nothing at or
    below [img] of the output directory is created or changed, without [plot]
    nothing at or below [plt]. *)
Theorem export_goes_to_one_subdirectory :
  forall invalid dcmread this output_dir min_p max_p output_format plot w rest,
    pathlib.lookup
      (fs (snd (DICOM.process_static invalid dcmread this output_dir output_format plot w)))
      (output_dir ++ export_subdir (negb plot) :: rest)
    = pathlib.lookup (fs w) (output_dir ++ export_subdir (negb plot) :: rest)
    /\ pathlib.lookup
         (fs (snd (DICOM.process_dynamic invalid dcmread this output_dir min_p max_p
                     output_format plot w)))
         (output_dir ++ export_subdir (negb plot) :: rest)
       = pathlib.lookup (fs w) (output_dir ++ export_subdir (negb plot) :: rest).
Proof.
  intros. rewrite process_static_batch, process_dynamic_batch.
  split; apply run_other_subdir.
Qed.

(** X20: the image saved for a record is the one of the array returned for
    it: over records that can be read, no two of which are exported to the
    same path, with an output location that can be written to, the file at
    the export path of each record with pixel data is saved from the array
    the method returns for that record, which is the normalisation of the
    pixel array of the record. *)
Theorem saved_images_are_returned invalid dcmread this output_dir min_p max_p output_format
    plot w :
  Forall (readable dcmread) (DICOM.dcm_files this) ->
  exportable (fs w) (DICOM.dcm_files this) output_dir output_format plot ->
  NoDup (map (fun file => export_path file output_dir output_format plot)
           (with_pixel_data dcmread (DICOM.dcm_files this))) ->
  (exists out,
      fst (DICOM.process_static invalid dcmread this output_dir output_format plot w) = Ok out
      /\ Forall2 (fun file u8 =>
                    (exists dcm_file pixel_array,
                        dcmread file = Ok dcm_file
                        /\ pydicom.pixel_array dcm_file = Some pixel_array
                        /\ DICOM.pixel_array_pos_norm_u8 invalid pixel_array = Ok u8)
                    /\ pathlib.lookup
                         (fs (snd (DICOM.process_static invalid dcmread this output_dir
                                     output_format plot w)))
                         (export_path file output_dir output_format plot)
                       = Some (pathlib.File (Some u8)))
           (with_pixel_data dcmread (DICOM.dcm_files this)) out)
  /\ (exists out,
         fst (DICOM.process_dynamic invalid dcmread this output_dir min_p max_p output_format
                plot w) = Ok out
         /\ Forall2 (fun file u8 =>
                       (exists dcm_file pixel_array,
                           dcmread file = Ok dcm_file
                           /\ pydicom.pixel_array dcm_file = Some pixel_array
                           /\ DICOM.pixel_array_norm_u8 invalid pixel_array min_p max_p = Ok u8)
                       /\ pathlib.lookup
                            (fs (snd (DICOM.process_dynamic invalid dcmread this output_dir
                                        min_p max_p output_format plot w)))
                            (export_path file output_dir output_format plot)
                          = Some (pathlib.File (Some u8)))
              (with_pixel_data dcmread (DICOM.dcm_files this)) out).
Proof.
  intros Hall Hx Hnd. rewrite process_static_batch, process_dynamic_batch. split.
  - destruct (run_succeeds dcmread (DICOM.pixel_array_pos_norm_u8 invalid)
                (DICOM.dcm_files this) output_dir output_format plot w
                (static_returns invalid) Hall Hx)
      as (out & w' & Hrun & _ & _ & _ & _ & Hsaved).
    exists out. rewrite Hrun. split; [reflexivity|exact (Hsaved Hnd)].
  - destruct (run_succeeds dcmread
                (fun pa => DICOM.pixel_array_norm_u8 invalid pa min_p max_p)
                (DICOM.dcm_files this) output_dir output_format plot w
                (fun pa => dynamic_returns invalid pa min_p max_p) Hall Hx)
      as (out & w' & Hrun & _ & _ & _ & _ & Hsaved).
    exists out. rewrite Hrun. split; [reflexivity|exact (Hsaved Hnd)].
Qed.

Lemma saved_images_are_returned_witness :
  (exists out,
      fst (DICOM.process_static invalid_as_zero example_dcmread example_records
             ["out"%string] jpg true example_world) = Ok out
      /\ Forall2 (fun file u8 =>
                    (exists dcm_file pixel_array,
                        example_dcmread file = Ok dcm_file
                        /\ pydicom.pixel_array dcm_file = Some pixel_array
                        /\ DICOM.pixel_array_pos_norm_u8 invalid_as_zero pixel_array = Ok u8)
                    /\ pathlib.lookup
                         (fs (snd (DICOM.process_static invalid_as_zero example_dcmread
                                     example_records ["out"%string] jpg true example_world)))
                         (export_path file ["out"%string] jpg true)
                       = Some (pathlib.File (Some u8)))
           (with_pixel_data example_dcmread (DICOM.dcm_files example_records)) out)
  /\ (exists out,
         fst (DICOM.process_dynamic invalid_as_zero example_dcmread example_records
                ["out"%string] None None jpg true example_world) = Ok out
         /\ Forall2 (fun file u8 =>
                       (exists dcm_file pixel_array,
                           example_dcmread file = Ok dcm_file
                           /\ pydicom.pixel_array dcm_file = Some pixel_array
                           /\ DICOM.pixel_array_norm_u8 invalid_as_zero pixel_array None None
                              = Ok u8)
                       /\ pathlib.lookup
                            (fs (snd (DICOM.process_dynamic invalid_as_zero example_dcmread
                                        example_records ["out"%string] None None jpg true
                                        example_world)))
                            (export_path file ["out"%string] jpg true)
                          = Some (pathlib.File (Some u8)))
              (with_pixel_data example_dcmread (DICOM.dcm_files example_records)) out).
Proof.
  apply (saved_images_are_returned invalid_as_zero example_dcmread example_records
           ["out"%string] None None jpg true example_world).
  - exact example_records_readable.
  - apply example_exportable. left. reflexivity.
  - vm_compute. repeat constructor; simpl; intuition discriminate.
Defined.

(** X21: after a run of either method the output directory is there, a
    directory, when no regular file stood at it or above it; over records
    that can be read, of which one at least has pixel data, with an output
    location that can be written to, so is the subdirectory the images go
    to. *)
Theorem output_directory_exists invalid dcmread this output_dir min_p max_p output_format
    plot w :
  output_dir <> [] ->
  (forall q pixels, In q (pathlib.prefixes output_dir) ->
                    pathlib.lookup (fs w) q <> Some (pathlib.File pixels)) ->
  (pathlib.lookup
     (fs (snd (DICOM.process_static invalid dcmread this output_dir output_format plot w)))
     output_dir = Some pathlib.Dir
   /\ pathlib.lookup
        (fs (snd (DICOM.process_dynamic invalid dcmread this output_dir min_p max_p
                    output_format plot w)))
        output_dir = Some pathlib.Dir)
  /\ (Forall (readable dcmread) (DICOM.dcm_files this) ->
      exportable (fs w) (DICOM.dcm_files this) output_dir output_format plot ->
      with_pixel_data dcmread (DICOM.dcm_files this) <> [] ->
      pathlib.lookup
        (fs (snd (DICOM.process_static invalid dcmread this output_dir output_format plot w)))
        (output_dir ++ [export_subdir plot]) = Some pathlib.Dir
      /\ pathlib.lookup
           (fs (snd (DICOM.process_dynamic invalid dcmread this output_dir min_p max_p
                       output_format plot w)))
           (output_dir ++ [export_subdir plot]) = Some pathlib.Dir).
Proof.
  intros Hne HP. rewrite process_static_batch, process_dynamic_batch. split.
  - split; apply run_output_dir; assumption.
  - intros Hall Hx Hsome. split.
    + destruct (run_succeeds dcmread (DICOM.pixel_array_pos_norm_u8 invalid)
                  (DICOM.dcm_files this) output_dir output_format plot w
                  (static_returns invalid) Hall Hx)
        as (out & w' & Hrun & _ & _ & _ & Hsub & _).
      rewrite Hrun. exact (Hsub Hsome).
    + destruct (run_succeeds dcmread
                  (fun pa => DICOM.pixel_array_norm_u8 invalid pa min_p max_p)
                  (DICOM.dcm_files this) output_dir output_format plot w
                  (fun pa => dynamic_returns invalid pa min_p max_p) Hall Hx)
        as (out & w' & Hrun & _ & _ & _ & Hsub & _).
      rewrite Hrun. exact (Hsub Hsome).
Qed.

Lemma output_directory_exists_witness :
  (pathlib.lookup
     (fs (snd (DICOM.process_static invalid_as_zero example_dcmread example_records
                 ["out"%string; "run"%string] png false example_world)))
     ["out"%string; "run"%string] = Some pathlib.Dir
   /\ pathlib.lookup
        (fs (snd (DICOM.process_dynamic invalid_as_zero example_dcmread example_records
                    ["out"%string; "run"%string] None None png false example_world)))
        ["out"%string; "run"%string] = Some pathlib.Dir)
  /\ (pathlib.lookup
        (fs (snd (DICOM.process_static invalid_as_zero example_dcmread example_records
                    ["out"%string; "run"%string] png false example_world)))
        ["out"%string; "run"%string; "img"%string] = Some pathlib.Dir
      /\ pathlib.lookup
           (fs (snd (DICOM.process_dynamic invalid_as_zero example_dcmread example_records
                       ["out"%string; "run"%string] None None png false example_world)))
           ["out"%string; "run"%string; "img"%string] = Some pathlib.Dir).
Proof.
  destruct (output_directory_exists invalid_as_zero example_dcmread example_records
              ["out"%string; "run"%string] None None png false example_world)
    as [Hdir Hsub].
  - discriminate.
  - intros q pixels Hq. simpl in Hq. destruct Hq as [<-|[<-|[]]]; discriminate.
  - split; [exact Hdir|]. apply Hsub.
    + exact example_records_readable.
    + apply example_exportable. right. reflexivity.
    + discriminate.
Defined.

(** X22: [_export] names the image after the record.  Where the output
    location can be written to it returns, having printed nothing, made the
    subdirectory ([plt] of the output directory with [plot], [img] without)
    and saved the file from the array under the stem of the record and the
    extension of the format; the stem of a record [pre.suf] (a suffix with no
    dot, neither part empty) is [pre], that of a record whose name holds no
    dot is its whole name. *)
Theorem export_names_image_after_record u8 file output_dir format plot w :
  exportable (fs w) [file] output_dir format plot ->
  (exists w',
      DICOM._export u8 file output_dir format plot w = (Ok tt, w')
      /\ stdout w' = stdout w
      /\ pathlib.lookup (fs w') (output_dir ++ [export_subdir plot]) = Some pathlib.Dir
      /\ pathlib.lookup (fs w')
           (output_dir ++ [export_subdir plot;
                           (pathlib.stem file ++ "." ++ extension format)%string])
         = Some (pathlib.File (Some u8)))
  /\ (forall dir pre suf,
         file = dir ++ [(pre ++ "." ++ suf)%string] ->
         pre <> ""%string -> suf <> ""%string -> dotless suf = true ->
         pathlib.stem file = pre)
  /\ (forall dir name,
         file = dir ++ [name] -> dotless name = true -> pathlib.stem file = name).
Proof.
  intros Hx. split; [|split].
  - destruct (export_succeeds u8 file [] output_dir format plot w Hx)
      as (w' & Hexp & Hout & Himg & Hsub & _).
    exists w'. split; [exact Hexp|]. split; [exact Hout|]. split; [exact Hsub|exact Himg].
  - intros dir pre suf -> Hpre Hsuf Hd. apply stem_suffix; assumption.
  - intros dir name -> Hd. apply stem_dotless. exact Hd.
Qed.

Lemma export_names_image_after_record_witness :
  (exists w',
      DICOM._export [[0; 255]] ["batch"%string; "r1.dcm"%string] ["out"%string] png false
        example_world = (Ok tt, w')
      /\ stdout w' = stdout example_world
      /\ pathlib.lookup (fs w') ["out"%string; "img"%string] = Some pathlib.Dir
      /\ pathlib.lookup (fs w') ["out"%string; "img"%string; "r1.png"%string]
         = Some (pathlib.File (Some [[0; 255]])))
  /\ pathlib.stem ["batch"%string; "r1.dcm"%string] = "r1"%string.
Proof.
  destruct (export_names_image_after_record [[0; 255]] ["batch"%string; "r1.dcm"%string]
              ["out"%string] png false example_world)
    as (Hrun & Hstem & _).
  - split.
    + intros q pixels Hq. simpl in Hq. destruct Hq as [<-|[<-|[]]]; discriminate.
    + intros file Hf. simpl in Hf. destruct Hf as [<-|[]]. discriminate.
  - split; [exact Hrun|].
    apply (Hstem ["batch"%string] "r1"%string "dcm"%string); (reflexivity || discriminate).
Defined.

(** * Export paths of the records of a directory *)

Lemma append_inj_l s : forall s' t t',
  String.length s = String.length s' -> (s ++ t)%string = (s' ++ t')%string -> s = s'.
Proof.
  induction s as [|c s IH]; intros [|c' s'] t t' Hl H; simpl in *; try discriminate.
  - reflexivity.
  - injection H as -> H. injection Hl as Hl. f_equal. apply (IH s' t t' Hl H).
Qed.

Lemma append_inv_tail s s' t : (s ++ t)%string = (s' ++ t)%string -> s = s'.
Proof.
  intros H. apply (append_inj_l s s' t t); [|exact H].
  apply (f_equal String.length) in H. rewrite !length_append in H. lia.
Qed.

Lemma NoDup_map_filter {A B : Type} (g : A -> B) (keep : A -> bool) (l : list A) :
  NoDup (map g l) -> NoDup (map g (filter keep l)).
Proof.
  induction l as [|x l IH]; intros H; simpl in *; [constructor|].
  inversion H as [|? ? Hnotin Hnd]; subst.
  destruct (keep x); simpl; [constructor|]; auto.
  intros Hin. apply Hnotin. apply in_map_iff in Hin. destruct Hin as (y & <- & Hy).
  apply in_map. apply filter_In in Hy. apply Hy.
Qed.

Lemma glob_cons q n rest p pattern :
  pathlib.glob ((q, n) :: rest) p pattern
  = match pathlib.child_name p q with
    | Some name => if pathlib.fnmatch pattern name then q :: pathlib.glob rest p pattern
                   else pathlib.glob rest p pattern
    | None => pathlib.glob rest p pattern
    end.
Proof. reflexivity. Qed.

(** Two entries of a directory named [*.dcm] are exported to different paths,
    none of them being named [.dcm]. *)
Lemma glob_export_paths files path output_dir format plot :
  NoDup (map fst files) ->
  (forall n, ~ In (path ++ [".dcm"%string], n) files) ->
  NoDup (map (fun file => export_path file output_dir format plot)
           (pathlib.glob files path "*.dcm")).
Proof.
  intros Hnd Hdot.
  assert (Hstem : forall q n, In (q, n) files -> In q (pathlib.glob files path "*.dcm") ->
            exists pre, q = path ++ [(pre ++ ".dcm")%string] /\ pathlib.stem q = pre).
  { intros q n Hin Hg. apply glob_In in Hg. destruct Hg as (name & n' & -> & _ & Hm).
    apply fnmatch_dcm in Hm. destruct Hm as (pre & ->). exists pre. split; [reflexivity|].
    apply (stem_suffix path pre "dcm"); [|discriminate|reflexivity].
    intros ->. apply (Hdot n). exact Hin. }
  revert Hnd Hstem. clear Hdot.
  induction files as [|[q nd] rest IH]; intros Hnd Hstem; [constructor|].
  simpl in Hnd. inversion Hnd as [|? ? Hnotin Hnd']; subst.
  assert (Hrest : NoDup (map (fun file => export_path file output_dir format plot)
                           (pathlib.glob rest path "*.dcm"))).
  { apply IH; [exact Hnd'|]. intros q' n' Hin' Hg'.
    apply (Hstem q' n'); [right; exact Hin'|].
    rewrite glob_cons. destruct (pathlib.child_name path q) as [name|]; [|exact Hg'].
    destruct (pathlib.fnmatch "*.dcm" name); [right|]; exact Hg'. }
  rewrite glob_cons. destruct (pathlib.child_name path q) as [name|] eqn:Ec; [|exact Hrest].
  destruct (pathlib.fnmatch "*.dcm" name) eqn:Em; [|exact Hrest].
  cbn [map]. constructor; [|exact Hrest].
  intros Hin. apply in_map_iff in Hin. destruct Hin as (q' & Heq & Hg').
  assert (Hgq : In q (pathlib.glob ((q, nd) :: rest) path "*.dcm")).
  { rewrite glob_cons, Ec, Em. left. reflexivity. }
  assert (Hgq' : In q' (pathlib.glob ((q, nd) :: rest) path "*.dcm")).
  { rewrite glob_cons, Ec, Em. right. exact Hg'. }
  pose proof Hg' as Hin'. apply glob_In in Hin'. destruct Hin' as (name' & n' & _ & Hin' & _).
  destruct (Hstem q nd (or_introl eq_refl) Hgq) as (pre & Hq & Hs).
  destruct (Hstem q' n' (or_intror Hin') Hgq') as (pre' & Hq' & Hs').
  unfold export_path in Heq. apply app_inv_head in Heq. injection Heq as Heq.
  rewrite Hs, Hs' in Heq. apply append_inv_tail in Heq. subst pre'.
  apply Hnotin. rewrite Hq, <- Hq'. apply (in_map fst _ _ Hin').
Qed.

(** X23: the records construction finds are exported to paths that differ from
    one another, in a file system that lists every path once and has no
    entry named [.dcm] in the directory. *)
Theorem records_are_exported_apart files path output_dir format plot this dcmread :
  NoDup (map fst files) ->
  (forall n, ~ In (path ++ [".dcm"%string], n) files) ->
  DICOM.__init__ files path = Ok this ->
  NoDup (map (fun file => export_path file output_dir format plot) (DICOM.dcm_files this))
  /\ NoDup (map (fun file => export_path file output_dir format plot)
              (with_pixel_data dcmread (DICOM.dcm_files this))).
Proof.
  intros Hnd Hdot Hinit.
  assert (H : NoDup (map (fun file => export_path file output_dir format plot)
                       (DICOM.dcm_files this))).
  { unfold DICOM.__init__ in Hinit.
    destruct (negb (pathlib.exists_ files path)); [discriminate|].
    destruct (pathlib.is_file files path); injection Hinit as <-; simpl.
    - repeat constructor. intros [].
    - apply glob_export_paths; assumption. }
  split; [exact H|]. unfold with_pixel_data. apply NoDup_map_filter. exact H.
Qed.

Lemma records_are_exported_apart_witness :
  NoDup (map (fun file => export_path file ["out"%string] png false)
           (DICOM.dcm_files example_records))
  /\ NoDup (map (fun file => export_path file ["out"%string] png false)
              (with_pixel_data example_dcmread (DICOM.dcm_files example_records))).
Proof.
  apply (records_are_exported_apart example_batch ["batch"%string] ["out"%string] png false
           example_records example_dcmread).
  - vm_compute. repeat constructor; simpl; intuition discriminate.
  - intros n H. simpl in H. intuition discriminate.
  - reflexivity.
Defined.

(** The one collision in a directory: [.dcm] and [.dcm.dcm] have the same
    stem, so the second export replaces the first. *)
Example dcm_named_records_collide :
  export_path ["d"%string; ".dcm"%string] ["out"%string] png false
  = export_path ["d"%string; ".dcm.dcm"%string] ["out"%string] png false.
Proof. reflexivity. Qed.



(** ** [main] *)

Lemma main_run invalid dcmread w :
  main invalid dcmread w
  = match DICOM.__init__ (fs w) ["DICOM"%string; "digest_article"%string] with
    | Ok dicom =>
        (match fst (DICOM.process_dynamic invalid dcmread dicom ["data"%string] None None
                      png true w) with
         | Ok _ => Ok tt
         | Raise e => Raise e
         end,
         snd (DICOM.process_dynamic invalid dcmread dicom ["data"%string] None None png true w))
    | Raise e => (Raise e, w)
    end.
Proof.
  unfold main, construct, bind.
  destruct (DICOM.__init__ (fs w) _) as [dicom|e]; [|reflexivity].
  destruct (DICOM.process_dynamic invalid dcmread dicom ["data"%string] None None png true w)
    as [[out|e] w']; reflexivity.
Qed.

(** X25: without its input directory [main] raises [FileNotFoundError] and leaves
    everything as it was: no output directory, no line printed. *)
Theorem main_raises_without_input invalid dcmread w :
  pathlib.exists_ (fs w) ["DICOM"%string; "digest_article"%string] = false ->
  main invalid dcmread w = (Raise (FileNotFoundError "File/Folder does not exist"), w).
Proof.
  intros H. rewrite main_run. unfold DICOM.__init__. rewrite H. reflexivity.
Qed.

Lemma main_raises_without_input_witness :
  main invalid_as_zero example_dcmread example_world
  = (Raise (FileNotFoundError "File/Folder does not exist"), example_world).
Proof.
  apply (main_raises_without_input invalid_as_zero example_dcmread example_world).
  reflexivity.
Defined.

Lemma Forall2_exists_r {A B : Type} (R : A -> B -> Prop) l l' :
  Forall2 R l l' -> Forall (fun x => exists y, R x y) l.
Proof. induction 1; constructor; eauto. Qed.

(** X26: when every record of [DICOM/digest_article] can be read, no two are
    exported to the same path, and [data] can be written to, [main] returns,
    and the plot of every record with pixel data is under [data/plt], named
    after the record, saved from the dynamic normalisation of its pixel array
    over the array's own range. *)
Theorem main_plots_every_record invalid dcmread w dicom :
  DICOM.__init__ (fs w) ["DICOM"%string; "digest_article"%string] = Ok dicom ->
  Forall (readable dcmread) (DICOM.dcm_files dicom) ->
  exportable (fs w) (DICOM.dcm_files dicom) ["data"%string] png true ->
  NoDup (map (fun file => export_path file ["data"%string] png true)
           (with_pixel_data dcmread (DICOM.dcm_files dicom))) ->
  fst (main invalid dcmread w) = Ok tt
  /\ Forall (fun file =>
               exists u8,
                 (exists dcm_file pixel_array,
                     dcmread file = Ok dcm_file
                     /\ pydicom.pixel_array dcm_file = Some pixel_array
                     /\ DICOM.pixel_array_norm_u8 invalid pixel_array None None = Ok u8)
                 /\ pathlib.lookup (fs (snd (main invalid dcmread w)))
                      ["data"%string; "plt"%string; (pathlib.stem file ++ ".png")%string]
                    = Some (pathlib.File (Some u8)))
       (with_pixel_data dcmread (DICOM.dcm_files dicom)).
Proof.
  intros Hinit Hall Hx Hnd. rewrite main_run, Hinit. rewrite process_dynamic_batch.
  destruct (run_succeeds dcmread
              (fun pa => DICOM.pixel_array_norm_u8 invalid pa None None)
              (DICOM.dcm_files dicom) ["data"%string] png true w
              (fun pa => dynamic_returns invalid pa None None) Hall Hx)
    as (out & w' & Hrun & _ & _ & _ & _ & Hsaved).
  rewrite Hrun. simpl fst. simpl snd. split; [reflexivity|].
  apply (Forall2_exists_r _ _ _ (Hsaved Hnd)).
Qed.

Lemma main_plots_every_record_witness :
  fst (main invalid_as_zero uniform_dcmread {| fs := example_article; stdout := [] |}) = Ok tt
  /\ Forall (fun file =>
               exists u8,
                 (exists dcm_file pixel_array,
                     uniform_dcmread file = Ok dcm_file
                     /\ pydicom.pixel_array dcm_file = Some pixel_array
                     /\ DICOM.pixel_array_norm_u8 invalid_as_zero pixel_array None None = Ok u8)
                 /\ pathlib.lookup
                      (fs (snd (main invalid_as_zero uniform_dcmread
                                  {| fs := example_article; stdout := [] |})))
                      ["data"%string; "plt"%string; (pathlib.stem file ++ ".png")%string]
                    = Some (pathlib.File (Some u8)))
       [ ["DICOM"%string; "digest_article"%string; "s1.dcm"%string];
         ["DICOM"%string; "digest_article"%string; "s2.dcm"%string] ].
Proof.
  apply (main_plots_every_record invalid_as_zero uniform_dcmread
           {| fs := example_article; stdout := [] |}
           {| DICOM.path := ["DICOM"%string; "digest_article"%string];
              DICOM.dcm_files :=
                [ ["DICOM"%string; "digest_article"%string; "s1.dcm"%string];
                  ["DICOM"%string; "digest_article"%string; "s2.dcm"%string] ] |}).
  - reflexivity.
  - repeat constructor; eexists; (split; [reflexivity|]); simpl; discriminate.
  - split.
    + intros q pixels Hq. simpl in Hq. destruct Hq as [<-|[<-|[]]]; discriminate.
    + intros file Hf. simpl in Hf. destruct Hf as [<-|[<-|[]]]; discriminate.
  - vm_compute. repeat constructor; simpl; intuition discriminate.
Defined.

(** X27: [main] plots: whatever the input, nothing at or below [data/img] is
    created or changed, and an entry that is there stays as it is unless it
    is directly under [data/plt]. *)
Theorem main_writes_plots_only :
  forall invalid dcmread w,
    (forall rest,
        pathlib.lookup (fs (snd (main invalid dcmread w)))
          ("data"%string :: "img"%string :: rest)
        = pathlib.lookup (fs w) ("data"%string :: "img"%string :: rest))
    /\ (forall q n,
           pathlib.lookup (fs w) q = Some n ->
           (forall name, q <> ["data"%string; "plt"%string; name]) ->
           pathlib.lookup (fs (snd (main invalid dcmread w))) q = Some n).
Proof.
  intros invalid dcmread w. rewrite main_run.
  destruct (DICOM.__init__ (fs w) _) as [dicom|e]; simpl snd.
  - rewrite process_dynamic_batch. split.
    + intros rest.
      apply (run_other_subdir dcmread _ (DICOM.dcm_files dicom) ["data"%string] png true w rest).
    + intros q n H Hq. apply run_keeps; [exact H|]. intros file _. apply Hq.
  - split; [reflexivity|]. intros q n H _. exact H.
Qed.

(** * What is returned does not depend on the export *)

(** X28: the arrays a method returns depend on the records and on the reader
    only: two runs over the same records that both return, return the same
    arrays, whatever the output directory, the format, [plot], the file
    system and the output so far. *)
Theorem returned_arrays_ignore_export_options :
  forall invalid dcmread this min_p max_p output_dir output_format plot w
         output_dir' output_format' plot' w',
    (forall out out',
        fst (DICOM.process_static invalid dcmread this output_dir output_format plot w)
        = Ok out ->
        fst (DICOM.process_static invalid dcmread this output_dir' output_format' plot' w')
        = Ok out' ->
        out = out')
    /\ (forall out out',
           fst (DICOM.process_dynamic invalid dcmread this output_dir min_p max_p
                  output_format plot w) = Ok out ->
           fst (DICOM.process_dynamic invalid dcmread this output_dir' min_p max_p
                  output_format' plot' w') = Ok out' ->
           out = out').
Proof.
  intros. rewrite !process_static_batch, !process_dynamic_batch.
  split; intros out out'; apply run_same_result.
Qed.
